(** * LLM-Arena orchestrator: a shallow embedding and its properties

    The development follows the sources:
    - [lib/store.ts]                          (module [Store])
    - [app/api/sessions/route.ts]             (module [Sessions])
    - [app/api/runs/[runId]/route.ts]         (module [Runs])
    - [lib/utils.ts]                          (module [Utils])
    - [orchestrator/src/gateway-registry.ts]  (module [GatewayRegistry])
    - [orchestrator/dist/port-allocator.js]   (module [PortAllocator])
    - [orchestrator/dist/llm-client.js]       (module [LLMClient])
    - [orchestrator/dist/docker-runtime.js]   (module [DockerRuntime], with
      Node's paths in [Path], the files it touches in [FS] and the engine's
      data in [Docker])
    - [orchestrator/src/run-manager.ts]       (module [RunManager])
    - [orchestrator/dist/index.js]            (module [Server])

    JavaScript [Map]s are [gmap]s, [Set]s are [gset]s, strings are [string]s
    (sequences of code units), integral numbers are [Z]. Asynchronous code
    that may throw lives in the monad [M]: a state transformer over [World]
    whose results carry the thrown error and the states that were open to
    other requests at each [await]. What the surroundings do (code
    generator, engine, probed server, network) is a parameter, [Host]. *)

From stdpp Require Import base gmap sets list strings pretty.
From Stdlib Require Import ZArith Lia.
From Stdlib Require Import Ascii Sorted.

Set Warnings "-register-all,-clear-no-such-hyp".

Local Open Scope string_scope.
Local Open Scope list_scope.
Local Open Scope Z_scope.

(** ** Shared types ([types/index.ts], [orchestrator/src/types.ts]) *)

(** [ModelProvider] *)
Inductive ModelProvider := openai | anthropic | google | xai | meta | deepseek.

(** [RunStatus]: the union of the main application's and the orchestrator's
    declarations (the former has [capturing], the latter [generating]). *)
Inductive RunStatus :=
  | queued | generating | installing | building | starting | healthy
  | capturing | ready | failed | terminated.

Global Instance RunStatus_eq_dec : EqDecision RunStatus.
Proof. solve_decision. Defined.

Global Instance ModelProvider_eq_dec : EqDecision ModelProvider.
Proof. solve_decision. Defined.

(** [Run], as held by the main application's store. Dates are milliseconds. *)
Record Run := mkRun {
  run_id : string;
  run_sessionId : string;
  run_model : string;
  run_provider : ModelProvider;
  run_status : RunStatus;
  run_containerId : option string;
  run_internalUrl : option string;
  run_error : option string;
  run_logsError : option string;
  run_createdAt : Z;
  run_updatedAt : Z;
  run_startedAt : option Z;
  run_completedAt : option Z
}.

(** [Partial<Run>] as sent by the orchestrator in its PATCH requests. *)
Record RunUpdate := mkUpdate {
  upd_status : option RunStatus;
  upd_containerId : option string;
  upd_internalUrl : option string;
  upd_error : option string;
  upd_logsError : option string;
  upd_startedAt : option Z;
  upd_completedAt : option Z
}.

(** [Session]; its runs are kept by their identifiers, as the store looks
    them up again on every read. *)
Record Session := mkSession {
  session_id : string;
  session_prompt : string;
  session_runs : list string;
  session_createdAt : Z;
  session_updatedAt : Z
}.

(** ** The main application's store ([lib/store.ts]) *)

Module Store.

Record t := mk {
  sessions : gmap string Session;
  runs : gmap string Run;
  (** number of identifiers drawn from [nanoid] so far *)
  drawn : nat
}.

Definition empty : t := mk ∅ ∅ 0.

Section WithIds.
(** [nanoid()]: the i-th identifier the generator hands out. *)
Variable nanoid : nat → string.

(** The [models.map] callback of [createSession], run over the list:
    each element draws an identifier and stores a [queued] run. *)
Fixpoint createRuns (sessionId : string) (now : Z)
    (models : list (ModelProvider * string)) (st : t) : list Run * t :=
  match models with
  | [] => ([], st)
  | (provider, model) :: rest =>
      let runId := nanoid (drawn st) in
      let run := mkRun runId sessionId model provider queued
                       None None None None now now None None in
      let st1 := mk (sessions st) (<[runId := run]> (runs st)) (S (drawn st)) in
      let '(rs, st2) := createRuns sessionId now rest st1 in
      (run :: rs, st2)
  end.

(** [createSession(prompt, models)] *)
Definition createSession (prompt : string) (now : Z)
    (models : list (ModelProvider * string)) (st : t) : Session * list Run * t :=
  let sessionId := nanoid (drawn st) in
  let st0 := mk (sessions st) (runs st) (S (drawn st)) in
  let '(rs, st1) := createRuns sessionId now models st0 in
  let session := mkSession sessionId prompt (map run_id rs) now now in
  (session, rs,
   mk (<[sessionId := session]> (sessions st1)) (runs st1) (drawn st1)).
End WithIds.

Definition getRun (runId : string) (st : t) : option Run := runs st !! runId.

Definition or_else {A} (new old : option A) : option A :=
  match new with Some _ => new | None => old end.

(** [{ ...run, ...updates, updatedAt: new Date() }] *)
Definition merge (run : Run) (u : RunUpdate) (now : Z) : Run :=
  mkRun (run_id run) (run_sessionId run) (run_model run) (run_provider run)
        (default (run_status run) (upd_status u))
        (or_else (upd_containerId u) (run_containerId run))
        (or_else (upd_internalUrl u) (run_internalUrl run))
        (or_else (upd_error u) (run_error run))
        (or_else (upd_logsError u) (run_logsError run))
        (run_createdAt run) now
        (or_else (upd_startedAt u) (run_startedAt run))
        (or_else (upd_completedAt u) (run_completedAt run)).

Definition touch (now : Z) (s : Session) : Session :=
  mkSession (session_id s) (session_prompt s) (session_runs s)
            (session_createdAt s) now.

(** [updateRun(runId, updates)]: [undefined] for an unknown run. *)
Definition updateRun (runId : string) (u : RunUpdate) (now : Z) (st : t)
    : option Run * t :=
  match runs st !! runId with
  | None => (None, st)
  | Some run =>
      let updated := merge run u now in
      (Some updated,
       mk (alter (touch now) (run_sessionId run) (sessions st))
          (<[runId := updated]> (runs st)) (drawn st))
  end.

(** [getSession(sessionId)]: the session with the current record of each of
    its runs; a run the store no longer holds comes out as [undefined]. *)
Definition getSession (sessionId : string) (st : t)
    : option (Session * list (option Run)) :=
  match sessions st !! sessionId with
  | None => None
  | Some session =>
      Some (session, map (λ runId, runs st !! runId) (session_runs session))
  end.

(** [Array.from(this.runs.values())]. A JavaScript [Map] enumerates in
    insertion order, the model in the order of the keys; what is proved of
    the two listings below does not depend on the order. *)
Definition allRuns (st : t) : list Run := (map_to_list (runs st)).*2.

(** [getRunsBySession(sessionId)] *)
Definition getRunsBySession (sessionId : string) (st : t) : list Run :=
  filter (λ run, run_sessionId run = sessionId) (allRuns st).

(** [getRunsByStatus(status)] *)
Definition getRunsByStatus (status : RunStatus) (st : t) : list Run :=
  filter (λ run, run_status run = status) (allRuns st).

(** [deleteRun(runId)]: the run leaves the map and the list of its session;
    a session left without runs is deleted. *)
Definition deleteRun (runId : string) (st : t) : t :=
  match runs st !! runId with
  | None => st
  | Some run =>
      let runs' := delete runId (runs st) in
      match sessions st !! run_sessionId run with
      | None => mk (sessions st) runs' (drawn st)
      | Some session =>
          let kept := filter (λ r, r ≠ runId) (session_runs session) in
          if decide (length kept = 0%nat) then
            mk (delete (run_sessionId run) (sessions st)) runs' (drawn st)
          else
            mk (<[run_sessionId run :=
                    mkSession (session_id session) (session_prompt session) kept
                      (session_createdAt session) (session_updatedAt session)]>
                  (sessions st))
               runs' (drawn st)
      end
  end.

(** [deleteSession(sessionId)] *)
Definition deleteSession (sessionId : string) (st : t) : t :=
  match sessions st !! sessionId with
  | None => st
  | Some session =>
      mk (delete sessionId (sessions st))
         (foldl (λ rs runId, delete runId rs) (runs st) (session_runs session))
         (drawn st)
  end.

(** The statuses [getStats] reports on, in the order of its object literal. *)
Definition reported : list RunStatus :=
  [queued; installing; building; starting; healthy; capturing; ready; failed;
   terminated].

Record Stats := mkStats {
  totalSessions : nat;
  totalRuns : nat;
  runsByStatus : list (RunStatus * nat)
}.

(** [getStats()] *)
Definition getStats (st : t) : Stats :=
  mkStats (size (sessions st)) (size (runs st))
    (map (λ status, (status, length (getRunsByStatus status st))) reported).

(** [clear()] *)
Definition clear (st : t) : t := mk ∅ ∅ (drawn st).

(** The store's two maps agree: a session lists each of its runs once, every
    listed run is held and names the session, every held run is listed by
    the session it names, records sit under their own identifier, and every
    identifier in use was drawn from [nanoid]. *)
Record consistent (nanoid : nat → string) (st : t) : Prop := mkConsistent {
  listed_once : ∀ sid s, sessions st !! sid = Some s → NoDup (session_runs s);
  listed_held : ∀ sid s rid, sessions st !! sid = Some s → rid ∈ session_runs s →
    ∃ r, runs st !! rid = Some r ∧ run_sessionId r = sid;
  held_listed : ∀ rid r, runs st !! rid = Some r →
    ∃ s, sessions st !! run_sessionId r = Some s ∧ rid ∈ session_runs s;
  run_keyed : ∀ rid r, runs st !! rid = Some r → run_id r = rid;
  session_keyed : ∀ sid s, sessions st !! sid = Some s → session_id s = sid;
  keys_drawn : ∀ k, is_Some (runs st !! k) ∨ is_Some (sessions st !! k) →
    ∃ i, (i < drawn st)%nat ∧ nanoid i = k
}.

(** No session is left without runs. *)
Definition populated (st : t) : Prop :=
  ∀ sid s, sessions st !! sid = Some s → session_runs s ≠ [].

End Store.

(** ** Session creation ([app/api/sessions/route.ts]) *)

Module Sessions.

(** A parsed JSON value; a number's value plays no part here. Object
    members are kept in source order; [JSON.parse] lets the last of several
    equal keys win. Strings are sequences of code units. *)
Inductive json :=
  | JNull
  | JBool (b : bool)
  | JNum (n : Z)
  | JStr (s : string)
  | JArr (items : list json)
  | JObj (members : list (string * json)).

Fixpoint obj_get (key : string) (members : list (string * json)) : option json :=
  match members with
  | [] => None
  | (k, v) :: rest =>
      match obj_get key rest with
      | Some v' => Some v'
      | None => if decide (k = key) then Some v else None
      end
  end.

(** zod's [getParsedType] *)
Definition parsedType (v : option json) : string :=
  match v with
  | None => "undefined"
  | Some JNull => "null"
  | Some (JBool _) => "boolean"
  | Some (JNum _) => "number"
  | Some (JStr _) => "string"
  | Some (JArr _) => "array"
  | Some (JObj _) => "object"
  end.

Inductive segment := Key (k : string) | Index (i : nat).

Inductive issue_code := invalid_type | too_small | too_big | invalid_enum_value.

Record issue := mkIssue {
  code : issue_code;
  path : list segment;
  message : string
}.

(** zod's default error map for [invalid_type] *)
Definition invalid_type_issue (p : list segment) (expected : string)
    (v : option json) : issue :=
  mkIssue invalid_type p
    (match v with
     | None => "Required"
     | Some _ => "Expected " +:+ expected +:+ ", received " +:+ parsedType v
     end).

Definition providers : list (string * ModelProvider) :=
  [("openai", openai); ("anthropic", anthropic); ("google", google);
   ("xai", xai); ("meta", meta); ("deepseek", deepseek)].

Definition provider_of_string (s : string) : option ModelProvider :=
  snd <$> List.find (λ kv, bool_decide (fst kv = s)) providers.

Definition enum_expected : string :=
  "'openai' | 'anthropic' | 'google' | 'xai' | 'meta' | 'deepseek'".

(** A parser's answer: the issues it raised and the value, if it produced
    one. *)
Definition parsed (A : Type) : Type := list issue * option A.

(** [z.string().min(10, "Prompt must be at least 10 characters")] *)
Definition parse_prompt (v : option json) : parsed string :=
  match v with
  | Some (JStr s) =>
      if (String.length s <? 10)%nat
      then ([mkIssue too_small [Key "prompt"]
               "Prompt must be at least 10 characters"], Some s)
      else ([], Some s)
  | _ => ([invalid_type_issue [Key "prompt"] "string" v], None)
  end.

(** [z.enum(["openai", "anthropic", "google", "xai", "meta", "deepseek"])] *)
Definition parse_provider (p : list segment) (v : option json)
    : parsed ModelProvider :=
  match v with
  | Some (JStr s) =>
      match provider_of_string s with
      | Some pr => ([], Some pr)
      | None =>
          ([mkIssue invalid_enum_value p
              ("Invalid enum value. Expected " +:+ enum_expected
               +:+ ", received '" +:+ s +:+ "'")], None)
      end
  | _ => ([invalid_type_issue p enum_expected v], None)
  end.

(** [z.string()] *)
Definition parse_model (p : list segment) (v : option json) : parsed string :=
  match v with
  | Some (JStr s) => ([], Some s)
  | _ => ([invalid_type_issue p "string" v], None)
  end.

(** [z.object({ provider: ..., model: z.string() })] at index [i] *)
Definition parse_entry (i : nat) (v : json) : parsed (ModelProvider * string) :=
  let p := [Key "models"; Index i] in
  match v with
  | JObj members =>
      let '(i1, pr) := parse_provider (p ++ [Key "provider"])
                         (obj_get "provider" members) in
      let '(i2, m) := parse_model (p ++ [Key "model"])
                        (obj_get "model" members) in
      (i1 ++ i2,
       match pr, m with Some pr, Some m => Some (pr, m) | _, _ => None end)
  | _ => ([invalid_type_issue p "object" (Some v)], None)
  end.

Fixpoint parse_entries (i : nat) (items : list json)
    : parsed (list (ModelProvider * string)) :=
  match items with
  | [] => ([], Some [])
  | v :: rest =>
      let '(i1, e) := parse_entry i v in
      let '(i2, es) := parse_entries (S i) rest in
      (i1 ++ i2,
       match e, es with Some e, Some es => Some (e :: es) | _, _ => None end)
  end.

(** [z.array(...).min(1, ...).max(6, ...)]: the length checks come first,
    then every element is parsed. *)
Definition parse_models (v : option json)
    : parsed (list (ModelProvider * string)) :=
  match v with
  | Some (JArr items) =>
      let small :=
        if (length items <? 1)%nat
        then [mkIssue too_small [Key "models"] "At least one model is required"]
        else [] in
      let big :=
        if (6 <? length items)%nat
        then [mkIssue too_big [Key "models"] "Maximum 6 models allowed"]
        else [] in
      let '(errs, es) := parse_entries 0 items in
      (small ++ big ++ errs, es)
  | _ => ([invalid_type_issue [Key "models"] "array" v], None)
  end.

Record request := mkRequest {
  req_prompt : string;
  req_models : list (ModelProvider * string)
}.

(** [createSessionSchema.safeParse(body)] *)
Definition safeParse (body : json) : list issue + request :=
  match body with
  | JObj members =>
      let '(i1, p) := parse_prompt (obj_get "prompt" members) in
      let '(i2, ms) := parse_models (obj_get "models" members) in
      match i1 ++ i2, p, ms with
      | [], Some p, Some ms => inr (mkRequest p ms)
      | errs, _, _ => inl errs
      end
  | _ => inl [invalid_type_issue [] "object" (Some body)]
  end.

Inductive response :=
  | Created (sessionId : string) (runIds : list string)   (* 200 *)
  | BadRequest (error : option string)                    (* 400 *)
  | ServerError (error : string).                         (* 500 *)

Definition status (r : response) : Z :=
  match r with
  | Created _ _ => 200
  | BadRequest _ => 400
  | ServerError _ => 500
  end.

Section Handler.
Variable nanoid : nat → string.

(** [POST(request)]. [body] is [None] when [request.json()] rejects; the
    outer handler then answers 500. The call that triggers the
    orchestrator swallows its own failure and does not touch the store. *)
Definition POST (body : option json) (now : Z) (st : Store.t)
    : response * Store.t :=
  match body with
  | None => (ServerError "Failed to create session", st)
  | Some b =>
      match safeParse b with
      | inl issues => (BadRequest (message <$> head issues), st)
      | inr req =>
          let '(session, rs, st') :=
            Store.createSession nanoid (req_prompt req) now (req_models req) st in
          (Created (session_id session) (map run_id rs), st')
      end
  end.
End Handler.

(** The bounds as the interface description words them. *)
Definition provider_names : list string :=
  ["openai"; "anthropic"; "google"; "xai"; "meta"; "deepseek"].

Definition is_pair (v : json) : Prop :=
  ∃ members p m, v = JObj members
    ∧ obj_get "provider" members = Some (JStr p) ∧ p ∈ provider_names
    ∧ obj_get "model" members = Some (JStr m).

Definition within_bounds (body : json) : Prop :=
  ∃ members prompt models, body = JObj members
    ∧ obj_get "prompt" members = Some (JStr prompt)
    ∧ (10 ≤ String.length prompt)%nat
    ∧ obj_get "models" members = Some (JArr models)
    ∧ (1 ≤ length models ≤ 6)%nat
    ∧ Forall is_pair models.

End Sessions.


(** ** A run's route ([app/api/runs/[runId]/route.ts]) *)

Module Runs.

Inductive response :=
  | Found (run : Run)             (* 200, the run *)
  | NotFound (error : string)     (* 404 *)
  | ServerError (error : string). (* 500 *)

Definition status (r : response) : Z :=
  match r with
  | Found _ => 200
  | NotFound _ => 404
  | ServerError _ => 500
  end.

(** [PATCH(request, { params })]. [body] is [None] when [request.json()]
    rejects; the handler then answers 500. *)
Definition PATCH (runId : string) (body : option RunUpdate) (now : Z)
    (st : Store.t) : response * Store.t :=
  match body with
  | None => (ServerError "Failed to update run", st)
  | Some updates =>
      match Store.updateRun runId updates now st with
      | (Some updatedRun, st') => (Found updatedRun, st')
      | (None, st') => (NotFound "Run not found", st')
      end
  end.

(** [GET(request, { params })] *)
Definition GET (runId : string) (st : Store.t) : response :=
  match Store.getRun runId st with
  | Some run => Found run
  | None => NotFound "Run not found"
  end.

End Runs.

(** ** Display helpers ([lib/utils.ts]) *)

Module Utils.

(** [formatDuration(ms)] for a whole number of milliseconds: [Math.floor] of
    a quotient is [Z.div], the remainder [%] is [Z.rem], and a number is
    printed in decimal. *)
Definition formatDuration (ms : Z) : string :=
  let seconds := ms `div` 1000 in
  let minutes := seconds `div` 60 in
  let hours := minutes `div` 60 in
  if decide (0 < hours) then
    pretty hours +:+ "h " +:+ pretty (minutes `rem` 60) +:+ "m"
  else if decide (0 < minutes) then
    pretty minutes +:+ "m " +:+ pretty (seconds `rem` 60) +:+ "s"
  else pretty seconds +:+ "s".

End Utils.

(** ** POSIX paths (Node's [path.join] and [path.dirname]) *)

Module Path.

Definition slash : Ascii.ascii := "/"%char.

(** [s.split('/')] *)
Fixpoint split (s : string) : list string :=
  match s with
  | EmptyString => [EmptyString]
  | String c rest =>
      if decide (c = slash) then EmptyString :: split rest
      else match split rest with
           | seg :: segs => String c seg :: segs
           | [] => [String c EmptyString]
           end
  end.

(** [segs.join('/')] *)
Fixpoint unsplit (segs : list string) : string :=
  match segs with
  | [] => EmptyString
  | [seg] => seg
  | seg :: rest => seg +:+ "/" +:+ unsplit rest
  end.

(** [normalizeString]: the segments are consumed left to right; [stack]
    holds the segments kept so far, innermost first. Empty segments and [.]
    are dropped; [..] removes the segment before it, and is kept only where
    nothing can be removed and the path is relative. *)
Fixpoint normalizeSegments (allowAboveRoot : bool) (stack segs : list string)
    : list string :=
  match segs with
  | [] => reverse stack
  | seg :: rest =>
      if decide (seg = EmptyString ∨ seg = ".") then
        normalizeSegments allowAboveRoot stack rest
      else if decide (seg = "..") then
        match stack with
        | top :: below =>
            if decide (top = "..") then
              normalizeSegments allowAboveRoot
                (if allowAboveRoot then ".." :: stack else stack) rest
            else normalizeSegments allowAboveRoot below rest
        | [] =>
            normalizeSegments allowAboveRoot
              (if allowAboveRoot then [".."] else []) rest
        end
      else normalizeSegments allowAboveRoot (seg :: stack) rest
  end.

Definition isAbsolute (path : string) : bool :=
  match path with
  | String c _ => bool_decide (c = slash)
  | EmptyString => false
  end.

Definition endsWithSlash (path : string) : bool :=
  match String.rev path with
  | String c _ => bool_decide (c = slash)
  | EmptyString => false
  end.

(** [path.normalize] *)
Definition normalize (path : string) : string :=
  if decide (path = EmptyString) then "."
  else
    let absolute := isAbsolute path in
    let trailing := endsWithSlash path in
    let body := unsplit (normalizeSegments (negb absolute) [] (split path)) in
    if decide (body = EmptyString) then
      if absolute then "/" else if trailing then "./" else "."
    else
      let body := if trailing then body +:+ "/" else body in
      if absolute then "/" +:+ body else body.

(** [path.join(a, b)]: the non-empty arguments are glued with a slash and
    the result is normalised. An absolute second argument is not special. *)
Definition join (a b : string) : string :=
  let joined :=
    if decide (a = EmptyString) then b
    else if decide (b = EmptyString) then a
    else a +:+ "/" +:+ b in
  if decide (joined = EmptyString) then "." else normalize joined.

(** The backwards scan of [path.dirname] over the characters at index 1 and
    above, given last first: the length of the prefix of them that precedes
    the slash in front of the last component. *)
Fixpoint dirnameEnd (matchedSlash : bool) (backwards : list Ascii.ascii) : option nat :=
  match backwards with
  | [] => None
  | c :: before =>
      if decide (c = slash) then
        if matchedSlash then dirnameEnd true before
        else Some (length before)
      else dirnameEnd false before
  end.

(** [path.dirname] *)
Definition dirname (path : string) : string :=
  match path with
  | EmptyString => "."
  | String c0 rest =>
      let hasRoot := bool_decide (c0 = slash) in
      match dirnameEnd true (reverse (String.list_ascii_of_string rest)) with
      | None => if hasRoot then "/" else "."
      | Some k =>
          if hasRoot && bool_decide (k = 0%nat) then "//"
          else String c0 (String.string_of_list_ascii (take k (String.list_ascii_of_string rest)))
      end
  end.

End Path.

(** ** The host file system, as far as the runtime touches it *)

Module FS.

Record t := mk {
  files : gmap string string;   (* regular files by absolute path *)
  dirs : gset string            (* directories made by the runtime *)
}.

Definition empty : t := mk ∅ ∅.

(** [p] lies strictly below directory [dir]. *)
Definition below (dir p : string) : bool := String.prefix (dir +:+ "/") p.

(** [p] is [dir] or lies below it. *)
Definition within (dir p : string) : bool := bool_decide (p = dir) || below dir p.

(** [mkdir -p dir]; the ancestors it may also make are not recorded. *)
Definition mkdir_p (dir : string) (fs : t) : t :=
  mk (files fs) ({[dir]} ∪ dirs fs).

(** [fs.writeFile(path, content, 'utf-8')] *)
Definition writeFile (path content : string) (fs : t) : t :=
  mk (<[path := content]> (files fs)) (dirs fs).

(** [rm -rf dir] *)
Definition rm_rf (dir : string) (fs : t) : t :=
  mk (filter (λ kv, within dir kv.1 = false) (files fs))
     (filter (λ p, within dir p = false) (dirs fs)).

(** [cp -r template/* dir/] for a template tree given by its files. *)
Definition copyTree (template : list (string * string)) (dir : string) (fs : t) : t :=
  foldl (λ acc kv, writeFile (dir +:+ "/" +:+ kv.1) kv.2 acc) fs template.

(** Nothing is left of [dir]. *)
Definition gone (dir : string) (fs : t) : Prop :=
  (dir ∉ dirs fs) ∧ ∀ p, within dir p = true → files fs !! p = None.

End FS.

(** ** Generated code ([GeneratedCode]) and its validation ([llm-client.js]) *)

Module LLMClient.

(** [files: Record<string, string>], in property order, keys distinct. *)
Definition GeneratedCode := list (string * string).

(** [code.files[key]] *)
Definition get (key : string) (code : GeneratedCode) : option string :=
  snd <$> List.find (λ kv, bool_decide (kv.1 = key)) code.

(** [hay.includes(needle)] *)
Fixpoint includes (needle hay : string) : bool :=
  String.prefix needle hay ||
  match hay with
  | EmptyString => false
  | String _ rest => includes needle rest
  end.

(** [validateCode(code)]: [inl] carries the message of the thrown error. *)
Definition validateCode (code : GeneratedCode) : string + unit :=
  match get "app/page.tsx" code with
  | None | Some EmptyString => inl "Missing app/page.tsx"
  | Some pageCode =>
      if negb (includes "export default" pageCode)
         && negb (includes "export default function" pageCode)
      then inl "page.tsx must have a default export"
      else inr tt
  end.

(** *** Cleaning the model's reply ([cleanCode])

    A string holds code units below 256: the line terminators among them
    are LF and CR, the white space TAB, LF, VT, FF, CR, SP and NBSP. *)

Definition lineTerminator (c : ascii) : bool :=
  bool_decide (nat_of_ascii c ∈ [10; 13]%nat).

Definition whiteSpace (c : ascii) : bool :=
  bool_decide (nat_of_ascii c ∈ [9; 10; 11; 12; 13; 32; 160]%nat).

Definition backtick : ascii := ascii_of_nat 96.
Definition fence : string := String backtick (String backtick (String backtick "")).
Definition lineFeed : string := String (ascii_of_nat 10) "".
Definition doubleQuote : string := String (ascii_of_nat 34) "".

(** [^] under the [m] flag, [prev] being the character before the
    position: at the start of the input or after a line terminator. *)
Definition lineStart (prev : option ascii) : bool :=
  match prev with
  | None => true
  | Some c => lineTerminator c
  end.

(** [$] under the [m] flag, [s] being the input from the position on: at
    the end of the input or before a line terminator. *)
Definition lineEnd (s : string) : bool :=
  match s with
  | EmptyString => true
  | String c _ => lineTerminator c
  end.

(** [s.slice(n)] *)
Fixpoint slice (n : nat) (s : string) : string :=
  match n, s with
  | S k, String _ rest => slice k rest
  | _, _ => s
  end.

(** The alternatives of [(?:typescript|tsx|jsx|javascript)], in order. *)
Definition languages : list string :=
  ["typescript"; "tsx"; "jsx"; "javascript"].

(** The length of the match of [/^```(?:typescript|tsx|jsx|javascript)?\n?/m]
    at a position: the fence, the first alternative found there if there is
    one, and a line feed if one follows. Nothing after the optional parts
    can fail, so the first choice stands. *)
Definition openingFence (prev : option ascii) (s : string) : option nat :=
  if lineStart prev && String.prefix fence s then
    let tag := default "" (List.find (λ l, String.prefix l (slice 3 s)) languages) in
    let after := slice (3 + String.length tag) s in
    Some (3 + String.length tag + (if String.prefix lineFeed after then 1 else 0))%nat
  else None.

(** The length of the match of [/```$/m] at a position. *)
Definition closingFence (prev : option ascii) (s : string) : option nat :=
  if String.prefix fence s && lineEnd (slice 3 s) then Some 3%nat else None.

(** [s.replace(re, '')] for a global [re] whose matches are not empty:
    the matches are found from left to right in the input, each search
    starting where the last match ended. [skip] counts the characters of
    the current match still to pass. *)
Fixpoint removeAll (re : option ascii → string → option nat)
    (prev : option ascii) (skip : nat) (s : string) : string :=
  match s with
  | EmptyString => EmptyString
  | String c rest =>
      match skip with
      | S k => removeAll re (Some c) k rest
      | O =>
          match re prev s with
          | Some (S k) => removeAll re (Some c) k rest
          | _ => String c (removeAll re (Some c) 0 rest)
          end
      end
  end.

Fixpoint trimStart (s : string) : string :=
  match s with
  | EmptyString => EmptyString
  | String c rest => if whiteSpace c then trimStart rest else s
  end.

Fixpoint trimEnd (s : string) : string :=
  match s with
  | EmptyString => EmptyString
  | String c rest =>
      match trimEnd rest with
      | EmptyString => if whiteSpace c then EmptyString else String c EmptyString
      | kept => String c kept
      end
  end.

(** [s.trim()] *)
Definition trim (s : string) : string := trimEnd (trimStart s).

(** [s.replace(/^line$/m, by)]: the first line that is [line] is replaced. *)
Fixpoint replaceLine (line by_ : string) (prev : option ascii) (s : string) : string :=
  if lineStart prev && String.prefix line s && lineEnd (slice (String.length line) s)
  then by_ +:+ slice (String.length line) s
  else match s with
       | EmptyString => EmptyString
       | String c rest => String c (replaceLine line by_ (Some c) rest)
       end.

Definition useClient : string := "use client".

(** [cleanCode(code)] *)
Definition cleanCode (code : string) : string :=
  let code := removeAll openingFence None 0 code in
  let code := removeAll closingFence None 0 code in
  let code := trim code in
  let code := replaceLine useClient (doubleQuote +:+ useClient +:+ doubleQuote) None code in
  replaceLine ("'" +:+ useClient +:+ "'") (doubleQuote +:+ useClient +:+ doubleQuote) None code.

(** The lines of a text, a line ending at each line terminator. *)
Fixpoint lines (s : string) : list string :=
  match s with
  | EmptyString => [EmptyString]
  | String c rest =>
      if lineTerminator c then EmptyString :: lines rest
      else match lines rest with
           | l :: ls => String c l :: ls
           | [] => [String c EmptyString]
           end
  end.

(** A text without backticks. *)
Definition plain (s : string) : Prop :=
  includes (String backtick "") s = false.

(** A text without line terminators. *)
Definition oneLine (s : string) : Prop :=
  Forall (λ c, lineTerminator c = false) (String.list_ascii_of_string s).

(** The two replacements of the directive, the last steps of [cleanCode]. *)
Definition directive (code : string) : string :=
  replaceLine ("'" +:+ useClient +:+ "'") (doubleQuote +:+ useClient +:+ doubleQuote) None
    (replaceLine useClient (doubleQuote +:+ useClient +:+ doubleQuote) None code).

End LLMClient.

(** ** The container engine's data ([dockerode]) *)

Module Docker.

Record HostConfig := mkHostConfig {
  Memory : Z;
  NanoCpus : Z;
  NetworkMode : string;
  (** container port and the [HostPort] of each of its bindings *)
  PortBindings : list (string * list string);
  Binds : list string;
  SecurityOpt : list string;
  CapDrop : list string;
  PidsLimit : option Z;
  AutoRemove : bool
}.

(** The argument of [docker.createContainer]. An option the code leaves out
    is [None], or the empty list. *)
Record ContainerConfig := mkConfig {
  name : string;
  Image : string;
  WorkingDir : string;
  Cmd : list string;
  Env : list string;
  ExposedPorts : list string;
  hostConfig : HostConfig;
  AttachStdout : bool;
  AttachStderr : bool;
  Tty : bool
}.

(** A container the engine holds. *)
Record Container := mkContainer {
  config : ContainerConfig;
  running : bool
}.

(** A JavaScript number as far as [parseInt] can give one. *)
Inductive number := NaN | Num (z : Z).

(** [!n] *)
Definition falsy (n : number) : bool :=
  match n with
  | NaN => true
  | Num z => bool_decide (z = 0)
  end.

(** [`${n}`] *)
Definition show (n : number) : string :=
  match n with
  | NaN => "NaN"
  | Num z => pretty z
  end.

End Docker.

(** ** Everything outside the orchestrator's code *)

(** One answer of the probed server: how long it takes, and the status of the
    response, or none when the connection fails. *)
Record Probe := mkProbe {
  latency : Z;
  answer : option Z
}.

(** The behaviour of the orchestrator's surroundings during one request:
    environment variables, the deployed template, the code generator, the
    engine, the probed server and the link to the main application. *)
Record Host := mkHost {
  (** [WORKSPACE_BASE] *)
  workspaceBase : string;
  (** the files of the template tree, by path relative to it *)
  template : list (string * string);
  (** [generateCode(prompt, provider, model)]: the message of the error it
      throws, or the files it returns *)
  generate : string → ModelProvider → string → string + LLMClient.GeneratedCode;
  (** [Some e]: the first shell command of [prepareWorkspace] rejects with [e] *)
  shell : option string;
  (** [Some e]: the engine refuses to create a container of that name *)
  refuse : string → option string;
  (** [StatusCode] and log output of the build container *)
  buildStatus : Z;
  buildLogs : string;
  (** the engine's identifier of the runtime container *)
  containerId : string;
  (** [NetworkSettings.Networks[NETWORK_NAME]?.IPAddress] *)
  ipAddress : option string;
  (** [parseInt] of the first binding of [3000/tcp], where there is one *)
  boundPort : option Docker.number;
  (** the probed server's answer to the i-th request for a URL *)
  probe : string → nat → Probe;
  (** whether the n-th PATCH request reaches the main application *)
  delivered : nat → bool;
  (** [Some e]: [container.remove] rejects with [e] *)
  removeFails : option string
}.

(** [DockerRuntime.containers]: [Map<runId, { container, ip, hostPort }>];
    the container handle is its name at the engine. *)
Record Entry := mkEntry {
  container : string;
  ip : string;
  hostPort : Docker.number
}.

(** [DockerContainer] *)
Record DockerContainer := mkDockerContainer {
  dc_id : string;
  dc_runId : string;
  dc_port : Docker.number;
  dc_internalUrl : string
}.

(** The state the orchestrator works on: the main application's store, the
    clock, the host's files, the engine's containers, and the two in-process
    maps of the orchestrator. *)
Record World := mkWorld {
  store : Store.t;
  sent : nat;                                  (* PATCH requests issued *)
  clock : Z;                                   (* milliseconds *)
  fs : FS.t;
  engine : gmap string Docker.Container;       (* by container name *)
  created : list Docker.ContainerConfig;       (* containers created so far *)
  containers : gmap string Entry;              (* DockerRuntime.containers *)
  registry : gmap string string                (* GatewayRegistry.runToUrl *)
}.

Definition initial : World :=
  mkWorld Store.empty 0 0 FS.empty ∅ [] ∅ ∅.

Definition with_store (f : Store.t → Store.t) (w : World) : World :=
  mkWorld (f (store w)) (sent w) (clock w) (fs w) (engine w) (created w)
          (containers w) (registry w).
Definition with_sent (f : nat → nat) (w : World) : World :=
  mkWorld (store w) (f (sent w)) (clock w) (fs w) (engine w) (created w)
          (containers w) (registry w).
Definition with_clock (f : Z → Z) (w : World) : World :=
  mkWorld (store w) (sent w) (f (clock w)) (fs w) (engine w) (created w)
          (containers w) (registry w).
Definition with_fs (f : FS.t → FS.t) (w : World) : World :=
  mkWorld (store w) (sent w) (clock w) (f (fs w)) (engine w) (created w)
          (containers w) (registry w).
Definition with_engine
    (f : gmap string Docker.Container → gmap string Docker.Container)
    (w : World) : World :=
  mkWorld (store w) (sent w) (clock w) (fs w) (f (engine w)) (created w)
          (containers w) (registry w).
Definition with_created
    (f : list Docker.ContainerConfig → list Docker.ContainerConfig)
    (w : World) : World :=
  mkWorld (store w) (sent w) (clock w) (fs w) (engine w) (f (created w))
          (containers w) (registry w).
Definition with_containers (f : gmap string Entry → gmap string Entry)
    (w : World) : World :=
  mkWorld (store w) (sent w) (clock w) (fs w) (engine w) (created w)
          (f (containers w)) (registry w).
Definition with_registry (f : gmap string string → gmap string string)
    (w : World) : World :=
  mkWorld (store w) (sent w) (clock w) (fs w) (engine w) (created w)
          (containers w) (f (registry w)).

(** ** Asynchronous code that may throw *)

(** What a piece of code leaves behind: the value it returns or the message
    of the error it throws, the state it ends in, and the states that other
    requests could observe while it was suspended. *)
Record result (A : Type) := mkResult {
  outcome : string + A;
  final : World;
  seen : list World
}.
Arguments mkResult {A}.
Arguments outcome {A}.
Arguments final {A}.
Arguments seen {A}.

Definition M (A : Type) : Type := World → result A.

Global Instance M_ret : MRet M := λ A a w, mkResult (inr a) w [].

Global Instance M_bind : MBind M := λ A B f m w,
  let r := m w in
  match outcome r with
  | inl e => mkResult (inl e) (final r) (seen r)
  | inr a =>
      let r' := f a (final r) in
      mkResult (outcome r') (final r') (seen r ++ seen r')
  end.

(** [throw new Error(message)] *)
Definition throw {A} (message : string) : M A :=
  λ w, mkResult (inl message) w [].

(** [try { body } catch (error) { handler }] *)
Definition try_catch {A} (body : M A) (handler : string → M A) : M A :=
  λ w,
  let r := body w in
  match outcome r with
  | inl e =>
      let r' := handler e (final r) in
      mkResult (outcome r') (final r') (seen r ++ seen r')
  | inr a => r
  end.

Definition get : M World := λ w, mkResult (inr w) w [].

Definition modify (f : World → World) : M unit :=
  λ w, mkResult (inr tt) (f w) [].

(** [await op]: the state is open to other requests when the code suspends
    and again when it resumes. *)
Definition await {A} (op : M A) : M A :=
  λ w, let r := op w in
       mkResult (outcome r) (final r) (w :: seen r ++ [final r]).

(** [error.stack]: its first line; the frames below are not modelled. *)
Definition stack (message : string) : string := "Error: " +:+ message.

Definition newline : string := String (ascii_of_nat 10) EmptyString.

(** ** Gateway registry *)

Module GatewayRegistry.

(** [private runToUrl: Map<string, string>] *)
Abbreviation t := (gmap string string).

Definition empty : t := ∅.

(** [registerUrl(runId, url) { this.runToUrl.set(runId, url) }] *)
Definition registerUrl (runId url : string) (reg : t) : t :=
  <[runId := url]> reg.

(** [unregister(runId) { this.runToUrl.delete(runId) }] *)
Definition unregister (runId : string) (reg : t) : t :=
  delete runId reg.

(** JavaScript truthiness of a string value. *)
Definition truthy (s : string) : bool :=
  match s with
  | EmptyString => false
  | String _ _ => true
  end.

(** [resolve(runId) { return this.runToUrl.get(runId) || null }]:
    [undefined] and the empty string are both falsy and give [null]. *)
Definition resolve (runId : string) (reg : t) : option string :=
  match reg !! runId with
  | Some url => if truthy url then Some url else None
  | None => None
  end.

(** [size() { return this.runToUrl.size }] *)
Definition size (reg : t) : nat := base.size reg.

End GatewayRegistry.

(** ** Port allocator *)

Module PortAllocator.

Record t := mk {
  minPort : Z;
  maxPort : Z;
  usedPorts : gset Z
}.

(** [constructor(minPort = 3001, maxPort = 4000)] *)
Definition create (lo hi : Z) : t :=
  {| minPort := lo; maxPort := hi; usedPorts := ∅ |}.

Definition default : t := create 3001 4000.

Inductive error := NoAvailablePorts.

(** The loop [for (port = ...; port <= this.maxPort; port++)] entered at
    [port] with [n] candidates left to inspect. *)
Fixpoint scan (used : gset Z) (port : Z) (n : nat) : option Z :=
  match n with
  | O => None
  | S n' =>
      if decide (port ∈ used) then scan used (port + 1) n' else Some port
  end.

(** Number of iterations the loop can make: [maxPort - minPort + 1],
    none when the range is empty. *)
Definition span (a : t) : nat := Z.to_nat (maxPort a - minPort a + 1).

(** [allocate()]: first free port is added to the set and returned;
    [throw new Error('No available ports')] after the loop. *)
Definition allocate (a : t) : error + (Z * t) :=
  match scan (usedPorts a) (minPort a) (span a) with
  | Some port =>
      inr (port, {| minPort := minPort a; maxPort := maxPort a;
                    usedPorts := {[port]} ∪ usedPorts a |})
  | None => inl NoAvailablePorts
  end.

(** [release(port) { this.usedPorts.delete(port) }] *)
Definition release (port : Z) (a : t) : t :=
  {| minPort := minPort a; maxPort := maxPort a;
     usedPorts := usedPorts a ∖ {[port]} |}.

Definition getUsedCount (a : t) : nat := size (usedPorts a).

Definition getAvailableCount (a : t) : Z :=
  maxPort a - minPort a + 1 - Z.of_nat (size (usedPorts a)).

(** [n] calls of [allocate] in a row: the ports they return, or the error
    of the first call that throws. *)
Fixpoint allocateMany (n : nat) (a : t) : error + (list Z * t) :=
  match n with
  | O => inr ([], a)
  | S n' =>
      match allocate a with
      | inl e => inl e
      | inr (port, a1) =>
          match allocateMany n' a1 with
          | inl e => inl e
          | inr (ports, a2) => inr (port :: ports, a2)
          end
      end
  end.

(** Every allocated port lies in the allocator's range. *)
Definition inRange (a : t) : Prop :=
  ∀ port, port ∈ usedPorts a → minPort a ≤ port ≤ maxPort a.

End PortAllocator.

(** ** Docker runtime ([orchestrator/dist/docker-runtime.js]) *)

Module DockerRuntime.

Definition NETWORK_NAME : string := "llm-arena-network".

Definition GiB : Z := 1024 * 1024 * 1024.

(** The configuration [buildPhase] hands to [createContainer]. *)
Definition buildConfig (runId workspaceDir : string) : Docker.ContainerConfig :=
  {| Docker.name := "build-" +:+ runId;
     Docker.Image := "node:20-alpine";
     Docker.WorkingDir := "/workspace";
     Docker.Cmd := ["/bin/sh"; "-c";
       "npm install --legacy-peer-deps && NODE_ENV=production npm run build"];
     Docker.Env := ["NEXT_TELEMETRY_DISABLED=1"; "NPM_CONFIG_UPDATE_NOTIFIER=false"];
     Docker.ExposedPorts := [];
     Docker.hostConfig :=
       {| Docker.Memory := 4 * 1024 * 1024 * 1024;
          Docker.NanoCpus := 2 * 1000000000;
          Docker.NetworkMode := "bridge";
          Docker.PortBindings := [];
          Docker.Binds := [workspaceDir +:+ ":/workspace:rw"];
          Docker.SecurityOpt := [];
          Docker.CapDrop := [];
          Docker.PidsLimit := None;
          Docker.AutoRemove := false |};
     Docker.AttachStdout := true;
     Docker.AttachStderr := true;
     Docker.Tty := false |}.

(** The configuration [runPhase] hands to [createContainer]. *)
Definition runConfig (runId workspaceDir : string) : Docker.ContainerConfig :=
  {| Docker.name := "run-" +:+ runId;
     Docker.Image := "node:20-alpine";
     Docker.WorkingDir := "/workspace";
     Docker.Cmd := ["npm"; "run"; "start"];
     Docker.Env := ["PORT=3000"; "HOSTNAME=0.0.0.0"; "NODE_ENV=production";
                    "NEXT_TELEMETRY_DISABLED=1"];
     Docker.ExposedPorts := ["3000/tcp"];
     Docker.hostConfig :=
       {| Docker.Memory := 2 * 1024 * 1024 * 1024;
          Docker.NanoCpus := 1 * 1000000000;
          Docker.NetworkMode := NETWORK_NAME;
          Docker.PortBindings := [("3000/tcp", [EmptyString])];
          Docker.Binds := [workspaceDir +:+ ":/workspace:ro"];
          Docker.SecurityOpt := ["no-new-privileges:true"];
          Docker.CapDrop := ["ALL"];
          Docker.PidsLimit := Some 512;
          Docker.AutoRemove := false |};
     Docker.AttachStdout := true;
     Docker.AttachStderr := true;
     Docker.Tty := false |}.

(** [docker.createContainer(config)]: refused by the engine when it says so
    or when the name is taken; the handle is the container's name. *)
Definition createContainer (h : Host) (cfg : Docker.ContainerConfig) : M string :=
  w ← get;
  match refuse h (Docker.name cfg) with
  | Some e => throw e
  | None =>
      match engine w !! Docker.name cfg with
      | Some _ =>
          throw ("Conflict. The container name " +:+ Docker.name cfg
                 +:+ " is already in use")
      | None =>
          modify (with_engine <[Docker.name cfg := Docker.mkContainer cfg false]>);;
          modify (with_created (λ l, l ++ [cfg]));;
          mret (Docker.name cfg)
      end
  end.

(** [container.start()] *)
Definition start (handle : string) : M unit :=
  modify (with_engine (alter (λ c, Docker.mkContainer (Docker.config c) true) handle)).

(** [container.stop()] and [container.kill()], failures dropped *)
Definition halt (handle : string) : M unit :=
  modify (with_engine (alter (λ c, Docker.mkContainer (Docker.config c) false) handle)).

(** [container.remove()] *)
Definition remove (handle : string) : M unit :=
  modify (with_engine (delete handle)).

(** [cleanupWorkspace(dir)]: [rm -rf dir], a failure is logged and dropped. *)
Definition cleanupWorkspace (dir : string) : M unit :=
  modify (with_fs (FS.rm_rf dir)).

(** The body of the overlay loop of [prepareWorkspace]. *)
Definition writeGenerated (dir : string) (fs : FS.t) (entry : string * string) : FS.t :=
  let fullPath := Path.join dir entry.1 in
  let fileDir := Path.dirname fullPath in
  FS.writeFile fullPath entry.2 (FS.mkdir_p fileDir fs).

(** What [prepareWorkspace] does to the files when the shell obeys. *)
Definition materialize (template : list (string * string)) (dir : string)
    (code : LLMClient.GeneratedCode) (fs : FS.t) : FS.t :=
  foldl (writeGenerated dir) (FS.copyTree template dir (FS.mkdir_p dir fs)) code.

(** [prepareWorkspace(dir, code)] *)
Definition prepareWorkspace (h : Host) (dir : string)
    (code : LLMClient.GeneratedCode) : M unit :=
  match shell h with
  | Some e => throw e
  | None => modify (with_fs (materialize (template h) dir code))
  end.

(** [buildPhase(runId, workspaceDir)] *)
Definition buildPhase (h : Host) (runId workspaceDir : string) : M unit :=
  buildContainer ← createContainer h (buildConfig runId workspaceDir);
  start buildContainer;;
  halt buildContainer;;                       (* wait(): the build has exited *)
  remove buildContainer;;
  if decide (buildStatus h ≠ 0) then
    throw ("Build failed with exit code " +:+ pretty (buildStatus h) +:+ ":"
           +:+ newline +:+ buildLogs h)
  else mret tt.

(** [runPhase(runId, workspaceDir)] *)
Definition runPhase (h : Host) (runId workspaceDir : string) : M Entry :=
  runContainer ← createContainer h (runConfig runId workspaceDir);
  start runContainer;;
  let ip := default EmptyString (ipAddress h) in
  let hostPort := default (Docker.Num 0) (boundPort h) in
  if Docker.falsy hostPort then
    throw ("Failed to get host port for container " +:+ runId)
  else mret (mkEntry runContainer ip hostPort).

Definition workspaceDir (h : Host) (runId : string) : string :=
  workspaceBase h +:+ "/" +:+ runId.

(** [createRun(runId, code)] *)
Definition createRun (h : Host) (runId : string) (code : LLMClient.GeneratedCode)
    : M DockerContainer :=
  let dir := workspaceDir h runId in
  try_catch
    (prepareWorkspace h dir code;;
     buildPhase h runId dir;;
     entry ← runPhase h runId dir;
     modify (with_containers <[runId := entry]>);;
     mret (mkDockerContainer (containerId h) runId (hostPort entry)
             ("http://localhost:" +:+ Docker.show (hostPort entry))))
    (λ error, cleanupWorkspace dir;; throw error).

(** [killRun(runId)] *)
Definition killRun (h : Host) (runId : string) : M unit :=
  w ← get;
  match containers w !! runId with
  | None => mret tt
  | Some entry =>
      halt (container entry);;
      match removeFails h with
      | Some e => throw e
      | None =>
          remove (container entry);;
          cleanupWorkspace (workspaceDir h runId);;
          modify (with_containers (delete runId))
      end
  end.

(** [getActiveContainers()] *)
Definition getActiveContainers (w : World) : list string :=
  elements (dom (containers w)).

(** [getInternalUrl(runId)] *)
Definition getInternalUrl (runId : string) (w : World) : option string :=
  match containers w !! runId with
  | None => None
  | Some entry => Some ("http://" +:+ ip entry +:+ ":3000")
  end.

(** [getLogs(runId)]. [logs] is what the engine answers when asked for the
    output of a container: the message of the error it rejects with, or the
    output. *)
Definition getLogs (logs : string → string + string) (runId : string) : M string :=
  w ← get;
  match containers w !! runId with
  | None => throw ("Container not found for run " +:+ runId)
  | Some entry =>
      await (match logs (container entry) with
             | inl e => throw e
             | inr output => mret output
             end)
  end.

End DockerRuntime.

(** ** Run manager ([orchestrator/src/run-manager.ts]) *)

Module RunManager.

(** [updateRun(runId, updates)]: a PATCH to the main application, whose
    handler merges the update into its store; a request that fails (the
    application is out of reach, or does not know the run) is logged and
    dropped. *)
Definition updateRun (h : Host) (runId : string) (updates : RunUpdate) : M unit :=
  await (
    w ← get;
    modify (with_sent S);;
    if delivered h (sent w) then
      modify (with_store (λ st, (Store.updateRun runId updates (clock w) st).2))
    else mret tt).

Definition statusUpdate (status : RunStatus) : RunUpdate :=
  mkUpdate (Some status) None None None None None None.

(** [updateRunStatus(runId, status)] *)
Definition updateRunStatus (h : Host) (runId : string) (status : RunStatus) : M unit :=
  updateRun h runId (statusUpdate status).

(** [fetch(url, { signal: AbortSignal.timeout(timeout) })]: the status of the
    response, or an error when the connection fails or the time runs out. *)
Definition fetch (h : Host) (url : string) (timeout : Z) (i : nat) : M Z :=
  let p := probe h url i in
  if decide (latency p < timeout) then
    modify (with_clock (λ t, t + latency p));;
    match answer p with
    | Some status => mret status
    | None => throw "fetch failed"
    end
  else
    modify (with_clock (λ t, t + timeout));;
    throw "The operation was aborted due to timeout".

(** [setTimeout(resolve, ms)] *)
Definition sleep (ms : Z) : M unit := modify (with_clock (λ t, t + ms)).

(** [response.ok] *)
Definition ok (status : Z) : bool :=
  bool_decide (200 ≤ status) && bool_decide (status ≤ 299).

(** The loop of [waitForHealthyUrl], entered at attempt [i] with [left]
    attempts to go. *)
Fixpoint waitLoop (h : Host) (url : string) (i left : nat) : M bool :=
  match left with
  | O => mret false
  | S left' =>
      hit ← try_catch
               (response ← await (fetch h url 5000 i); mret (ok response))
               (λ _, mret false);
      if hit : bool then mret true
      else await (sleep 2000);; waitLoop h url (S i) left'
  end.

(** [waitForHealthyUrl(url, maxAttempts)] *)
Definition waitForHealthyUrl (h : Host) (url : string) (maxAttempts : nat) : M bool :=
  waitLoop h url 0 maxAttempts.

(** [new Date()] *)
Definition newDate : M Z := λ w, mkResult (inr (clock w)) w [].

(** [llmClient.generateCode(prompt, provider, model)] *)
Definition generateCode (h : Host) (prompt : string) (provider : ModelProvider)
    (model : string) : M LLMClient.GeneratedCode :=
  λ w, mkResult (generate h prompt provider model) w [].

(** [llmClient.validateCode(code)] *)
Definition validateCode (code : LLMClient.GeneratedCode) : M unit :=
  match LLMClient.validateCode code with
  | inl e => throw e
  | inr _ => mret tt
  end.

(** The [try] block of [processRun]. *)
Definition attempt (h : Host) (run : Run) (prompt : string) : M unit :=
  let id := run_id run in
  startedAt ← newDate;
  updateRun h id (mkUpdate (Some generating) None None None None (Some startedAt) None);;
  code ← await (generateCode h prompt (run_provider run) (run_model run));
  validateCode code;;
  updateRunStatus h id installing;;
  container ← await (DockerRuntime.createRun h id code);
  updateRun h id (mkUpdate (Some starting) (Some (dc_id container))
                    (Some (dc_internalUrl container)) None None None None);;
  isHealthy ← waitForHealthyUrl h (dc_internalUrl container) 30;
  (if isHealthy : bool then mret tt
   else throw "Server failed health check after 30 attempts");;
  updateRunStatus h id healthy;;
  modify (with_registry (GatewayRegistry.registerUrl id (dc_internalUrl container)));;
  completedAt ← newDate;
  updateRun h id (mkUpdate (Some ready) None None None None None (Some completedAt)).

(** The [catch] block of [processRun]. *)
Definition recover (h : Host) (run : Run) (error : string) : M unit :=
  let id := run_id run in
  completedAt ← newDate;
  updateRun h id (mkUpdate (Some failed) None None (Some error)
                    (Some (stack error)) None (Some completedAt));;
  try_catch (await (DockerRuntime.killRun h id)) (λ _, mret tt).

(** [processRun(run, prompt)] *)
Definition processRun (h : Host) (run : Run) (prompt : string) : M unit :=
  try_catch (attempt h run prompt) (recover h run).

(** [killRun(runId)] *)
Definition killRun (h : Host) (runId : string) : M unit :=
  try_catch
    (await (DockerRuntime.killRun h runId);;
     updateRunStatus h runId terminated)
    (λ error, throw error).

(** [getLogs(runId)] *)
Definition getLogs (logs : string → string + string) (runId : string) : M string :=
  await (DockerRuntime.getLogs logs runId).

End RunManager.

(** ** HTTP surface of the orchestrator ([orchestrator/dist/index.js]) *)

Module Server.

Inductive response :=
  | Success                       (* 200 { success: true } *)
  | Url (url : string)            (* 200 { url } *)
  | NotFound (error : string)     (* 404 *)
  | Failure (error : string).     (* 500 *)

Definition status (r : response) : Z :=
  match r with
  | Success | Url _ => 200
  | NotFound _ => 404
  | Failure _ => 500
  end.

(** [app.delete('/api/runs/:runId', ...)] *)
Definition deleteRun (h : Host) (runId : string) : M response :=
  try_catch
    (await (RunManager.killRun h runId);;
     modify (with_registry (GatewayRegistry.unregister runId));;
     mret Success)
    (λ error, mret (Failure error)).

(** [app.get('/gateway/resolve/:runId', ...)] *)
Definition resolveRun (runId : string) (w : World) : response :=
  match GatewayRegistry.resolve runId (registry w) with
  | Some url => Url url
  | None => NotFound "Run not found"
  end.

Inductive logsResponse :=
  | Logs (logs : string)              (* 200 { logs } *)
  | LogsNotFound (error : string).    (* 404 *)

(** [app.get('/api/runs/:runId/logs', ...)] *)
Definition getLogs (logs : string → string + string) (runId : string)
    : M logsResponse :=
  try_catch
    (output ← await (RunManager.getLogs logs runId); mret (Logs output))
    (λ error, mret (LogsNotFound error)).

Record Stats := mkStats {
  activeContainers : nat;
  registeredRuns : nat
}.

(** [app.get('/stats', ...)] *)
Definition stats (w : World) : Stats :=
  mkStats (length (DockerRuntime.getActiveContainers w))
          (GatewayRegistry.size (registry w)).

(** The loop of the [SIGTERM] handler over the identifiers it was given. *)
Fixpoint killAll (h : Host) (runIds : list string) : M unit :=
  match runIds with
  | [] => mret tt
  | runId :: rest =>
      try_catch (await (RunManager.killRun h runId)) (λ _, mret tt);;
      killAll h rest
  end.

(** [process.on('SIGTERM', ...)], up to the exit of the process. *)
Definition shutdown (h : Host) : M unit :=
  w ← get;
  killAll h (DockerRuntime.getActiveContainers w).

End Server.

(** ** Vocabulary for the lifecycle's properties *)

(** The state after one PATCH request of the run manager. *)
Definition patched (h : Host) (runId : string) (u : RunUpdate) (w : World) : World :=
  final (RunManager.updateRun h runId u w).

(** The i-th probe satisfies the health check: the response arrives before
    the 5000 ms timeout and its status is 2xx. Anything else is a miss. *)
Definition satisfied (h : Host) (url : string) (i : nat) : bool :=
  bool_decide (latency (probe h url i) < 5000)
  && match answer (probe h url i) with
     | Some status => bool_decide (200 ≤ status ≤ 299)
     | None => false
     end.

(** The index of the first satisfying probe among [i, i + left). *)
Fixpoint firstHit (h : Host) (url : string) (i left : nat) : option nat :=
  match left with
  | O => None
  | S left' => if satisfied h url i then Some i else firstHit h url (S i) left'
  end.

(** The time one attempt takes: the probe's latency, cut at the timeout. *)
Definition attemptTime (h : Host) (url : string) (i : nat) : Z :=
  Z.min (latency (probe h url i)) 5000.

(** The time the probing loop takes from attempt [i] with [left] attempts to
    go: every miss is followed by a pause of 2000 ms. *)
Fixpoint waited (h : Host) (url : string) (i left : nat) : Z :=
  match left with
  | O => 0
  | S left' =>
      attemptTime h url i
      + (if satisfied h url i then 0 else 2000 + waited h url (S i) left')
  end.

(** The run's record in the main application's store. *)
Definition record (runId : string) (w : World) : option Run :=
  Store.runs (store w) !! runId.

(** [w'] differs from [w] at most in what the runtime owns: the files, the
    engine's containers and the runtime's own map. *)
Definition runtime_step (w w' : World) : Prop :=
  store w' = store w ∧ sent w' = sent w ∧ clock w' = clock w
  ∧ registry w' = registry w.

(** [w'] differs from [w] at most in the engine's containers. *)
Definition engine_step (w w' : World) : Prop :=
  runtime_step w w' ∧ fs w' = fs w ∧ containers w' = containers w.

(** The update the [catch] block of [processRun] publishes. *)
Definition failedUpdate (error : string) (now : Z) : RunUpdate :=
  mkUpdate (Some failed) None None (Some error) (Some (stack error)) None (Some now).

(** A run that the store shows as [ready] is resolved by the gateway. *)
Definition readyResolves (runId : string) (w : World) : Prop :=
  run_status <$> record runId w = Some ready →
  ∃ url, Server.resolveRun runId w = Server.Url url.

(** A run's workspace exists only while the runtime tracks a container for
    the run. *)
Definition workspaceTracked (h : Host) (runId : string) (w : World) : Prop :=
  containers w !! runId = None →
  FS.gone (DockerRuntime.workspaceDir h runId) (fs w).

(** [m] upholds [I]: started where [I] holds, it shows and leaves only
    states where [I] holds, and what it returns satisfies [Q]. *)
Definition upholds (I : World → Prop) {A} (m : M A) (Q : A → Prop) : Prop :=
  ∀ w, I w →
    I (final (m w)) ∧ Forall I (seen (m w))
    ∧ ∀ a, outcome (m w) = inr a → Q a.

(** The paths through the [try] block of [processRun], each with the way it
    ends and the state it ends in. *)
Section Course.
Variables (h : Host) (run : Run) (prompt : string) (w : World).

Definition announced : World :=
  patched h (run_id run)
    (mkUpdate (Some generating) None None None None (Some (clock w)) None) w.

Definition installingAt : World :=
  patched h (run_id run) (RunManager.statusUpdate installing) announced.

Definition built (code : LLMClient.GeneratedCode) : result DockerContainer :=
  DockerRuntime.createRun h (run_id run) code installingAt.

Definition startingAt (code : LLMClient.GeneratedCode) (c : DockerContainer) : World :=
  patched h (run_id run)
    (mkUpdate (Some starting) (Some (dc_id c)) (Some (dc_internalUrl c))
       None None None None)
    (final (built code)).

Definition probed (code : LLMClient.GeneratedCode) (c : DockerContainer) : World :=
  final (RunManager.waitForHealthyUrl h (dc_internalUrl c) 30 (startingAt code c)).

Definition registeredAt (code : LLMClient.GeneratedCode) (c : DockerContainer) : World :=
  with_registry (GatewayRegistry.registerUrl (run_id run) (dc_internalUrl c))
    (patched h (run_id run) (RunManager.statusUpdate healthy) (probed code c)).

Definition readyAt (code : LLMClient.GeneratedCode) (c : DockerContainer) : World :=
  patched h (run_id run)
    (mkUpdate (Some ready) None None None None None
       (Some (clock (registeredAt code c))))
    (registeredAt code c).

Inductive course : string + unit → World → Prop :=
  | generation_fails (e : string) :
      generate h prompt (run_provider run) (run_model run) = inl e →
      course (inl e) announced
  | validation_fails (code : LLMClient.GeneratedCode) (e : string) :
      generate h prompt (run_provider run) (run_model run) = inr code →
      LLMClient.validateCode code = inl e →
      course (inl e) announced
  | creation_fails (code : LLMClient.GeneratedCode) (e : string) :
      generate h prompt (run_provider run) (run_model run) = inr code →
      LLMClient.validateCode code = inr tt →
      outcome (built code) = inl e →
      course (inl e) (final (built code))
  | probing_fails (code : LLMClient.GeneratedCode) (c : DockerContainer) :
      generate h prompt (run_provider run) (run_model run) = inr code →
      LLMClient.validateCode code = inr tt →
      outcome (built code) = inr c →
      firstHit h (dc_internalUrl c) 0 30 = None →
      course (inl "Server failed health check after 30 attempts") (probed code c)
  | becomes_ready (code : LLMClient.GeneratedCode) (c : DockerContainer) :
      generate h prompt (run_provider run) (run_model run) = inr code →
      LLMClient.validateCode code = inr tt →
      outcome (built code) = inr c →
      is_Some (firstHit h (dc_internalUrl c) 0 30) →
      course (inr tt) (readyAt code c).

End Course.

(** The place of a status in the declaration of [RunStatus]. *)
Definition phase (s : RunStatus) : nat :=
  match s with
  | queued => 0 | generating => 1 | installing => 2 | building => 3
  | starting => 4 | healthy => 5 | capturing => 6 | ready => 7
  | failed => 8 | terminated => 9
  end.

(** The phase the store shows for a run; an unknown run has none. *)
Definition phaseAt (runId : string) (w : World) : nat :=
  from_option (λ r, phase (run_status r)) 0%nat (record runId w).

(** [x], the elements of [l] and [y], read in this order, never decrease. *)
Fixpoint climbing (x : nat) (l : list nat) (y : nat) : Prop :=
  match l with
  | [] => (x ≤ y)%nat
  | a :: l' => (x ≤ a)%nat ∧ climbing a l' y
  end.

(** [m], started with the run at phase [lo] or below, shows phases that
    never decrease and ends at phase [hi] or below, whether it returns or
    throws. *)
Definition climbs (runId : string) (lo hi : nat) {A} (m : M A) : Prop :=
  ∀ w, (phaseAt runId w ≤ lo)%nat →
    climbing (phaseAt runId w) (map (phaseAt runId) (seen (m w)))
             (phaseAt runId (final (m w)))
    ∧ (phaseAt runId (final (m w)) ≤ hi)%nat.

(** [w'] agrees with [w] on everything kept for the run [other]: its record
    in the store, its entry in the registry and its tracked container. *)
Definition sameFor (other : string) (w w' : World) : Prop :=
  record other w' = record other w
  ∧ registry w' !! other = registry w !! other
  ∧ containers w' !! other = containers w !! other.

(** [w'] has at most lost containers and files with respect to [w]: the
    registry is the same, and what the engine and the files did not hold
    they still do not hold. *)
Definition cleared (w w' : World) : Prop :=
  registry w' = registry w
  ∧ (∀ n, engine w !! n = None → engine w' !! n = None)
  ∧ (∀ dir, FS.gone dir (fs w) → FS.gone dir (fs w')).

(** ** A sample deployment

    The literal inputs of the happy-path scenario: one session with the
    prompt "build a landing page" and the single model [openai]/[gpt-4o],
    a host on which everything works and the server answers the third
    probe. *)

Module Sample.

Definition nanoid (n : nat) : string := "id" +:+ pretty n.

Definition prompt : string := "build a landing page".

Definition page : string := "export default function Page() { return null }".

Definition host : Host :=
  {| workspaceBase := "/tmp/llm-arena-workspaces";
     template := [("package.json", "{}")];
     generate := λ _ _ _, inr [("app/page.tsx", page)];
     shell := None;
     refuse := λ _, None;
     buildStatus := 0;
     buildLogs := EmptyString;
     containerId := "4f2a";
     ipAddress := Some "172.18.0.2";
     boundPort := Some (Docker.Num 32768);
     probe := λ _ i, if decide (i < 2)%nat then mkProbe 3 None
                     else mkProbe 40 (Some 200);
     delivered := λ _, true;
     removeFails := None |}.

(** The same host with the code generator failing. *)
Definition hostWithoutLLM : Host :=
  mkHost (workspaceBase host) (template host) (λ _ _ _, inl "LLM unavailable")
         None (refuse host) 0 EmptyString "4f2a" (ipAddress host) (boundPort host)
         (probe host) (delivered host) None.

(** The same host with a code generator that returns a manifest only. *)
Definition hostManifestOnly : Host :=
  mkHost (workspaceBase host) (template host)
         (λ _ _ _, inr [("package.json", "{}")])
         None (refuse host) 0 EmptyString "4f2a" (ipAddress host) (boundPort host)
         (probe host) (delivered host) None.

(** The same host with a server that never answers and an engine that fails
    to remove containers. *)
Definition hostStuck : Host :=
  mkHost (workspaceBase host) (template host) (generate host)
         None (refuse host) 0 EmptyString "4f2a" (ipAddress host) (boundPort host)
         (λ _ _, mkProbe 9000 None) (delivered host) (Some "engine error").

(** The same host with an engine that reports no host port for the runtime
    container. *)
Definition hostWithoutPort : Host :=
  mkHost (workspaceBase host) (template host) (generate host)
         None (refuse host) 0 EmptyString "4f2a" (ipAddress host) None
         (probe host) (delivered host) None.

(** The store after the main application created the session. *)
Definition submitted : Session * list Run * Store.t :=
  Store.createSession nanoid prompt 0 [(openai, "gpt-4o")] Store.empty.

Definition run : Run :=
  mkRun "id1" "id0" "gpt-4o" openai queued None None None None 0 0 None None.

Definition world : World := with_store (λ _, submitted.2) initial.

(** The state once the run has been processed on the working host. *)
Definition served : World := final (RunManager.processRun host run prompt world).

(** The state once the served run has been started a second time, with the
    code generator down. *)
Definition restarted : World :=
  final (RunManager.processRun hostWithoutLLM run prompt served).

(** The state once the run has been processed on the stuck host. *)
Definition stuck : World :=
  final (RunManager.processRun hostStuck run prompt world).

Definition status (runId : string) (w : World) : option RunStatus :=
  run_status <$> Store.runs (store w) !! runId.

End Sample.

(** The operations are kept folded by [simpl]; each is opened where its
    own facts are proved. *)
Global Arguments DockerRuntime.createContainer : simpl never.
Global Arguments DockerRuntime.prepareWorkspace : simpl never.
Global Arguments DockerRuntime.buildPhase : simpl never.
Global Arguments DockerRuntime.runPhase : simpl never.
Global Arguments DockerRuntime.createRun : simpl never.
Global Arguments DockerRuntime.killRun : simpl never.
Global Arguments RunManager.updateRun : simpl never.
Global Arguments RunManager.updateRunStatus : simpl never.
Global Arguments RunManager.fetch : simpl never.
Global Arguments RunManager.waitLoop : simpl never.
Global Arguments RunManager.waitForHealthyUrl : simpl never.
Global Arguments RunManager.attempt : simpl never.
Global Arguments RunManager.recover : simpl never.
Global Arguments RunManager.processRun : simpl never.
Global Arguments RunManager.killRun : simpl never.
Global Arguments Server.deleteRun : simpl never.

Global Arguments DockerRuntime.getLogs : simpl never.
Global Arguments RunManager.getLogs : simpl never.
Global Arguments Server.getLogs : simpl never.
Global Arguments Server.killAll : simpl never.
Global Arguments Server.shutdown : simpl never.

(** * Properties *)

Section GatewayRegistryFacts.
Import GatewayRegistry.

Lemma truthy_true_iff (s : string) : truthy s = true ↔ s ≠ EmptyString.
Proof. destruct s; simpl; split; congruence. Qed.

Lemma resolve_registerUrl (runId url : string) (reg : gmap string string) :
  resolve runId (registerUrl runId url reg) =
    if truthy url then Some url else None.
Proof. unfold resolve, registerUrl. by rewrite lookup_insert_eq. Qed.

Lemma resolve_unregister (runId : string) (reg : gmap string string) :
  resolve runId (unregister runId reg) = None.
Proof. unfold resolve, unregister. by rewrite lookup_delete_eq. Qed.

Lemma resolve_Some (runId url : string) (reg : gmap string string) :
  resolve runId reg = Some url ↔ reg !! runId = Some url ∧ url ≠ EmptyString.
Proof.
  unfold resolve. destruct (reg !! runId) as [u|] eqn:E.
  - destruct (truthy u) eqn:T.
    + apply truthy_true_iff in T. split.
      * intros [= ->]. done.
      * intros [[= ->] _]. done.
    + split; [done|]. intros [[= ->] Hne].
      apply truthy_true_iff in Hne. congruence.
  - split; [done | intros [? _]; done].
Qed.

End GatewayRegistryFacts.

(** C10. Registering a run with the empty string as URL makes [resolve]
    answer none for it, the same answer as for an identifier that was never
    registered; [registerUrl id u] followed by [resolve id] gives back [u]
    exactly when [u] is not empty. *)
Theorem C10_resolve_empty_url (runId u : string) (reg : gmap string string) :
  GatewayRegistry.resolve runId (GatewayRegistry.registerUrl runId EmptyString reg) = None
  ∧ GatewayRegistry.resolve runId (GatewayRegistry.registerUrl runId EmptyString reg)
    = GatewayRegistry.resolve runId GatewayRegistry.empty
  ∧ (GatewayRegistry.resolve runId (GatewayRegistry.registerUrl runId u reg) = Some u
     ↔ u ≠ EmptyString).
Proof.
  repeat split.
  - by rewrite resolve_registerUrl.
  - by rewrite resolve_registerUrl.
  - rewrite resolve_registerUrl. destruct u; simpl; congruence.
  - intros Hne. rewrite resolve_registerUrl.
    destruct u; simpl; congruence.
Qed.

Lemma C10_resolve_empty_url_witness :
  GatewayRegistry.resolve "run-1"
    (GatewayRegistry.registerUrl "run-1" "http://localhost:32768" ∅)
  = Some "http://localhost:32768".
Proof.
  apply (C10_resolve_empty_url "run-1" "http://localhost:32768" ∅).
  discriminate.
Defined.

Section PortAllocatorFacts.
Import PortAllocator.

Lemma scan_Some (used : gset Z) (n : nat) :
  ∀ (port q : Z), scan used port n = Some q →
    (port ≤ q < port + Z.of_nat n) ∧ (q ∉ used)
    ∧ ∀ r, port ≤ r < q → r ∈ used.
Proof.
  induction n as [|n IH]; intros port q; simpl; [done|].
  destruct (decide (port ∈ used)) as [Hin|Hout].
  - intros Hs. destruct (IH _ _ Hs) as (Hr & Hq & Hbelow).
    split; [lia|]. split; [done|].
    intros r Hrange. destruct (decide (r = port)) as [->|Hne]; [done|].
    apply Hbelow. lia.
  - intros [= <-]. split; [lia|]. split; [done|]. intros r ?. lia.
Qed.

Lemma scan_None (used : gset Z) (n : nat) :
  ∀ (port : Z), scan used port n = None ↔
    ∀ r, port ≤ r < port + Z.of_nat n → r ∈ used.
Proof.
  induction n as [|n IH]; intros port; simpl.
  - split; [intros _ r ?; lia | done].
  - destruct (decide (port ∈ used)) as [Hin|Hout].
    + rewrite IH. split.
      * intros H r Hr. destruct (decide (r = port)) as [->|Hne]; [done|].
        apply H. lia.
      * intros H r Hr. apply H. lia.
    + split; [done|]. intros H. exfalso. apply Hout, H. lia.
Qed.

Lemma span_range (a : t) (r : Z) :
  minPort a ≤ r < minPort a + Z.of_nat (span a) ↔ minPort a ≤ r ≤ maxPort a.
Proof. unfold span. lia. Qed.

Lemma release_fresh (a : t) (port : Z) :
  port ∉ usedPorts a →
  release port {| minPort := minPort a; maxPort := maxPort a;
                  usedPorts := {[port]} ∪ usedPorts a |} = a.
Proof.
  intros Hfresh. destruct a as [lo hi used]; unfold release; simpl in *.
  f_equal. set_solver.
Qed.

End PortAllocatorFacts.

(** C7. [allocate] returns the lowest port of the range [[min, max]] that is
    not allocated and marks it allocated; it fails (no available ports)
    exactly when every port of the range is allocated; [release] is
    idempotent; allocating a port and releasing it gives back the allocator
    one started from. *)
Theorem C7_port_allocator (a : PortAllocator.t) :
  (∀ p a', PortAllocator.allocate a = inr (p, a') →
      (PortAllocator.minPort a ≤ p ≤ PortAllocator.maxPort a)
      ∧ (p ∉ PortAllocator.usedPorts a)
      ∧ (∀ q, PortAllocator.minPort a ≤ q < p → q ∈ PortAllocator.usedPorts a)
      ∧ PortAllocator.usedPorts a' = {[p]} ∪ PortAllocator.usedPorts a
      ∧ PortAllocator.minPort a' = PortAllocator.minPort a
      ∧ PortAllocator.maxPort a' = PortAllocator.maxPort a
      ∧ PortAllocator.release p a' = a)
  ∧ (PortAllocator.allocate a = inl PortAllocator.NoAvailablePorts ↔
       ∀ q, PortAllocator.minPort a ≤ q ≤ PortAllocator.maxPort a →
            q ∈ PortAllocator.usedPorts a)
  ∧ ((∃ q, (PortAllocator.minPort a ≤ q ≤ PortAllocator.maxPort a)
           ∧ q ∉ PortAllocator.usedPorts a) →
       ∃ p a', PortAllocator.allocate a = inr (p, a'))
  ∧ (∀ p, PortAllocator.release p (PortAllocator.release p a)
          = PortAllocator.release p a).
Proof.
  assert (Hfail : PortAllocator.allocate a = inl PortAllocator.NoAvailablePorts ↔
       ∀ q, PortAllocator.minPort a ≤ q ≤ PortAllocator.maxPort a →
            q ∈ PortAllocator.usedPorts a).
  { unfold PortAllocator.allocate.
    destruct (PortAllocator.scan _ _ _) as [p|] eqn:Hscan.
    - split; [done|]. intros Hall.
      apply scan_Some in Hscan as (Hr & Hfree & _).
      exfalso. apply Hfree, Hall. by apply span_range.
    - split; [|done]. intros _ q Hq.
      eapply scan_None; [exact Hscan|]. by apply span_range. }
  split; [|split; [exact Hfail|split]].
  - intros p a'. unfold PortAllocator.allocate.
    destruct (PortAllocator.scan _ _ _) as [p0|] eqn:Hscan; [|done].
    intros [= <- <-]. apply scan_Some in Hscan as (Hr & Hfree & Hbelow).
    apply span_range in Hr. simpl.
    repeat split; try done; try lia. by apply release_fresh.
  - intros (q & Hq & Hfree).
    destruct (PortAllocator.allocate a) as [[]|[p a']] eqn:Halloc; [|by eauto].
    exfalso. apply Hfree. by apply Hfail.
  - intros p. unfold PortAllocator.release; simpl. f_equal. set_solver.
Qed.

Lemma C7_port_allocator_witness :
  let a := PortAllocator.mk 3001 3003 {[3001; 3002]} in
  PortAllocator.allocate a
    = inr (3003, PortAllocator.mk 3001 3003 ({[3003]} ∪ {[3001; 3002]}))
  ∧ PortAllocator.release 3003
      (PortAllocator.mk 3001 3003 ({[3003]} ∪ {[3001; 3002]})) = a.
Proof.
  assert (H : PortAllocator.allocate (PortAllocator.mk 3001 3003 {[3001; 3002]})
    = inr (3003, PortAllocator.mk 3001 3003 ({[3003]} ∪ {[3001; 3002]})))
    by reflexivity.
  split; [exact H|].
  apply (C7_port_allocator (PortAllocator.mk 3001 3003 {[3001; 3002]})), H.
Defined.

Section SessionFacts.
Import Sessions.

Lemma provider_of_string_names (s : string) :
  is_Some (provider_of_string s) ↔ s ∈ provider_names.
Proof.
  unfold provider_of_string, providers, provider_names. simpl. split.
  - intros Hsome.
    repeat (case_bool_decide as Heq;
            [rewrite <- Heq; set_solver | clear Heq]).
    simpl in Hsome. by destruct Hsome.
  - intros Hin. repeat (case_bool_decide; [by eexists|]).
    exfalso. set_solver.
Qed.

Lemma parse_prompt_spec (v : option json) :
  match parse_prompt v with
  | ([], o) => ∃ s, v = Some (JStr s) ∧ (10 ≤ String.length s)%nat ∧ o = Some s
  | (_ :: _, _) =>
      ¬ ∃ s, v = Some (JStr s) ∧ (10 ≤ String.length s)%nat
  end.
Proof.
  unfold parse_prompt. destruct v as [[]|]; simpl;
    try (intros (s0 & [=] & _); fail).
  destruct (Nat.ltb_spec (String.length s) 10).
  - intros (s0 & [= <-] & Hlen). lia.
  - exists s. repeat split; [lia].
Qed.

Lemma parse_provider_spec (p : list segment) (v : option json) :
  match parse_provider p v with
  | ([], o) => (∃ s, v = Some (JStr s) ∧ s ∈ provider_names) ∧ is_Some o
  | (_ :: _, _) => ¬ ∃ s, v = Some (JStr s) ∧ s ∈ provider_names
  end.
Proof.
  unfold parse_provider. destruct v as [[]|]; simpl;
    try (intros (s0 & [=] & _); fail).
  destruct (provider_of_string s) as [pr|] eqn:E.
  - split; [|by eexists]. exists s. split; [done|].
    apply provider_of_string_names. rewrite E. by eexists.
  - intros (s0 & [= <-] & Hin). apply provider_of_string_names in Hin.
    rewrite E in Hin. by destruct Hin.
Qed.

Lemma parse_model_spec (p : list segment) (v : option json) :
  match parse_model p v with
  | ([], o) => (∃ s, v = Some (JStr s)) ∧ is_Some o
  | (_ :: _, _) => ¬ ∃ s, v = Some (JStr s)
  end.
Proof.
  unfold parse_model. destruct v as [[]|]; simpl;
    try (intros (s0 & [=]); fail).
  split; by eexists.
Qed.

Lemma parse_entry_spec (i : nat) (v : json) :
  match parse_entry i v with
  | ([], o) => is_pair v ∧ is_Some o
  | (_ :: _, _) => ¬ is_pair v
  end.
Proof.
  unfold parse_entry, is_pair. destruct v; simpl;
    try (intros (? & ? & ? & [=] & _); fail).
  pose proof (parse_provider_spec
    ([Key "models"; Index i] ++ [Key "provider"]) (obj_get "provider" members)) as Hp.
  pose proof (parse_model_spec
    ([Key "models"; Index i] ++ [Key "model"]) (obj_get "model" members)) as Hm.
  destruct (parse_provider _ _) as [i1 pr].
  destruct (parse_model _ _) as [i2 m].
  destruct i1 as [|e1 i1]; simpl.
  - destruct Hp as [(s & Hs & Hin) [pr' ->]].
    destruct i2 as [|e2 i2].
    + destruct Hm as [(s' & Hs') [m' ->]]. split; [|by eexists].
      by exists members, s, s'.
    + intros (ms & p0 & m0 & [= <-] & _ & _ & Hmodel). apply Hm. by eexists.
  - intros (ms & p0 & m0 & [= <-] & Hprov & Hin & _). apply Hp. by eexists.
Qed.

Lemma parse_entries_spec (items : list json) :
  ∀ i, match parse_entries i items with
       | ([], o) => Forall is_pair items
                    ∧ ∃ es, o = Some es ∧ length es = length items
       | (_ :: _, _) => ¬ Forall is_pair items
       end.
Proof.
  induction items as [|v items IH]; intros i; simpl.
  - split; [constructor | by exists []].
  - pose proof (parse_entry_spec i v) as Hv. specialize (IH (S i)).
    destruct (parse_entry i v) as [i1 e].
    destruct (parse_entries (S i) items) as [i2 es].
    destruct i1 as [|e1 i1]; simpl.
    + destruct Hv as [Hv [e' ->]]. destruct i2 as [|e2 i2].
      * destruct IH as [IH (es' & -> & Hlen)]. split; [by constructor|].
        exists (e' :: es'). simpl. by rewrite Hlen.
      * intros Hall. apply IH. by inversion Hall.
    + intros Hall. apply Hv. by inversion Hall.
Qed.

Lemma parse_models_spec (v : option json) :
  match parse_models v with
  | ([], o) => ∃ items es, v = Some (JArr items) ∧ (1 ≤ length items ≤ 6)%nat
                 ∧ Forall is_pair items ∧ o = Some es
                 ∧ length es = length items
  | (_ :: _, _) => ¬ ∃ items, v = Some (JArr items)
                     ∧ (1 ≤ length items ≤ 6)%nat ∧ Forall is_pair items
  end.
Proof.
  unfold parse_models. destruct v as [[]|]; simpl;
    try (intros (? & [=] & _); fail).
  pose proof (parse_entries_spec items 0%nat) as He.
  destruct (parse_entries 0 items) as [errs es].
  destruct (Nat.ltb_spec (length items) 1); simpl.
  - intros (items' & [= <-] & Hlen & _). lia.
  - destruct (Nat.ltb_spec 6 (length items)); simpl.
    + intros (items' & [= <-] & Hlen & _). lia.
    + destruct errs as [|e errs].
      * destruct He as [Hall (es' & -> & Hlen)].
        exists items, es'. repeat split; try done; lia.
      * intros (items' & [= <-] & _ & Hall). by apply He.
Qed.

(** [safeParse] succeeds on exactly the bodies within the bounds, and a
    failure always carries a first issue. *)
Lemma safeParse_spec (body : json) :
  match safeParse body with
  | inr req => within_bounds body
  | inl issues => ¬ within_bounds body ∧ issues ≠ []
  end.
Proof.
  unfold safeParse, within_bounds. destruct body; simpl;
    try (split; [intros (? & ? & ? & [=] & _) | done]; fail).
  pose proof (parse_prompt_spec (obj_get "prompt" members)) as Hp.
  pose proof (parse_models_spec (obj_get "models" members)) as Hm.
  destruct (parse_prompt _) as [i1 p]. destruct (parse_models _) as [i2 ms].
  destruct i1 as [|e1 i1]; simpl.
  - destruct Hp as (s & Hs & Hlen & ->). destruct i2 as [|e2 i2].
    + destruct Hm as (items & es & Hitems & Hn & Hall & -> & _).
      by exists members, s, items.
    + split; [|done].
      intros (ms' & p' & items & [= <-] & _ & _ & Hitems & Hn & Hall).
      apply Hm. by exists items.
  - split; [|done].
    intros (ms' & p' & items & [= <-] & Hprompt & Hlen & _).
    apply Hp. by exists p'.
Qed.

End SessionFacts.

(** C9. Session creation accepts exactly the bodies with one to six
    provider/model pairs, every provider among the six recognised names, and
    a prompt of at least ten characters: such a body is answered 200 with the
    new session, any other body is answered 400 and the store is left as it
    was (no session, no run). *)
Theorem C9_session_validation (nanoid : nat → string) (body : Sessions.json)
    (now : Z) (st : Store.t) :
  (Sessions.within_bounds body ↔
     Sessions.status (Sessions.POST nanoid (Some body) now st).1 = 200)
  ∧ (Sessions.within_bounds body →
       ∃ sessionId runIds st',
         Sessions.POST nanoid (Some body) now st
           = (Sessions.Created sessionId runIds, st'))
  ∧ (¬ Sessions.within_bounds body →
       ∃ msg, Sessions.POST nanoid (Some body) now st
                = (Sessions.BadRequest (Some msg), st)).
Proof.
  unfold Sessions.POST. pose proof (safeParse_spec body) as Hparse.
  destruct (Sessions.safeParse body) as [issues|req].
  - destruct Hparse as [Hout Hne]. simpl. split; [|split].
    + split; [done | discriminate].
    + done.
    + intros _. destruct issues as [|e issues]; [done|]. by eexists.
  - destruct (Store.createSession _ _ _ _ _) as [[session rs] st'].
    simpl. split; [|split]; [done | by eauto | done].
Qed.

Lemma C9_session_validation_witness :
  ∃ sessionId runIds st',
    Sessions.POST (λ n, "id" +:+ pretty n)
      (Some (Sessions.JObj
         [("prompt", Sessions.JStr "build a landing page");
          ("models", Sessions.JArr
             [Sessions.JObj [("provider", Sessions.JStr "openai");
                             ("model", Sessions.JStr "gpt-4o")]])]))
      0 Store.empty
    = (Sessions.Created sessionId runIds, st').
Proof.
  apply (C9_session_validation (λ n, "id" +:+ pretty n)).
  eexists _, "build a landing page", _.
  split; [reflexivity|]. split; [reflexivity|]. split; [simpl; lia|].
  split; [reflexivity|]. split; [simpl; lia|].
  constructor; [|constructor].
  eexists _, "openai", "gpt-4o".
  split; [reflexivity|]. split; [reflexivity|]. split; [|reflexivity].
  apply list_elem_of_here.
Defined.

(** ** Running monadic code *)

Ltac munfold :=
  unfold mbind, M_bind, mret, M_ret, throw, try_catch, get, modify, await in *;
  cbv zeta in *.

(** Reduction of the projections of results and states, and of nothing
    else. *)
Ltac wsimpl :=
  cbn [outcome final seen store sent clock fs engine created containers
       registry with_store with_sent with_clock with_fs with_engine
       with_created with_containers with_registry app fst snd
       container ip hostPort].

Ltac wsimpl_all :=
  cbn [outcome final seen store sent clock fs engine created containers
       registry with_store with_sent with_clock with_fs with_engine
       with_created with_containers with_registry app fst snd
       container ip hostPort] in *.

(** The big-step reading of the monad: [m w = mkResult o w' tr] says that
    [m], started in [w], ends with [o] in [w'] having shown [tr]. *)
Section Running.
Context {A B : Type}.

(** Sequencing, read off the results of the parts. *)
Lemma bind_ok (m : M A) (f : A → M B) (w w1 w2 : World) (a : A)
    (o : string + B) (tr1 tr2 : list World) :
  m w = mkResult (inr a) w1 tr1 → f a w1 = mkResult o w2 tr2 →
  (m ≫= f) w = mkResult o w2 (tr1 ++ tr2).
Proof. intros H1 H2. munfold. rewrite H1. wsimpl. by rewrite H2. Qed.

Lemma bind_err (m : M A) (f : A → M B) (w w1 : World) (e : string)
    (tr1 : list World) :
  m w = mkResult (inl e) w1 tr1 → (m ≫= f) w = mkResult (inl e) w1 tr1.
Proof. intros H1. munfold. by rewrite H1. Qed.

Lemma catch_ok (m : M A) (k : string → M A) (w w1 : World) (a : A)
    (tr1 : list World) :
  m w = mkResult (inr a) w1 tr1 → try_catch m k w = mkResult (inr a) w1 tr1.
Proof. intros H1. munfold. by rewrite H1. Qed.

Lemma catch_err (m : M A) (k : string → M A) (w w1 w2 : World) (e : string)
    (o : string + A) (tr1 tr2 : list World) :
  m w = mkResult (inl e) w1 tr1 → k e w1 = mkResult o w2 tr2 →
  try_catch m k w = mkResult o w2 (tr1 ++ tr2).
Proof. intros H1 H2. munfold. rewrite H1. wsimpl. by rewrite H2. Qed.

Lemma await_run (m : M A) (w w1 : World) (o : string + A) (tr : list World) :
  m w = mkResult o w1 tr → await m w = mkResult o w1 (w :: tr ++ [w1]).
Proof. intros H1. munfold. by rewrite H1. Qed.

End Running.

(** ** Generated code *)

Section ValidateFacts.
Import LLMClient.

Lemma prefix_app (a b s : string) :
  String.prefix (a +:+ b) s = true → String.prefix a s = true.
Proof.
  revert s. induction a as [|c a IH]; intros s; [by destruct s|].
  destruct s as [|c' s]; [done|].
  change (String c a +:+ b) with (String c (a +:+ b)). cbn [String.prefix].
  destruct (Ascii.ascii_dec c c'); [apply IH | done].
Qed.

Lemma includes_app (a b s : string) :
  includes (a +:+ b) s = true → includes a s = true.
Proof.
  induction s as [|c s IH].
  - cbn [includes]. rewrite !orb_false_r. apply prefix_app.
  - cbn [includes]. rewrite !orb_true_iff. intros [H|H].
    + left. by eapply prefix_app.
    + right. by apply IH.
Qed.

Lemma validateCode_ok (code : GeneratedCode) :
  validateCode code = inr tt ↔
  ∃ page, get "app/page.tsx" code = Some page ∧ page ≠ EmptyString
          ∧ includes "export default" page = true.
Proof.
  unfold validateCode. destruct (get "app/page.tsx" code) as [[|c page]|].
  - split; [done|]. by intros (page & [= <-] & Hne & _).
  - destruct (includes "export default" (String c page)) eqn:Hinc.
    + split; [|done]. intros _. by exists (String c page).
    + assert (includes "export default function" (String c page) = false) as ->.
      { destruct (includes "export default function" _) eqn:Hf; [|done].
        apply (includes_app "export default" " function") in Hf. congruence. }
      split; [done|]. intros (page' & [= <-] & _ & Ht). congruence.
  - split; [done|]. by intros (page & [=] & _).
Qed.

End ValidateFacts.

(** ** The runtime's effects *)

Section RuntimeFacts.
Import DockerRuntime.

Lemma runtime_step_refl (w : World) : runtime_step w w.
Proof. by repeat split. Qed.

Lemma runtime_step_trans (w1 w2 w3 : World) :
  runtime_step w1 w2 → runtime_step w2 w3 → runtime_step w1 w3.
Proof.
  intros (? & ? & ? & ?) (? & ? & ? & ?). repeat split; congruence.
Qed.

Lemma engine_step_refl (w : World) : engine_step w w.
Proof. by repeat split. Qed.

Lemma rm_rf_gone (dir : string) (fs : FS.t) : FS.gone dir (FS.rm_rf dir fs).
Proof.
  split; simpl.
  - rewrite elem_of_filter. intros [Hw _]. unfold FS.within in Hw.
    rewrite bool_decide_eq_true_2 in Hw; done.
  - intros p Hp. apply map_lookup_filter_None. right. intros c _. simpl.
    by rewrite Hp.
Qed.

(** [createContainer] either is refused and changes nothing, or adds the
    container to the engine and to the record of created containers. *)
Lemma createContainer_run (h : Host) (cfg : Docker.ContainerConfig) (w : World) :
  (∃ e, createContainer h cfg w = mkResult (inl e) w [])
  ∨ createContainer h cfg w
    = mkResult (inr (Docker.name cfg))
        (with_created (λ l, l ++ [cfg])
           (with_engine <[Docker.name cfg := Docker.mkContainer cfg false]> w)) [].
Proof.
  unfold createContainer. munfold. wsimpl.
  destruct (refuse h (Docker.name cfg)); wsimpl; [by eauto|].
  destruct (engine w !! Docker.name cfg); wsimpl; [by eauto | by right].
Qed.

(** [buildPhase] touches the engine alone and creates at most the build
    container. *)
Lemma buildPhase_run (h : Host) (runId dir : string) (w : World) :
  ∃ o w', buildPhase h runId dir w = mkResult o w' []
    ∧ engine_step w w'
    ∧ (created w' = created w ∨ created w' = created w ++ [buildConfig runId dir]).
Proof.
  unfold buildPhase.
  destruct (createContainer_run h (buildConfig runId dir) w) as [[e Hc]|Hc].
  - eexists _, _. split; [by eapply bind_err|].
    split; [apply engine_step_refl | by left].
  - destruct (decide (buildStatus h ≠ 0)) as [Hbad|Hgood].
    + eexists _, _. split.
      * eapply (bind_ok _ _ _ _ _ _ _ [] []); [exact Hc|].
        unfold start, halt, remove. munfold. wsimpl.
        reflexivity.
      * split; [by repeat split | by right].
    + eexists _, _. split.
      * eapply (bind_ok _ _ _ _ _ _ _ [] []); [exact Hc|].
        unfold start, halt, remove. munfold. wsimpl.
        reflexivity.
      * split; [by repeat split | by right].
Qed.

(** [runPhase] touches the engine alone and creates at most the runtime
    container; the entry it returns has a usable host port. *)
Lemma runPhase_run (h : Host) (runId dir : string) (w : World) :
  ∃ o w', runPhase h runId dir w = mkResult o w' []
    ∧ engine_step w w'
    ∧ (created w' = created w ∨ created w' = created w ++ [runConfig runId dir])
    ∧ match o with
      | inr entry => Docker.falsy (hostPort entry) = false
      | inl _ => True
      end.
Proof.
  unfold runPhase.
  destruct (createContainer_run h (runConfig runId dir) w) as [[e Hc]|Hc].
  - eexists _, _. split; [by eapply bind_err|].
    split; [apply engine_step_refl | by split; [left|]].
  - destruct (Docker.falsy (default (Docker.Num 0) (boundPort h))) eqn:Hport.
    + eexists _, _. split.
      * eapply (bind_ok _ _ _ _ _ _ _ [] []); [exact Hc|].
        unfold start. munfold. wsimpl. reflexivity.
      * split; [by repeat split | by split; [right|]].
    + eexists _, _. split.
      * eapply (bind_ok _ _ _ _ _ _ _ [] []); [exact Hc|].
        unfold start. munfold. wsimpl. reflexivity.
      * split; [by repeat split | by split; [right|]].
Qed.

(** What [createRun] changes and what it leaves alone. *)
Lemma createRun_run (h : Host) (runId : string)
    (code : LLMClient.GeneratedCode) (w : World) :
  ∃ o w', createRun h runId code w = mkResult o w' []
    ∧ runtime_step w w'
    ∧ (∃ l, created w' = created w ++ l
         ∧ ∀ cfg, cfg ∈ l →
             cfg = buildConfig runId (workspaceDir h runId)
             ∨ cfg = runConfig runId (workspaceDir h runId))
    ∧ match o with
      | inr c =>
          ∃ entry, containers w' = <[runId := entry]> (containers w)
            ∧ Docker.falsy (hostPort entry) = false
            ∧ c = mkDockerContainer (containerId h) runId (hostPort entry)
                    ("http://localhost:" +:+ Docker.show (hostPort entry))
      | inl e =>
          containers w' = containers w ∧ FS.gone (workspaceDir h runId) (fs w')
      end.
Proof.
  unfold createRun. set (dir := workspaceDir h runId).
  assert (Hcleanup : ∀ e w1, runtime_step w w1 → containers w1 = containers w →
    (∃ l, created w1 = created w ++ l
       ∧ ∀ cfg, cfg ∈ l → cfg = buildConfig runId dir ∨ cfg = runConfig runId dir) →
    ∃ w', (cleanupWorkspace dir;; throw (A:=DockerContainer) e) w1
          = mkResult (inl e) w' []
      ∧ runtime_step w w'
      ∧ (∃ l, created w' = created w ++ l
           ∧ ∀ cfg, cfg ∈ l → cfg = buildConfig runId dir ∨ cfg = runConfig runId dir)
      ∧ containers w' = containers w ∧ FS.gone dir (fs w')).
  { intros e w1 Hstep Hcont Hcreated. eexists. split.
    - unfold cleanupWorkspace. munfold. wsimpl. reflexivity.
    - split; [exact Hstep|]. split; [exact Hcreated|].
      split; [exact Hcont | apply rm_rf_gone]. }
  unfold prepareWorkspace. destruct (shell h) as [e|].
  { destruct (Hcleanup e w (runtime_step_refl w) eq_refl) as (w' & Hk & ?).
    { exists []. split; [by rewrite app_nil_r | set_solver]. }
    exists (inl e), w'. split; [|done].
    eapply (catch_err _ _ _ _ _ _ _ [] []); [|exact Hk].
    by eapply bind_err. }
  set (w1 := with_fs (DockerRuntime.materialize (template h) dir code) w).
  destruct (buildPhase_run h runId dir w1) as (o2 & w2 & Hb & (Hs2 & _ & Hc2) & Hcr2).
  assert (Hcreated2 : ∃ l, created w2 = created w ++ l
       ∧ ∀ cfg, cfg ∈ l → cfg = buildConfig runId dir ∨ cfg = runConfig runId dir).
  { destruct Hcr2 as [-> | ->].
    - exists []. split; [by rewrite app_nil_r | set_solver].
    - eexists [_]. split; [reflexivity | set_solver]. }
  destruct o2 as [e|[]].
  { destruct (Hcleanup e w2 Hs2 Hc2 Hcreated2) as (w' & Hk & ?).
    exists (inl e), w'. split; [|done].
    eapply (catch_err _ _ _ _ _ _ _ [] []); [|exact Hk].
    eapply (bind_ok _ _ _ _ _ _ _ [] []); [reflexivity|].
    by eapply bind_err. }
  destruct (runPhase_run h runId dir w2)
    as (o3 & w3 & Hr & (Hs3 & _ & Hc3) & Hcr3 & Hport).
  assert (Hcreated3 : ∃ l, created w3 = created w ++ l
       ∧ ∀ cfg, cfg ∈ l → cfg = buildConfig runId dir ∨ cfg = runConfig runId dir).
  { destruct Hcreated2 as (l & Hl & Hin). destruct Hcr3 as [-> | ->].
    - by exists l.
    - exists (l ++ [runConfig runId dir]). split; [by rewrite Hl, app_assoc|].
      set_solver. }
  destruct o3 as [e|entry].
  { destruct (Hcleanup e w3 (runtime_step_trans _ _ _ Hs2 Hs3)
                (eq_trans Hc3 Hc2) Hcreated3) as (w' & Hk & ?).
    exists (inl e), w'. split; [|done].
    eapply (catch_err _ _ _ _ _ _ _ [] []); [|exact Hk].
    eapply (bind_ok _ _ _ _ _ _ _ [] []); [reflexivity|].
    eapply (bind_ok _ _ _ _ _ _ _ [] []); [exact Hb|].
    by eapply bind_err. }
  eexists _, _. split.
  - eapply catch_ok.
    eapply (bind_ok _ _ _ _ _ _ _ [] []); [reflexivity|].
    eapply (bind_ok _ _ _ _ _ _ _ [] []); [exact Hb|].
    eapply (bind_ok _ _ _ _ _ _ _ [] []); [exact Hr|].
    munfold. wsimpl. reflexivity.
  - split; [exact (runtime_step_trans _ _ _ Hs2 Hs3)|].
    split; [exact Hcreated3|].
    exists entry. wsimpl. rewrite Hc3, Hc2. by repeat split.
Qed.

(** What [killRun] does to a run it does not track, and to one it does. *)
Lemma killRun_run (h : Host) (runId : string) (w : World) :
  ∃ o w', killRun h runId w = mkResult o w' []
    ∧ runtime_step w w' ∧ created w' = created w
    ∧ match containers w !! runId with
      | None => o = inr tt ∧ w' = w
      | Some entry =>
          match removeFails h with
          | Some e => o = inl e ∧ containers w' = containers w
          | None =>
              o = inr tt
              ∧ containers w' = delete runId (containers w)
              ∧ engine w' !! container entry = None
              ∧ FS.gone (workspaceDir h runId) (fs w')
          end
      end.
Proof.
  unfold killRun, halt, remove, cleanupWorkspace. munfold. wsimpl.
  destruct (containers w !! runId) as [entry|]; wsimpl.
  - destruct (removeFails h); wsimpl.
    + eexists _, _. split; [reflexivity|]. by repeat split.
    + eexists _, _. split; [reflexivity|].
      repeat split; [apply lookup_delete_eq | apply rm_rf_gone ..].
  - eexists _, _. split; [reflexivity|]. by repeat split.
Qed.

End RuntimeFacts.

(** ** Workspace materialisation *)

Section WorkspaceFacts.
Import DockerRuntime.

Lemma overlay_other (dir path : string) (code : LLMClient.GeneratedCode) :
  ∀ fs0, path ∉ map (λ e, Path.join dir e.1) code →
    FS.files (foldl (writeGenerated dir) fs0 code) !! path = FS.files fs0 !! path.
Proof.
  induction code as [|e code IH]; intros fs0 Hnot; simpl; [done|].
  rewrite IH by set_solver. unfold writeGenerated. simpl.
  apply lookup_insert_ne. set_solver.
Qed.

Lemma overlay_written (dir : string) (code : LLMClient.GeneratedCode) :
  ∀ fs0 p c, (p, c) ∈ code →
    is_Some (FS.files (foldl (writeGenerated dir) fs0 code) !! Path.join dir p)
    ∧ (NoDup (map (λ e, Path.join dir e.1) code) →
       FS.files (foldl (writeGenerated dir) fs0 code) !! Path.join dir p = Some c).
Proof.
  induction code as [|e code IH]; intros fs0 p c Hin; [by apply elem_of_nil in Hin|].
  apply elem_of_cons in Hin as [Heq|Hin]; [subst e|]; simpl.
  - destruct (decide (Path.join dir p ∈ map (λ e, Path.join dir e.1) code))
      as [Hagain|Hfresh].
    + split.
      * apply list_elem_of_fmap in Hagain as ([p' c'] & Heq & Hin').
        simpl in Heq. rewrite Heq. by eapply (IH _ p' c').
      * intros Hnd. apply NoDup_cons in Hnd as [Hnot _]. done.
    + rewrite overlay_other by done. unfold writeGenerated. simpl.
      rewrite lookup_insert_eq. split; [by eexists | done].
  - split; [by eapply (IH _ p c)|]. intros Hnd.
    apply NoDup_cons in Hnd as [_ Hnd]. by apply IH.
Qed.

End WorkspaceFacts.




(** C6 (as amended). Every container [createRun] creates is the build
    container or the runtime container. The build container gets 4 GiB of
    memory, 2 CPUs, bridge networking, a read-write workspace mount and no
    PID limit; the runtime container gets 2 GiB, 1 CPU, a limit of 512 PIDs,
    the isolation network, a read-only workspace mount, all capabilities
    dropped and no-new-privileges. *)
Theorem C6_container_limits (h : Host) (runId : string)
    (code : LLMClient.GeneratedCode) (w : World) :
  ∃ l, created (final (DockerRuntime.createRun h runId code w)) = created w ++ l
    ∧ Forall (λ cfg,
        let hc := Docker.hostConfig cfg in
        let dir := DockerRuntime.workspaceDir h runId in
        (Docker.name cfg = "build-" +:+ runId
         ∧ Docker.Memory hc = 4 * DockerRuntime.GiB
         ∧ Docker.NanoCpus hc = 2 * 10 ^ 9
         ∧ Docker.PidsLimit hc = None
         ∧ Docker.NetworkMode hc = "bridge"
         ∧ Docker.Binds hc = [dir +:+ ":/workspace:rw"])
        ∨ (Docker.name cfg = "run-" +:+ runId
           ∧ Docker.Memory hc = 2 * DockerRuntime.GiB
           ∧ Docker.NanoCpus hc = 1 * 10 ^ 9
           ∧ Docker.PidsLimit hc = Some 512
           ∧ Docker.NetworkMode hc = DockerRuntime.NETWORK_NAME
           ∧ Docker.Binds hc = [dir +:+ ":/workspace:ro"]
           ∧ Docker.CapDrop hc = ["ALL"]
           ∧ Docker.SecurityOpt hc = ["no-new-privileges:true"])) l.
Proof.
  destruct (createRun_run h runId code w) as (o & w' & Hrun & _ & (l & Heq & Hl) & _).
  rewrite Hrun. wsimpl.
  exists l. split; [done|]. apply Forall_forall. intros cfg Hin.
  destruct (Hl cfg Hin) as [-> | ->]; [left | right]; by repeat split.
Qed.

(** C6, as stated, fails: the build container of the sample run is created
    without any PID limit. *)
Lemma C6_build_container_has_no_pid_limit :
  ∃ cfg, head (created Sample.served) = Some cfg
    ∧ Docker.name cfg = "build-id1"
    ∧ Docker.PidsLimit (Docker.hostConfig cfg) ≠ Some 512.
Proof. eexists. split; [vm_compute; reflexivity|]. by split. Qed.

(** ** The run manager's steps *)

Section ManagerFacts.
Import RunManager.

Lemma with_clock_add (a b : Z) (w : World) :
  with_clock (λ t, t + b) (with_clock (λ t, t + a) w) = with_clock (λ t, t + (a + b)) w.
Proof. unfold with_clock. wsimpl. f_equal. lia. Qed.

Lemma ok_2xx (status : Z) : ok status = bool_decide (200 ≤ status ≤ 299).
Proof.
  unfold ok. repeat case_bool_decide; simpl; try done; lia.
Qed.

Lemma fetch_round (h : Host) (url : string) (i : nat) (w : World) :
  try_catch (response ← await (fetch h url 5000 i); mret (ok response))
            (λ _, mret false) w
  = mkResult (inr (satisfied h url i))
      (with_clock (λ t, t + attemptTime h url i) w)
      [w; with_clock (λ t, t + attemptTime h url i) w].
Proof.
  unfold fetch, satisfied, attemptTime.
  destruct (decide (latency (probe h url i) < 5000)) as [Hfast|Hslow].
  - rewrite (bool_decide_eq_true_2 _ Hfast), Z.min_l by lia.
    destruct (answer (probe h url i)) as [status|]; munfold; wsimpl.
    + by rewrite ok_2xx.
    + done.
  - rewrite (bool_decide_eq_false_2 _ Hslow), Z.min_r by lia.
    munfold. wsimpl. done.
Qed.

Lemma waitLoop_S (h : Host) (url : string) (i left : nat) :
  waitLoop h url i (S left) =
  (hit ← try_catch
           (response ← await (fetch h url 5000 i); mret (ok response))
           (λ _, mret false);
   if hit : bool then mret true
   else await (sleep 2000);; waitLoop h url (S i) left).
Proof. reflexivity. Qed.

Lemma waitLoop_run (h : Host) (url : string) (left : nat) :
  ∀ (i : nat) (w : World),
    ∃ tr, waitLoop h url i left w
          = mkResult (inr (bool_decide (is_Some (firstHit h url i left))))
              (with_clock (λ t, t + waited h url i left) w) tr
      ∧ Forall (λ w', ∃ a, w' = with_clock (λ t, t + a) w) tr.
Proof.
  assert (Hsame : ∀ w, with_clock (λ t, t + 0) w = w).
  { intros []. unfold with_clock. wsimpl. f_equal. lia. }
  induction left as [|left IH]; intros i w.
  - exists []. cbn [waitLoop firstHit waited]. rewrite Hsame. by split.
  - rewrite waitLoop_S. cbn [firstHit waited].
    pose proof (fetch_round h url i w) as Hround.
    destruct (satisfied h url i) eqn:Hsat.
    + eexists. split.
      * eapply bind_ok; [exact Hround|]. wsimpl.
        rewrite Z.add_0_r. reflexivity.
      * repeat constructor; [exists 0; by rewrite Hsame | by eexists].
    + destruct (IH (S i) (with_clock (λ t, t + 2000)
                  (with_clock (λ t, t + attemptTime h url i) w)))
        as (tr & Hrest & Htr).
      rewrite with_clock_add in Hrest.
      eexists. split.
      * eapply bind_ok; [exact Hround|]. wsimpl.
        eapply bind_ok.
        -- unfold sleep. apply await_run. unfold modify. reflexivity.
        -- rewrite with_clock_add, Hrest, with_clock_add.
           rewrite <- Z.add_assoc. reflexivity.
      * rewrite with_clock_add in Htr.
        repeat (constructor; [first [by exists 0; rewrite Hsame | by eexists
                 | by rewrite with_clock_add; eexists] |]).
        wsimpl. repeat (constructor; [first [by exists 0; rewrite Hsame | by eexists
                 | by rewrite with_clock_add; eexists] |]).
        eapply Forall_impl; [exact Htr|]. cbv beta.
        intros w' [a ->]. rewrite with_clock_add. by eexists.
Qed.

Lemma updateRun_run (h : Host) (runId : string) (u : RunUpdate) (w : World) :
  updateRun h runId u w
  = mkResult (inr tt) (patched h runId u w) [w; patched h runId u w].
Proof.
  unfold patched, updateRun. munfold. wsimpl. by destruct (delivered h (sent w)).
Qed.

Lemma patched_eq (h : Host) (runId : string) (u : RunUpdate) (w : World) :
  patched h runId u w =
  mkWorld (if delivered h (sent w)
           then (Store.updateRun runId u (clock w) (store w)).2 else store w)
          (S (sent w)) (clock w) (fs w) (engine w) (created w)
          (containers w) (registry w).
Proof.
  unfold patched, updateRun. munfold. wsimpl. by destruct (delivered h (sent w)).
Qed.

End ManagerFacts.

Section ProbeFacts.

Lemma firstHit_Some (h : Host) (url : string) (left : nat) :
  ∀ i k, firstHit h url i left = Some k →
    (i ≤ k < i + left)%nat ∧ satisfied h url k = true
    ∧ ∀ j, (i ≤ j < k)%nat → satisfied h url j = false.
Proof.
  induction left as [|left IH]; intros i k; simpl; [done|].
  destruct (satisfied h url i) eqn:Hi.
  - intros [= <-]. split; [lia|]. split; [done|]. intros j ?. lia.
  - intros Hk. destruct (IH _ _ Hk) as (Hrange & Hsat & Hmiss).
    split; [lia|]. split; [done|]. intros j Hj.
    destruct (decide (j = i)) as [->|Hne]; [done|]. apply Hmiss. lia.
Qed.

Lemma firstHit_None (h : Host) (url : string) (left : nat) :
  ∀ i, firstHit h url i left = None ↔
    ∀ j, (i ≤ j < i + left)%nat → satisfied h url j = false.
Proof.
  induction left as [|left IH]; intros i; simpl.
  - split; [intros _ j ?; lia | done].
  - destruct (satisfied h url i) eqn:Hi.
    + split; [done|]. intros Hall. rewrite Hall in Hi by lia. done.
    + rewrite IH. split.
      * intros Hall j Hj. destruct (decide (j = i)) as [->|Hne]; [done|].
        apply Hall. lia.
      * intros Hall j Hj. apply Hall. lia.
Qed.

(** With latencies that are not negative the loop takes at most 7 seconds an
    attempt. *)
Lemma waited_bound (h : Host) (url : string) (left : nat) :
  (∀ j, 0 ≤ latency (probe h url j)) →
  ∀ i, 0 ≤ waited h url i left ≤ 7000 * Z.of_nat left.
Proof.
  intros Hpos. induction left as [|left IH]; intros i; simpl; [lia|].
  specialize (IH (S i)). specialize (Hpos i). unfold attemptTime.
  destruct (satisfied h url i); lia.
Qed.

End ProbeFacts.

Section CourseFacts.
Import RunManager.

Lemma result_eta {A} (r : result A) : r = mkResult (outcome r) (final r) (seen r).
Proof. by destruct r. Qed.

Lemma generateCode_run (h : Host) (prompt : string) (provider : ModelProvider)
    (model : string) (w : World) :
  await (generateCode h prompt provider model) w
  = mkResult (generate h prompt provider model) w [w; w].
Proof. done. Qed.

Lemma validateCode_run (code : LLMClient.GeneratedCode) (w : World) :
  validateCode code w = mkResult (LLMClient.validateCode code) w [].
Proof. unfold validateCode. by destruct (LLMClient.validateCode code) as [e|[]]. Qed.

Lemma createRun_awaited (h : Host) (run : Run) (w : World)
    (code : LLMClient.GeneratedCode) :
  await (DockerRuntime.createRun h (run_id run) code) (installingAt h run w)
  = mkResult (outcome (built h run w code)) (final (built h run w code))
      [installingAt h run w; final (built h run w code)].
Proof.
  unfold built.
  destruct (createRun_run h (run_id run) code (installingAt h run w))
    as (o & w' & Hrun & _).
  rewrite Hrun. wsimpl. by rewrite (await_run _ _ _ _ _ Hrun).
Qed.

Lemma waitForHealthyUrl_run (h : Host) (run : Run) (w : World)
    (code : LLMClient.GeneratedCode) (c : DockerContainer) :
  ∃ tr, waitForHealthyUrl h (dc_internalUrl c) 30 (startingAt h run w code c)
    = mkResult (inr (bool_decide (is_Some (firstHit h (dc_internalUrl c) 0 30))))
        (probed h run w code c) tr.
Proof.
  unfold probed, waitForHealthyUrl.
  destruct (waitLoop_run h (dc_internalUrl c) 30 0 (startingAt h run w code c))
    as (tr & Hwait & _).
  exists tr. by rewrite Hwait.
Qed.

(** One step of the [try] block, given the results of the host's calls as
    equations in the context. *)
Ltac by_hypothesis :=
  multimatch goal with
  | H : _ = inl _ |- _ => rewrite H; reflexivity
  | H : _ = inr _ |- _ => rewrite H; reflexivity
  end.

Ltac known_step :=
  first [ apply updateRun_run
        | reflexivity
        | eassumption
        | etransitivity; [apply generateCode_run |]; by_hypothesis
        | etransitivity; [apply validateCode_run |]; by_hypothesis
        | etransitivity; [apply createRun_awaited |]; by_hypothesis ].

Ltac advance :=
  first [ eapply bind_ok; [solve [known_step] |]
        | eapply bind_err; solve [known_step]
        | solve [known_step] ].

(** Every execution of the [try] block of [processRun] takes one of the
    five paths of [course]. *)
Lemma attempt_course (h : Host) (run : Run) (prompt : string) (w : World) :
  course h run prompt w (outcome (attempt h run prompt w))
                        (final (attempt h run prompt w)).
Proof.
  assert (Hresult : ∀ o w' tr, attempt h run prompt w = mkResult o w' tr →
            course h run prompt w o w' →
            course h run prompt w (outcome (attempt h run prompt w))
                                  (final (attempt h run prompt w))).
  { by intros o w' tr ->. }
  unfold attempt, updateRunStatus in *.
  destruct (generate h prompt (run_provider run) (run_model run))
    as [e|code] eqn:Hgen.
  { eapply Hresult; [repeat advance | by apply generation_fails]. }
  destruct (LLMClient.validateCode code) as [e|[]] eqn:Hval.
  { eapply Hresult; [repeat advance | by eapply validation_fails]. }
  pose proof (createRun_awaited h run w code) as Hcreate.
  destruct (outcome (built h run w code)) as [e|c] eqn:Hbuilt.
  { eapply Hresult; [repeat advance | by eapply creation_fails]. }
  destruct (waitForHealthyUrl_run h run w code c) as (tr & Hwait).
  destruct (firstHit h (dc_internalUrl c) 0 30) as [k|] eqn:Hhit.
  - rewrite bool_decide_eq_true_2 in Hwait by (by eexists).
    eapply Hresult; [repeat advance | by eapply becomes_ready].
  - rewrite bool_decide_eq_false_2 in Hwait by (by intros [? [=]]).
    eapply Hresult; [repeat advance | by eapply probing_fails].
Qed.

End CourseFacts.

(** ** When processing fails *)

Section FailureFacts.
Import RunManager.

Lemma patched_frame (h : Host) (runId : string) (u : RunUpdate) (w : World) :
  clock (patched h runId u w) = clock w
  ∧ fs (patched h runId u w) = fs w
  ∧ engine (patched h runId u w) = engine w
  ∧ created (patched h runId u w) = created w
  ∧ containers (patched h runId u w) = containers w
  ∧ registry (patched h runId u w) = registry w.
Proof. by rewrite patched_eq. Qed.

(** A delivered update of a known run is merged into its record; any update
    keeps every known run known. *)
Lemma patched_record (h : Host) (runId : string) (u : RunUpdate) (w : World) (r : Run) :
  record runId w = Some r →
  (∃ r', record runId (patched h runId u w) = Some r')
  ∧ (delivered h (sent w) = true →
     record runId (patched h runId u w) = Some (Store.merge r u (clock w))).
Proof.
  unfold record. intros Hr. rewrite patched_eq. wsimpl.
  unfold Store.updateRun. rewrite Hr.
  destruct (delivered h (sent w)); cbn [snd Store.runs].
  - rewrite lookup_insert_eq. split; [by eexists | done].
  - split; [by eexists | done].
Qed.

(** What the state at a failure of the [try] block has in common with the
    state the run was started in. *)
Lemma course_failure (h : Host) (run : Run) (prompt : string) (w wf : World)
    (e : string) :
  course h run prompt w (inl e) wf →
  registry wf = registry w
  ∧ (is_Some (record (run_id run) w) → is_Some (record (run_id run) wf))
  ∧ (workspaceTracked h (run_id run) w → workspaceTracked h (run_id run) wf).
Proof.
  assert (Hann : registry (announced h run w) = registry w
    ∧ (is_Some (record (run_id run) w) → is_Some (record (run_id run) (announced h run w)))
    ∧ fs (announced h run w) = fs w
    ∧ containers (announced h run w) = containers w).
  { unfold announced. pose proof (patched_frame h (run_id run)
      (mkUpdate (Some generating) None None None None (Some (clock w)) None) w)
      as (_ & ? & _ & _ & ? & ?).
    repeat split; try done. intros [r Hr].
    by destruct (patched_record h (run_id run)
      (mkUpdate (Some generating) None None None None (Some (clock w)) None) w r Hr)
      as [[r' ?] _]; eexists. }
  assert (Hinst : registry (installingAt h run w) = registry w
    ∧ (is_Some (record (run_id run) w) → is_Some (record (run_id run) (installingAt h run w)))
    ∧ fs (installingAt h run w) = fs w
    ∧ containers (installingAt h run w) = containers w).
  { destruct Hann as (Hreg & Hrec & Hfs & Hcont). unfold installingAt.
    pose proof (patched_frame h (run_id run) (statusUpdate installing) (announced h run w))
      as (_ & ? & _ & _ & ? & ?).
    repeat split; try congruence. intros Hw. destruct (Hrec Hw) as [r Hr].
    by destruct (patched_record h (run_id run) (statusUpdate installing) _ r Hr)
      as [[r' ?] _]; eexists. }
  assert (Hbuilt : ∀ code,
    registry (final (built h run w code)) = registry w
    ∧ (is_Some (record (run_id run) w)
       → is_Some (record (run_id run) (final (built h run w code))))
    ∧ match outcome (built h run w code) with
      | inr c => is_Some (containers (final (built h run w code)) !! run_id run)
      | inl _ => FS.gone (DockerRuntime.workspaceDir h (run_id run))
                   (fs (final (built h run w code)))
      end).
  { intros code. destruct Hinst as (Hreg & Hrec & _ & _). unfold built.
    destruct (createRun_run h (run_id run) code (installingAt h run w))
      as (o & w' & -> & (Hst & _ & _ & Hrg) & _ & Ho). wsimpl.
    split; [congruence|]. split.
    - unfold record in *. by rewrite Hst.
    - destruct o as [e'|c].
      + by destruct Ho.
      + destruct Ho as (entry & -> & _). rewrite lookup_insert_eq. by eexists. }
  intros Hcourse. inversion Hcourse as
    [e' Hgen | code e' Hgen Hval | code e' Hgen Hval Hb
    | code c Hgen Hval Hb Hhit | ]; subst.
  - destruct Hann as (? & ? & Hfs & Hcont). split; [done|]. split; [done|].
    unfold workspaceTracked. by rewrite Hfs, Hcont.
  - destruct Hann as (? & ? & Hfs & Hcont). split; [done|]. split; [done|].
    unfold workspaceTracked. by rewrite Hfs, Hcont.
  - destruct (Hbuilt code) as (? & ? & Ho). rewrite Hb in Ho.
    split; [done|]. split; [done|]. by intros _ _.
  - destruct (Hbuilt code) as (Hreg & Hrec & Ho). rewrite Hb in Ho.
    destruct (waitLoop_run h (dc_internalUrl c) 30 0 (startingAt h run w code c))
      as (tr & Hwait & _).
    unfold probed, waitForHealthyUrl. rewrite Hwait. wsimpl.
    unfold startingAt.
    pose proof (patched_frame h (run_id run)
      (mkUpdate (Some starting) (Some (dc_id c)) (Some (dc_internalUrl c))
         None None None None) (final (built h run w code)))
      as (_ & _ & _ & _ & Hcont & Hrg).
    split; [unfold with_clock; wsimpl; congruence|]. split.
    + intros Hw. destruct (Hrec Hw) as [r Hr].
      destruct (patched_record h (run_id run)
        (mkUpdate (Some starting) (Some (dc_id c)) (Some (dc_internalUrl c))
           None None None None) _ r Hr) as [[r' Hr'] _].
      exists r'. unfold record in *. by wsimpl.
    + intros _ Hnone. unfold with_clock in Hnone. wsimpl.
      cbn [containers] in Hnone. rewrite Hcont in Hnone.
      destruct Ho as [? Ho]. congruence.
Qed.

(** The [catch] block publishes the failure, then calls the runtime's
    [killRun] and never throws. *)
Lemma recover_run (h : Host) (run : Run) (e : string) (w : World) :
  ∃ o w' tr,
    DockerRuntime.killRun h (run_id run)
      (patched h (run_id run) (failedUpdate e (clock w)) w) = mkResult o w' []
    ∧ recover h run e w = mkResult (inr tt) w' tr.
Proof.
  destruct (killRun_run h (run_id run)
              (patched h (run_id run) (failedUpdate e (clock w)) w))
    as (o & w' & Hk & _).
  exists o, w'. unfold recover. destruct o as [e'|[]].
  - eexists. split; [exact Hk|].
    eapply bind_ok; [reflexivity|]. eapply bind_ok; [apply updateRun_run|].
    eapply catch_err; [apply await_run; exact Hk | reflexivity].
  - eexists. split; [exact Hk|].
    eapply bind_ok; [reflexivity|]. eapply bind_ok; [apply updateRun_run|].
    eapply catch_ok. apply await_run. exact Hk.
Qed.

(** [processRun] after a failed [try] block: the [catch] block runs from the
    state of the failure. *)
Lemma processRun_failed (h : Host) (run : Run) (prompt : string) (w : World)
    (e : string) :
  outcome (attempt h run prompt w) = inl e →
  outcome (processRun h run prompt w) = inr tt
  ∧ ∃ o, DockerRuntime.killRun h (run_id run)
           (patched h (run_id run)
              (failedUpdate e (clock (final (attempt h run prompt w))))
              (final (attempt h run prompt w)))
         = mkResult o (final (processRun h run prompt w)) [].
Proof.
  intros Hfail.
  destruct (recover_run h run e (final (attempt h run prompt w)))
    as (o & w' & tr & Hk & Hrec).
  unfold processRun.
  erewrite catch_err; [| rewrite (result_eta (attempt _ _ _ _)), Hfail; reflexivity
                       | exact Hrec].
  wsimpl. split; [done|]. by exists o.
Qed.

End FailureFacts.





(** ** What every observable state satisfies *)

Section Upholding.
Context (I : World → Prop).

Lemma upholds_ret {A} (a : A) (Q : A → Prop) : Q a → upholds I (mret a) Q.
Proof. intros Ha w Hw. repeat split; [done..|]. by intros ? [= <-]. Qed.

Lemma upholds_throw {A} (e : string) (Q : A → Prop) : upholds I (throw e) Q.
Proof. intros w Hw. by repeat split. Qed.

Lemma upholds_modify (f : World → World) :
  (∀ w, I w → I (f w)) → upholds I (modify f) (λ _, True).
Proof. intros Hf w Hw. repeat split; [by apply Hf | done]. Qed.

Lemma upholds_bind {A B} (m : M A) (f : A → M B) (Q : A → Prop) (R : B → Prop) :
  upholds I m Q → (∀ a, Q a → upholds I (f a) R) → upholds I (m ≫= f) R.
Proof.
  intros Hm Hf w Hw. destruct (Hm w Hw) as (Hfin & Hseen & Hval).
  munfold. destruct (m w) as [[e|a] w1 tr1]; wsimpl_all.
  - by repeat split.
  - destruct (Hf a (Hval a eq_refl) w1 Hfin) as (Hfin' & Hseen' & Hval').
    split; [done|]. split; [by apply Forall_app | done].
Qed.

Lemma upholds_catch {A} (m : M A) (k : string → M A) (Q : A → Prop) :
  upholds I m Q → (∀ e, upholds I (k e) Q) → upholds I (try_catch m k) Q.
Proof.
  intros Hm Hk w Hw. destruct (Hm w Hw) as (Hfin & Hseen & Hval).
  munfold. destruct (m w) as [[e|a] w1 tr1]; wsimpl_all.
  - destruct (Hk e w1 Hfin) as (Hfin' & Hseen' & Hval').
    split; [done|]. split; [by apply Forall_app | done].
  - by repeat split.
Qed.

Lemma upholds_await {A} (m : M A) (Q : A → Prop) :
  upholds I m Q → upholds I (await m) Q.
Proof.
  intros Hm w Hw. destruct (Hm w Hw) as (Hfin & Hseen & Hval).
  munfold. wsimpl. split; [done|]. split; [|done].
  constructor; [done|]. apply Forall_app. split; [done|]. by constructor.
Qed.

Lemma upholds_weaken {A} (m : M A) (Q Q' : A → Prop) :
  (∀ a, Q a → Q' a) → upholds I m Q → upholds I m Q'.
Proof.
  intros HQ Hm w Hw. destruct (Hm w Hw) as (Hfin & Hseen & Hval).
  split; [done|]. split; [done|]. intros a Ha. by apply HQ, Hval.
Qed.

(** Code that ends where it started and shows nothing upholds anything. *)
Lemma upholds_still {A} (m : M A) :
  (∀ w, final (m w) = w ∧ seen (m w) = []) → upholds I m (λ _, True).
Proof. intros Hm w Hw. destruct (Hm w) as [-> ->]. by repeat split. Qed.

Lemma upholds_updateRun (h : Host) (runId : string) (u : RunUpdate) :
  (∀ w, I w → I (patched h runId u w)) →
  upholds I (RunManager.updateRun h runId u) (λ _, True).
Proof.
  intros Hp w Hw. rewrite updateRun_run. wsimpl.
  split; [by apply Hp|]. split; [|done]. repeat constructor; [done | by apply Hp].
Qed.

Hypothesis runtime_stable : ∀ w w', runtime_step w w' → I w → I w'.
Hypothesis clock_stable : ∀ w a, I w → I (with_clock (λ t, t + a) w).

Lemma upholds_createRun (h : Host) (runId : string) (code : LLMClient.GeneratedCode) :
  upholds I (DockerRuntime.createRun h runId code) (λ c, dc_internalUrl c ≠ EmptyString).
Proof.
  intros w Hw.
  destruct (createRun_run h runId code w) as (o & w' & -> & Hstep & _ & Ho).
  wsimpl. split; [by eapply runtime_stable|]. split; [done|].
  intros c ->. by destruct Ho as (entry & _ & _ & ->).
Qed.

Lemma upholds_killRun (h : Host) (runId : string) :
  upholds I (DockerRuntime.killRun h runId) (λ _, True).
Proof.
  intros w Hw.
  destruct (killRun_run h runId w) as (o & w' & -> & Hstep & _).
  wsimpl. split; [by eapply runtime_stable | done].
Qed.

Lemma upholds_waitForHealthyUrl (h : Host) (url : string) (n : nat) :
  upholds I (RunManager.waitForHealthyUrl h url n) (λ _, True).
Proof.
  intros w Hw. unfold RunManager.waitForHealthyUrl.
  destruct (waitLoop_run h url n 0 w) as (tr & -> & Htr). wsimpl.
  split; [by apply clock_stable|]. split; [|done].
  eapply Forall_impl; [exact Htr|]. cbv beta. intros w' [a ->].
  by apply clock_stable.
Qed.

End Upholding.

Section ReadyFacts.
Import RunManager.

Lemma resolveRun_Url (runId url : string) (w : World) :
  Server.resolveRun runId w = Server.Url url
  ↔ registry w !! runId = Some url ∧ url ≠ EmptyString.
Proof.
  unfold Server.resolveRun. rewrite <- resolve_Some.
  destruct (GatewayRegistry.resolve runId (registry w)); split; congruence.
Qed.

Lemma resolveRun_NotFound (runId : string) (w : World) :
  (¬ ∃ url, registry w !! runId = Some url ∧ url ≠ EmptyString) →
  Server.resolveRun runId w = Server.NotFound "Run not found".
Proof.
  intros Hnone. unfold Server.resolveRun.
  destruct (GatewayRegistry.resolve runId (registry w)) as [url|] eqn:Hres; [|done].
  exfalso. apply Hnone. exists url. by apply resolve_Some.
Qed.

Lemma readyResolves_same (runId : string) (w w' : World) :
  store w' = store w → registry w' = registry w →
  readyResolves runId w → readyResolves runId w'.
Proof.
  unfold readyResolves, record, Server.resolveRun. by intros -> ->.
Qed.

Lemma readyResolves_registered (runId url : string) (w : World) :
  registry w !! runId = Some url → url ≠ EmptyString → readyResolves runId w.
Proof. intros Hreg Hne _. exists url. by apply resolveRun_Url. Qed.

(** Publishing any status but [ready] cannot make a run [ready]. *)
Lemma readyResolves_patched (h : Host) (runId : string) (u : RunUpdate) (w : World) :
  upd_status u ≠ Some ready →
  readyResolves runId w → readyResolves runId (patched h runId u w).
Proof.
  intros Hu Hw. unfold readyResolves, record, Server.resolveRun in *.
  rewrite patched_eq. wsimpl. destruct (delivered h (sent w)); [|done].
  unfold Store.updateRun.
  destruct (Store.runs (store w) !! runId) as [r|] eqn:Hr; cbn [snd Store.runs];
    [|by rewrite Hr].
  rewrite lookup_insert_eq. cbn. intros [= Hready]. apply Hw. cbn.
  destruct (upd_status u) as [s|]; cbn in Hready; congruence.
Qed.

(** Registration followed by the [ready] update: from the registration on
    the gateway resolves the run. *)
Lemma upholds_registration (h : Host) (runId url : string) :
  url ≠ EmptyString →
  upholds (readyResolves runId)
    (modify (with_registry (GatewayRegistry.registerUrl runId url));;
     completedAt ← newDate;
     updateRun h runId (mkUpdate (Some ready) None None None None None
                          (Some completedAt)))
    (λ _, True).
Proof.
  intros Hne w _.
  erewrite bind_ok; [| reflexivity |
    eapply bind_ok; [reflexivity | apply updateRun_run]].
  wsimpl.
  assert (Hreg : ∀ u, readyResolves runId
    (patched h runId u
       (with_registry (GatewayRegistry.registerUrl runId url) w))).
  { intros u. apply (readyResolves_registered _ url); [|done].
    rewrite patched_eq. wsimpl. apply lookup_insert_eq. }
  split; [apply Hreg|]. split; [|done].
  repeat constructor; [|apply Hreg].
  apply (readyResolves_registered _ url); [|done]. apply lookup_insert_eq.
Qed.

Lemma upholds_attempt (h : Host) (run : Run) (prompt : string) :
  upholds (readyResolves (run_id run)) (attempt h run prompt) (λ _, True).
Proof.
  assert (Hrt : ∀ w w', runtime_step w w' →
    readyResolves (run_id run) w → readyResolves (run_id run) w').
  { intros w w' (? & _ & _ & ?). by apply readyResolves_same. }
  assert (Hck : ∀ w a, readyResolves (run_id run) w →
    readyResolves (run_id run) (with_clock (λ t, t + a) w)).
  { intros w a. by apply readyResolves_same. }
  unfold attempt, updateRunStatus.
  eapply upholds_bind; [by apply upholds_still|]. intros startedAt _.
  eapply upholds_bind;
    [apply upholds_updateRun; intros w; by apply readyResolves_patched|].
  intros _ _.
  eapply upholds_bind; [apply upholds_await; by apply upholds_still|].
  intros code _.
  eapply (upholds_bind _ _ _ (λ _, True)).
  { unfold validateCode. destruct (LLMClient.validateCode code).
    - apply upholds_throw.
    - by apply upholds_ret. }
  intros _ _.
  eapply upholds_bind;
    [apply upholds_updateRun; intros w; by apply readyResolves_patched|].
  intros _ _.
  eapply upholds_bind; [apply upholds_await; by apply upholds_createRun|].
  intros c Hurl.
  eapply upholds_bind;
    [apply upholds_updateRun; intros w; by apply readyResolves_patched|].
  intros _ _.
  eapply upholds_bind; [by apply upholds_waitForHealthyUrl|].
  intros isHealthy _.
  eapply (upholds_bind _ _ _ (λ _, True)).
  { destruct isHealthy; [by apply upholds_ret | apply upholds_throw]. }
  intros _ _.
  eapply upholds_bind;
    [apply upholds_updateRun; intros w; by apply readyResolves_patched|].
  intros _ _. by apply upholds_registration.
Qed.

Lemma upholds_recover (h : Host) (run : Run) (e : string) :
  upholds (readyResolves (run_id run)) (recover h run e) (λ _, True).
Proof.
  unfold recover.
  eapply upholds_bind; [by apply upholds_still|]. intros completedAt _.
  eapply upholds_bind;
    [apply upholds_updateRun; intros w; by apply readyResolves_patched|].
  intros _ _.
  apply upholds_catch; [|intros ?; by apply upholds_ret].
  apply upholds_await, upholds_killRun.
  intros w w' (? & _ & _ & ?). by apply readyResolves_same.
Qed.

End ReadyFacts.




(** ** Known runs and what is published about them *)

Section PublishedFacts.
Import RunManager.

Lemma known_patched (h : Host) (runId : string) (u : RunUpdate) (w : World) :
  is_Some (record runId w) → is_Some (record runId (patched h runId u w)).
Proof.
  intros [r Hr]. destruct (patched_record h runId u w r Hr) as [[r' Hr'] _].
  by exists r'.
Qed.

Lemma known_same (runId : string) (w w' : World) :
  store w' = store w → is_Some (record runId w) → is_Some (record runId w').
Proof. unfold record. by intros ->. Qed.

Lemma built_step (h : Host) (run : Run) (w : World) (code : LLMClient.GeneratedCode) :
  runtime_step (installingAt h run w) (final (built h run w code)).
Proof.
  unfold built.
  by destruct (createRun_run h (run_id run) code (installingAt h run w))
    as (o & w' & -> & Hstep & _).
Qed.

Lemma probed_eq (h : Host) (run : Run) (w : World) (code : LLMClient.GeneratedCode)
    (c : DockerContainer) :
  probed h run w code c
  = with_clock (λ t, t + waited h (dc_internalUrl c) 0 30) (startingAt h run w code c).
Proof.
  unfold probed, waitForHealthyUrl.
  by destruct (waitLoop_run h (dc_internalUrl c) 30 0 (startingAt h run w code c))
    as (tr & -> & _).
Qed.

(** A known run stays known up to the registration. *)
Lemma known_registeredAt (h : Host) (run : Run) (w : World)
    (code : LLMClient.GeneratedCode) (c : DockerContainer) :
  is_Some (record (run_id run) w) →
  is_Some (record (run_id run) (registeredAt h run w code c)).
Proof.
  intros Hw. unfold registeredAt.
  apply (known_same _ (patched h (run_id run) (statusUpdate healthy)
                         (probed h run w code c))); [done|].
  apply known_patched. rewrite probed_eq.
  apply (known_same _ (startingAt h run w code c)); [done|].
  apply known_patched.
  apply (known_same _ (installingAt h run w)); [apply built_step|].
  by do 2 apply known_patched.
Qed.

(** After a failed [try] block the store shows the run as [failed], with the
    message of the error, provided the update gets through. *)
Lemma failure_published (h : Host) (run : Run) (prompt : string) (w : World)
    (e : string) :
  outcome (attempt h run prompt w) = inl e →
  delivered h (sent (final (attempt h run prompt w))) = true →
  is_Some (record (run_id run) w) →
  created (final (processRun h run prompt w))
    = created (final (attempt h run prompt w))
  ∧ ∃ r, record (run_id run) (final (processRun h run prompt w)) = Some r
      ∧ run_status r = failed ∧ run_error r = Some e
      ∧ run_completedAt r = Some (clock (final (attempt h run prompt w))).
Proof.
  intros Hfail Hdel Hknown.
  destruct (processRun_failed h run prompt w e Hfail) as (_ & o & Hk).
  pose proof (attempt_course h run prompt w) as Hcourse. rewrite Hfail in Hcourse.
  destruct (course_failure h run prompt w _ e Hcourse) as (_ & Hrec & _).
  destruct (Hrec Hknown) as [r Hr].
  destruct (patched_record h (run_id run)
    (failedUpdate e (clock (final (attempt h run prompt w)))) _ r Hr)
    as [_ Hmerged]. specialize (Hmerged Hdel).
  pose proof (patched_frame h (run_id run)
    (failedUpdate e (clock (final (attempt h run prompt w))))
    (final (attempt h run prompt w))) as (_ & _ & _ & Hcr & _).
  destruct (killRun_run h (run_id run) (patched h (run_id run)
    (failedUpdate e (clock (final (attempt h run prompt w))))
    (final (attempt h run prompt w)))) as (o' & w'' & Hk' & Hstep & Hcreated & _).
  rewrite Hk in Hk'. injection Hk' as <- <-.
  destruct Hstep as (Hstore & _). split; [congruence|].
  eexists. unfold record in *. rewrite Hstore. split; [exact Hmerged|]. done.
Qed.

End PublishedFacts.

(** C3 (as amended). After the code-generation call returns, the engine
    validates the returned files: the run fails unless [app/page.tsx] exists,
    is not empty and contains [export default]. A violation is fatal: the
    run ends [failed] with the validation message and no container is
    created. The manifest and its scripts are not examined. *)
Theorem C3_validation_is_fatal (h : Host) (run : Run) (prompt : string) (w : World)
    (code : LLMClient.GeneratedCode) :
  (LLMClient.validateCode code = inr tt ↔
     ∃ page, LLMClient.get "app/page.tsx" code = Some page ∧ page ≠ EmptyString
             ∧ LLMClient.includes "export default" page = true)
  ∧ (generate h prompt (run_provider run) (run_model run) = inr code →
     ∀ e, LLMClient.validateCode code = inl e →
       outcome (RunManager.attempt h run prompt w) = inl e
       ∧ (e = "Missing app/page.tsx" ∨ e = "page.tsx must have a default export")
       ∧ created (final (RunManager.processRun h run prompt w)) = created w
       ∧ ((∀ n, delivered h n = true) → is_Some (record (run_id run) w) →
          ∃ r, record (run_id run) (final (RunManager.processRun h run prompt w))
                 = Some r
            ∧ run_status r = failed ∧ run_error r = Some e)).
Proof.
  split; [apply validateCode_ok|]. intros Hgen e Hval.
  pose proof (attempt_course h run prompt w) as Hcourse.
  assert (Hfail : outcome (RunManager.attempt h run prompt w) = inl e
                  ∧ final (RunManager.attempt h run prompt w) = announced h run w).
  { inversion Hcourse as
      [e' Hgen' Ho Hf | code' e' Hgen' Hval' Ho Hf | code' e' Hgen' Hval' Hb Ho Hf
      | code' c Hgen' Hval' Hb Hhit Ho Hf | code' c Hgen' Hval' Hb Hhit Ho Hf];
      rewrite Hgen in Hgen'; try discriminate;
      injection Hgen' as <-; rewrite Hval in Hval'; try discriminate.
    injection Hval' as <-. done. }
  destruct Hfail as [Hfail Hfinal]. split; [done|]. split.
  { unfold LLMClient.validateCode in Hval.
    destruct (LLMClient.get "app/page.tsx" code) as [[|]|];
      try (injection Hval as <-; by left).
    destruct (_ && _); [|done]. injection Hval as <-. by right. }
  assert (Hcreated : created (final (RunManager.attempt h run prompt w)) = created w).
  { rewrite Hfinal. unfold announced.
    by pose proof (patched_frame h (run_id run)
      (mkUpdate (Some generating) None None None None (Some (clock w)) None) w)
      as (_ & _ & _ & ? & _). }
  split.
  - destruct (processRun_failed h run prompt w e Hfail) as (_ & o & Hk).
    destruct (killRun_run h (run_id run) (patched h (run_id run)
      (failedUpdate e (clock (final (RunManager.attempt h run prompt w))))
      (final (RunManager.attempt h run prompt w))))
      as (o' & w'' & Hk' & _ & Hcr & _).
    rewrite Hk in Hk'. injection Hk' as <- <-. rewrite Hcr.
    pose proof (patched_frame h (run_id run)
      (failedUpdate e (clock (final (RunManager.attempt h run prompt w))))
      (final (RunManager.attempt h run prompt w))) as (_ & _ & _ & -> & _).
    done.
  - intros Hdel Hknown.
    destruct (failure_published h run prompt w e Hfail (Hdel _) Hknown)
      as (_ & r & Hr & Hst & Herr & _).
    by exists r.
Qed.

Lemma C3_validation_is_fatal_witness :
  outcome (RunManager.attempt Sample.hostManifestOnly Sample.run Sample.prompt
             Sample.world) = inl "Missing app/page.tsx".
Proof.
  pose proof (C3_validation_is_fatal Sample.hostManifestOnly Sample.run
                Sample.prompt Sample.world [("package.json", "{}")]) as [_ Hfatal].
  destruct (Hfatal eq_refl "Missing app/page.tsx" eq_refl) as [Hout _].
  exact Hout.
Defined.

(** C3, as stated, fails: the files of the sample run hold no manifest, yet
    they pass the validation and the run becomes [ready]. *)
Lemma C3_manifest_not_required :
  let code := [("app/page.tsx", Sample.page)] in
  generate Sample.host Sample.prompt openai "gpt-4o" = inr code
  ∧ LLMClient.get "package.json" code = None
  ∧ LLMClient.validateCode code = inr tt
  ∧ Sample.status "id1" Sample.served = Some ready.
Proof. vm_compute. done. Qed.

Section ProbeOutcome.

Lemma firstHit_iff (h : Host) (url : string) (left k : nat) :
  firstHit h url 0 left = Some k ↔
  (k < left)%nat ∧ satisfied h url k = true
  ∧ ∀ j, (j < k)%nat → satisfied h url j = false.
Proof.
  split.
  - intros Hk. destruct (firstHit_Some h url left 0 k Hk) as (Hr & Hs & Hm).
    split; [lia|]. split; [done|]. intros j Hj. apply Hm. lia.
  - intros (Hlt & Hsat & Hmiss).
    destruct (firstHit h url 0 left) as [k'|] eqn:Hfirst.
    + destruct (firstHit_Some h url left 0 k' Hfirst) as (Hr & Hs & Hm).
      f_equal. destruct (Nat.lt_trichotomy k' k) as [Hlt'|[->|Hgt]]; [|done|].
      * rewrite Hmiss in Hs by done. done.
      * rewrite Hm in Hsat by lia. done.
    + rewrite (proj1 (firstHit_None h url left 0) Hfirst) in Hsat by lia. done.
Qed.

End ProbeOutcome.

(** C5. The health probe requests the run's internal URL at most 30 times.
    An attempt is satisfied when the response arrives within its 5000 ms
    timeout with a 2xx status; a failed connection, a timeout or any other
    status is a miss and is followed by a pause of 2000 ms. The first
    satisfied attempt ends the loop and the run goes on to [ready]; thirty
    misses fail the run. *)
Theorem C5_health_probe (h : Host) (run : Run) (prompt : string) (w : World)
    (code : LLMClient.GeneratedCode) (c : DockerContainer) :
  let url := dc_internalUrl c in
  (∀ w0, ∃ tr, RunManager.waitForHealthyUrl h url 30 w0
       = mkResult (inr (bool_decide (is_Some (firstHit h url 0 30))))
           (with_clock (λ t, t + waited h url 0 30) w0) tr)
  ∧ (∀ k, firstHit h url 0 30 = Some k ↔
          (k < 30)%nat ∧ satisfied h url k = true
          ∧ ∀ j, (j < k)%nat → satisfied h url j = false)
  ∧ (firstHit h url 0 30 = None ↔ ∀ j, (j < 30)%nat → satisfied h url j = false)
  ∧ (∀ i left, waited h url i (S left)
       = attemptTime h url i
         + (if satisfied h url i then 0 else 2000 + waited h url (S i) left))
  ∧ (generate h prompt (run_provider run) (run_model run) = inr code →
     LLMClient.validateCode code = inr tt →
     outcome (built h run w code) = inr c →
     (firstHit h url 0 30 = None →
        outcome (RunManager.attempt h run prompt w)
          = inl "Server failed health check after 30 attempts"
        ∧ ((∀ n, delivered h n = true) → is_Some (record (run_id run) w) →
           ∃ r, record (run_id run) (final (RunManager.processRun h run prompt w))
                  = Some r
             ∧ run_status r = failed
             ∧ run_error r = Some "Server failed health check after 30 attempts"))
     ∧ (is_Some (firstHit h url 0 30) →
        outcome (RunManager.processRun h run prompt w) = inr tt
        ∧ registry (final (RunManager.processRun h run prompt w)) !! run_id run
          = Some url
        ∧ ((∀ n, delivered h n = true) → is_Some (record (run_id run) w) →
           run_status <$> record (run_id run)
                            (final (RunManager.processRun h run prompt w))
           = Some ready))).
Proof.
  intros url. split.
  { intros w0. unfold RunManager.waitForHealthyUrl.
    destruct (waitLoop_run h url 30 0 w0) as (tr & Hrun & _). by exists tr. }
  split; [intros k; apply firstHit_iff|]. split.
  { rewrite firstHit_None. split; intros Hall j Hj; apply Hall; lia. }
  split; [done|].
  intros Hgen Hval Hbuilt.
  pose proof (attempt_course h run prompt w) as Hcourse.
  assert (Hpath :
    (firstHit h url 0 30 = None
     ∧ outcome (RunManager.attempt h run prompt w)
       = inl "Server failed health check after 30 attempts")
    ∨ (is_Some (firstHit h url 0 30)
       ∧ outcome (RunManager.attempt h run prompt w) = inr tt
       ∧ final (RunManager.attempt h run prompt w) = readyAt h run w code c)).
  { inversion Hcourse as
      [e' Hgen' Ho Hf | code' e' Hgen' Hval' Ho Hf | code' e' Hgen' Hval' Hb Ho Hf
      | code' c' Hgen' Hval' Hb Hhit Ho Hf | code' c' Hgen' Hval' Hb Hhit Ho Hf];
      rewrite Hgen in Hgen'; try discriminate;
      injection Hgen' as <-; rewrite Hval in Hval'; try discriminate;
      rewrite Hbuilt in Hb; try discriminate; injection Hb as <-.
    - by left.
    - right. by repeat split. }
  split.
  - intros Hnone. destruct Hpath as [[_ Hfail] | [Hsome _]].
    2:{ unfold url in *. rewrite Hnone in Hsome. by destruct Hsome. }
    split; [done|]. intros Hdel Hknown.
    destruct (failure_published h run prompt w _ Hfail (Hdel _) Hknown)
      as (_ & r & Hr & Hst & Herr & _).
    by exists r.
  - intros Hsome. destruct Hpath as [[Hnone _] | (_ & Hok & Hfinal)].
    1:{ unfold url in *. rewrite Hnone in Hsome. by destruct Hsome. }
    assert (Hproc : RunManager.processRun h run prompt w
                    = RunManager.attempt h run prompt w).
    { unfold RunManager.processRun, try_catch. cbv zeta. by rewrite Hok. }
    rewrite Hproc, Hfinal. split; [done|]. unfold readyAt.
    pose proof (patched_frame h (run_id run)
      (mkUpdate (Some ready) None None None None None
         (Some (clock (registeredAt h run w code c))))
      (registeredAt h run w code c)) as (_ & _ & _ & _ & _ & Hreg).
    split.
    + rewrite Hreg. unfold registeredAt. wsimpl. apply lookup_insert_eq.
    + intros Hdel Hknown.
      destruct (known_registeredAt h run w code c Hknown) as [r Hr].
      destruct (patched_record h (run_id run)
        (mkUpdate (Some ready) None None None None None
           (Some (clock (registeredAt h run w code c))))
        (registeredAt h run w code c) r Hr) as [_ Hmerged].
      by rewrite (Hmerged (Hdel _)).
Qed.

Lemma C5_health_probe_witness :
  outcome (RunManager.processRun Sample.host Sample.run Sample.prompt Sample.world)
  = inr tt.
Proof.
  pose proof (C5_health_probe Sample.host Sample.run Sample.prompt Sample.world
                [("app/page.tsx", Sample.page)]
                (mkDockerContainer "4f2a" "id1" (Docker.Num 32768)
                   "http://localhost:32768")) as (_ & _ & _ & _ & Hrun).
  assert (Hbuilt : outcome (built Sample.host Sample.run Sample.world
                              [("app/page.tsx", Sample.page)])
                   = inr (mkDockerContainer "4f2a" "id1" (Docker.Num 32768)
                            "http://localhost:32768"))
    by (vm_compute; reflexivity).
  destruct (Hrun eq_refl eq_refl Hbuilt) as [_ Hready].
  apply Hready. vm_compute. by eexists.
Defined.

(** ** Killing a run *)

Section KillFacts.

(** The kill endpoint, read off the runtime's [killRun]. *)
Lemma deleteRun_run (h : Host) (runId : string) (w : World) :
  ∃ o w', DockerRuntime.killRun h runId w = mkResult o w' []
    ∧ match o with
      | inr _ =>
          ∃ tr, Server.deleteRun h runId w
            = mkResult (inr Server.Success)
                (with_registry (GatewayRegistry.unregister runId)
                   (patched h runId (RunManager.statusUpdate terminated) w')) tr
      | inl e =>
          ∃ tr, Server.deleteRun h runId w
            = mkResult (inr (Server.Failure e)) w' tr
      end.
Proof.
  destruct (killRun_run h runId w) as (o & w' & Hk & _).
  exists o, w'. split; [done|].
  unfold Server.deleteRun, RunManager.killRun, RunManager.updateRunStatus.
  destruct o as [e|[]].
  - eexists. eapply catch_err; [|reflexivity].
    eapply bind_err. apply await_run.
    eapply catch_err; [|reflexivity].
    eapply bind_err. apply await_run. exact Hk.
  - eexists. eapply catch_ok.
    eapply bind_ok.
    { apply await_run. eapply catch_ok.
      eapply bind_ok; [apply await_run; exact Hk | apply updateRun_run]. }
    eapply bind_ok; reflexivity.
Qed.

End KillFacts.




(** ** More on the port allocator *)

Section PortCountFacts.
Import PortAllocator.

Lemma allocate_fails_iff (a : t) :
  allocate a = inl NoAvailablePorts ↔
  ∀ q, minPort a ≤ q ≤ maxPort a → q ∈ usedPorts a.
Proof.
  unfold allocate. destruct (scan _ _ _) as [p|] eqn:Hscan.
  - split; [done|]. intros Hall.
    apply scan_Some in Hscan as (Hr & Hfree & _).
    exfalso. apply Hfree, Hall. by apply span_range.
  - split; [|done]. intros _ q Hq.
    eapply scan_None; [exact Hscan|]. by apply span_range.
Qed.

Lemma allocate_Some (a : t) (p : Z) (a' : t) :
  allocate a = inr (p, a') →
  (minPort a ≤ p ≤ maxPort a) ∧ (p ∉ usedPorts a)
  ∧ (∀ q, minPort a ≤ q < p → q ∈ usedPorts a)
  ∧ a' = mk (minPort a) (maxPort a) ({[p]} ∪ usedPorts a).
Proof.
  unfold allocate. destruct (scan _ _ _) as [p0|] eqn:Hscan; [|done].
  intros [= <- <-]. apply scan_Some in Hscan as (Hr & Hfree & Hbelow).
  apply span_range in Hr. done.
Qed.

(** The ports of the range, as a set. *)
Lemma range_size (lo hi : Z) :
  size (list_to_set (C:=gset Z) (seqZ lo (hi - lo + 1))) = Z.to_nat (hi - lo + 1).
Proof. rewrite size_list_to_set by apply NoDup_seqZ. apply length_seqZ. Qed.

Lemma inRange_subseteq (a : t) :
  inRange a ↔ usedPorts a ⊆ list_to_set (seqZ (minPort a) (maxPort a - minPort a + 1)).
Proof.
  unfold inRange. split.
  - intros Hin p Hp. apply elem_of_list_to_set, elem_of_seqZ.
    specialize (Hin p Hp). lia.
  - intros Hsub p Hp. apply Hsub, elem_of_list_to_set, elem_of_seqZ in Hp. lia.
Qed.

Lemma inRange_count (a : t) :
  inRange a → minPort a ≤ maxPort a + 1 →
  0 ≤ getAvailableCount a
  ∧ (getAvailableCount a = 0 ↔ ∀ q, minPort a ≤ q ≤ maxPort a → q ∈ usedPorts a).
Proof.
  intros Hin Hne. pose proof (proj1 (inRange_subseteq a) Hin) as Hsub.
  pose proof (subseteq_size _ _ Hsub) as Hle.
  rewrite range_size in Hle. unfold getAvailableCount. split; [lia|]. split.
  - intros Hzero q Hq.
    assert (Heq : usedPorts a = list_to_set (seqZ (minPort a) (maxPort a - minPort a + 1))).
    { apply set_subseteq_size_eq; [done|]. rewrite range_size. lia. }
    rewrite Heq. apply elem_of_list_to_set, elem_of_seqZ. lia.
  - intros Hall.
    assert (Hsup : list_to_set (seqZ (minPort a) (maxPort a - minPort a + 1))
                   ⊆ usedPorts a).
    { intros q Hq. apply elem_of_list_to_set, elem_of_seqZ in Hq. apply Hall. lia. }
    apply subseteq_size in Hsup. rewrite range_size in Hsup. lia.
Qed.

End PortCountFacts.



Section PortSequenceFacts.
Import PortAllocator.

Lemma seqZ_set_S (lo : Z) (j : nat) :
  list_to_set (C:=gset Z) (seqZ lo (Z.of_nat (S j)))
  = {[lo + Z.of_nat j]} ∪ list_to_set (seqZ lo (Z.of_nat j)).
Proof.
  apply set_eq. intros x.
  rewrite elem_of_union, !elem_of_list_to_set, !elem_of_seqZ, elem_of_singleton.
  lia.
Qed.

(** With the first [j] ports of the range taken, [allocate] hands out the
    next one. *)
Lemma allocate_next (lo hi : Z) (j : nat) :
  lo + Z.of_nat j ≤ hi →
  allocate (mk lo hi (list_to_set (seqZ lo (Z.of_nat j))))
  = inr (lo + Z.of_nat j, mk lo hi (list_to_set (seqZ lo (Z.of_nat (S j))))).
Proof.
  intros Hroom.
  destruct (allocate (mk lo hi (list_to_set (seqZ lo (Z.of_nat j)))))
    as [[]|[p a']] eqn:Halloc.
  - exfalso. pose proof (proj1 (allocate_fails_iff _) Halloc (lo + Z.of_nat j)) as Hin.
    cbn in Hin. rewrite elem_of_list_to_set, elem_of_seqZ in Hin. lia.
  - apply allocate_Some in Halloc as (Hrange & Hfree & Hbelow & ->). cbn in *.
    rewrite elem_of_list_to_set, elem_of_seqZ in Hfree.
    assert (p = lo + Z.of_nat j) as ->.
    { destruct (decide (lo + Z.of_nat j < p)) as [Hlt|]; [|lia].
      specialize (Hbelow (lo + Z.of_nat j)).
      rewrite elem_of_list_to_set, elem_of_seqZ in Hbelow. lia. }
    by rewrite seqZ_set_S.
Qed.

Lemma allocateMany_from (lo hi : Z) (k : nat) :
  ∀ j : nat, lo + Z.of_nat j + Z.of_nat k ≤ hi + 1 →
    allocateMany k (mk lo hi (list_to_set (seqZ lo (Z.of_nat j))))
    = inr (seqZ (lo + Z.of_nat j) (Z.of_nat k),
           mk lo hi (list_to_set (seqZ lo (Z.of_nat (j + k))))).
Proof.
  induction k as [|k IH]; intros j Hroom.
  - cbn [allocateMany]. by rewrite Nat.add_0_r.
  - cbn [allocateMany]. rewrite allocate_next by lia.
    rewrite IH by lia. rewrite (seqZ_cons _ (Z.of_nat (S k))) by lia.
    replace (Z.succ (lo + Z.of_nat j)) with (lo + Z.of_nat (S j)) by lia.
    replace (Z.pred (Z.of_nat (S k))) with (Z.of_nat k) by lia.
    by replace (S j + k)%nat with (j + S k)%nat by lia.
Qed.

End PortSequenceFacts.

(** X2. A new allocator for the range [[lo, hi]] hands out [lo], [lo + 1],
    ... in this order: [k] allocations in a row succeed with these ports as
    long as [k] does not exceed the size of the range, and once the range is
    used up the next allocation throws. *)
Theorem X2_ports_in_order (lo hi : Z) (k : nat) :
  Z.of_nat k ≤ hi - lo + 1 →
  PortAllocator.allocateMany k (PortAllocator.create lo hi)
  = inr (seqZ lo (Z.of_nat k),
         PortAllocator.mk lo hi (list_to_set (seqZ lo (Z.of_nat k))))
  ∧ (Z.of_nat k = hi - lo + 1 →
     PortAllocator.allocateMany (S k) (PortAllocator.create lo hi)
     = inl PortAllocator.NoAvailablePorts).
Proof.
  intros Hk.
  assert (Hmany : PortAllocator.allocateMany k (PortAllocator.create lo hi)
    = inr (seqZ lo (Z.of_nat k),
           PortAllocator.mk lo hi (list_to_set (seqZ lo (Z.of_nat k))))).
  { pose proof (allocateMany_from lo hi k 0) as H. cbn [Z.of_nat] in H.
    rewrite Z.add_0_r in H. apply H. lia. }
  split; [exact Hmany|]. intros Hfull.
  destruct k as [|k].
  - cbn [PortAllocator.allocateMany].
    assert (PortAllocator.allocate (PortAllocator.create lo hi)
            = inl PortAllocator.NoAvailablePorts) as ->; [|done].
    apply allocate_fails_iff. cbn. intros q ?. lia.
  - replace (S (S k)) with (S k + 1)%nat by lia.
    assert (Hsplit : ∀ n m a, PortAllocator.allocateMany (n + m) a
      = match PortAllocator.allocateMany n a with
        | inl e => inl e
        | inr (ps, a1) =>
            match PortAllocator.allocateMany m a1 with
            | inl e => inl e
            | inr (qs, a2) => inr (ps ++ qs, a2)
            end
        end).
    { clear. induction n as [|n IH]; intros m a.
      - cbn. by destruct (PortAllocator.allocateMany m a) as [|[]].
      - cbn [Nat.add PortAllocator.allocateMany].
        destruct (PortAllocator.allocate a) as [|[p a1]]; [done|].
        rewrite IH. destruct (PortAllocator.allocateMany n a1) as [|[ps a2]]; [done|].
        by destruct (PortAllocator.allocateMany m a2) as [|[]]. }
    rewrite Hsplit, Hmany. cbn [PortAllocator.allocateMany].
    assert (PortAllocator.allocate
              (PortAllocator.mk lo hi (list_to_set (seqZ lo (Z.of_nat (S k)))))
            = inl PortAllocator.NoAvailablePorts) as ->; [|done].
    apply allocate_fails_iff. cbn. intros q Hq.
    apply elem_of_list_to_set, elem_of_seqZ. lia.
Qed.

Lemma X2_ports_in_order_witness :
  PortAllocator.allocateMany 3 (PortAllocator.create 3001 4000)
  = inr ([3001; 3002; 3003],
         PortAllocator.mk 3001 4000 (list_to_set [3001; 3002; 3003])).
Proof.
  apply (X2_ports_in_order 3001 4000 3). lia.
Defined.

(** X3. A released port can be allocated again: after [release p] of an
    allocated port of the range, [allocate] succeeds with a port that is at
    most [p]; when every port below [p] is allocated it returns [p] itself
    and the allocator is as it was before the release. *)
Theorem X3_released_port_is_reused (a : PortAllocator.t) (p : Z) :
  p ∈ PortAllocator.usedPorts a →
  PortAllocator.minPort a ≤ p ≤ PortAllocator.maxPort a →
  ∃ q a', PortAllocator.allocate (PortAllocator.release p a) = inr (q, a')
    ∧ q ≤ p
    ∧ ((∀ r, PortAllocator.minPort a ≤ r < p → r ∈ PortAllocator.usedPorts a) →
       q = p ∧ a' = a).
Proof.
  intros Hused Hrange.
  destruct (PortAllocator.allocate (PortAllocator.release p a))
    as [[]|[q a']] eqn:Halloc.
  - exfalso. pose proof (proj1 (allocate_fails_iff _) Halloc p Hrange) as Hin.
    cbn in Hin. set_solver.
  - exists q, a'. split; [done|].
    apply allocate_Some in Halloc as (Hq & Hfree & Hbelow & ->). cbn in *.
    assert (Hle : q ≤ p).
    { destruct (decide (p < q)) as [Hlt|]; [|lia].
      assert (p ∈ PortAllocator.usedPorts a ∖ {[p]}) by (apply Hbelow; lia).
      set_solver. }
    split; [done|]. intros Hall.
    assert (q = p) as ->.
    { destruct (decide (q = p)) as [|Hne]; [done|]. exfalso. apply Hfree.
      apply elem_of_difference. split; [apply Hall; lia | set_solver]. }
    split; [done|]. destruct a as [lo hi used]. cbn in *. f_equal.
    apply set_eq. intros x. rewrite elem_of_union, elem_of_singleton, elem_of_difference,
      elem_of_singleton. destruct (decide (x = p)) as [->|]; naive_solver.
Qed.

Lemma X3_released_port_is_reused_witness :
  ∃ q a', PortAllocator.allocate
            (PortAllocator.release 3001 (PortAllocator.mk 3001 3003 {[3001; 3002]}))
          = inr (q, a') ∧ q ≤ 3001.
Proof.
  destruct (X3_released_port_is_reused
              (PortAllocator.mk 3001 3003 {[3001; 3002]}) 3001)
    as (q & a' & Halloc & Hle & _).
  - cbn. set_solver.
  - cbn. lia.
  - by exists q, a'.
Defined.
(** ** The store's sessions and runs *)

Section StoreFacts.
Import Store.
Context (nanoid : nat → string).

(** [createRuns] draws one identifier a model, in order, and stores the runs
    it returns. *)
Lemma createRuns_spec (sid : string) (now : Z) (models : list (ModelProvider * string)) :
  ∀ st, ∃ rs st', createRuns nanoid sid now models st = (rs, st')
    ∧ rs = imap (λ i pm, mkRun (nanoid (drawn st + i)) sid pm.2 pm.1 queued
                           None None None None now now None None) models
    ∧ sessions st' = sessions st
    ∧ drawn st' = (drawn st + length models)%nat
    ∧ runs st' = foldl (λ m r, <[run_id r := r]> m) (runs st) rs.
Proof.
  induction models as [|[provider model] models IH]; intros st.
  - exists [], st. cbn. by rewrite Nat.add_0_r.
  - cbn [createRuns].
    destruct (IH (mk (sessions st)
      (<[nanoid (drawn st) := mkRun (nanoid (drawn st)) sid model provider queued
           None None None None now now None None]> (runs st)) (S (drawn st))))
      as (rs & st' & -> & Hrs & Hsess & Hdrawn & Hruns).
    eexists _, st'. split; [reflexivity|]. cbn [drawn sessions runs] in *.
    split; [|split; [done|split; [cbn [length]; lia|]]].
    + cbn [imap fst snd]. rewrite (Nat.add_0_r (drawn st)). f_equal. rewrite Hrs. apply imap_ext.
      intros i pm _. cbn. by rewrite Nat.add_succ_r.
    + exact Hruns.
Qed.

Lemma stored_other (rs : list Run) (k : string) :
  ∀ m : gmap string Run, k ∉ map run_id rs →
    foldl (λ m r, <[run_id r := r]> m) m rs !! k = m !! k.
Proof.
  induction rs as [|r rs IH]; intros m Hk; [done|]. cbn.
  rewrite IH by set_solver. apply lookup_insert_ne. set_solver.
Qed.

Lemma stored_new (rs : list Run) (r : Run) :
  ∀ m : gmap string Run, NoDup (map run_id rs) → r ∈ rs →
    foldl (λ m r, <[run_id r := r]> m) m rs !! run_id r = Some r.
Proof.
  induction rs as [|r0 rs IH]; intros m Hnd Hin; [by apply elem_of_nil in Hin|].
  cbn in *. apply NoDup_cons in Hnd as [Hfresh Hnd].
  apply elem_of_cons in Hin as [->|Hin].
  - rewrite stored_other by done. apply lookup_insert_eq.
  - by apply IH.
Qed.

Lemma stored_Some (rs : list Run) (k : string) (r : Run) :
  ∀ m : gmap string Run,
    foldl (λ m r, <[run_id r := r]> m) m rs !! k = Some r →
    (r ∈ rs ∧ run_id r = k) ∨ ((k ∉ map run_id rs) ∧ m !! k = Some r).
Proof.
  induction rs as [|r0 rs IH]; intros m Hk.
  - right. split; [apply not_elem_of_nil | done].
  - cbn in Hk. destruct (IH _ Hk) as [[Hin Hid] | [Hnot Hm]].
    + left. split; [by apply elem_of_cons; right | done].
    + destruct (decide (run_id r0 = k)) as [Heq|Hne].
      * rewrite <- Heq, lookup_insert_eq in Hm. injection Hm as <-.
        left. split; [apply list_elem_of_here | done].
      * rewrite lookup_insert_ne in Hm by done. right.
        split; [|done]. cbn. set_solver.
Qed.

Lemma removed_lookup (l : list string) (k : string) :
  ∀ m : gmap string Run,
    foldl (λ rs runId, delete runId rs) m l !! k
    = if decide (k ∈ l) then None else m !! k.
Proof.
  induction l as [|x l IH]; intros m; cbn.
  - by rewrite decide_False by apply not_elem_of_nil.
  - rewrite IH. destruct (decide (k ∈ l)) as [Hin|Hnot].
    + by rewrite decide_True by (by apply elem_of_cons; right).
    + destruct (decide (x = k)) as [->|Hne].
      * rewrite decide_True by apply list_elem_of_here. apply lookup_delete_eq.
      * rewrite decide_False by set_solver. by apply lookup_delete_ne.
Qed.

(** The shape of what [createSession] returns and leaves behind. *)
Lemma createSession_spec (prompt : string) (now : Z)
    (models : list (ModelProvider * string)) (st : t) :
  let sid := nanoid (drawn st) in
  let rs := imap (λ i pm, mkRun (nanoid (S (drawn st) + i)) sid pm.2 pm.1 queued
                            None None None None now now None None) models in
  let session := mkSession sid prompt (map run_id rs) now now in
  createSession nanoid prompt now models st
  = (session, rs,
     mk (<[sid := session]> (sessions st))
        (foldl (λ m r, <[run_id r := r]> m) (runs st) rs)
        (S (drawn st) + length models)).
Proof.
  intros sid rs session. unfold createSession. cbv zeta.
  destruct (createRuns_spec (nanoid (drawn st)) now models
              (mk (sessions st) (runs st) (S (drawn st))))
    as (rs' & st' & -> & Hrs & Hsess & Hdrawn & Hruns).
  cbn [drawn sessions runs] in *. destruct st' as [s' r' d'].
  cbn [drawn sessions runs] in *. subst. reflexivity.
Qed.

Lemma new_ids (now : Z) (sid : string) (d : nat) (models : list (ModelProvider * string)) :
  map run_id (imap (λ i pm, mkRun (nanoid (d + i)) sid pm.2 pm.1 queued
                              None None None None now now None None) models)
  = map nanoid (seq d (length models)).
Proof.
  revert d. induction models as [|pm models IH]; intros d; [done|].
  cbn. rewrite Nat.add_0_r. f_equal. rewrite <- IH. f_equal.
  apply imap_ext. intros i x _. cbn. by rewrite Nat.add_succ_r.
Qed.

End StoreFacts.

Section ConsistencyFacts.
Import Store.
Context (nanoid : nat → string) `{!Inj (=) (=) nanoid}.

(** An identifier that has not been drawn yet is in use nowhere. *)
Lemma fresh_id (st : t) (i : nat) :
  consistent nanoid st → (drawn st ≤ i)%nat →
  runs st !! nanoid i = None ∧ sessions st !! nanoid i = None.
Proof.
  intros Hc Hi. split.
  - destruct (runs st !! nanoid i) as [r|] eqn:Hr; [|done].
    destruct (keys_drawn _ _ Hc (nanoid i)) as (j & Hj & Heq); [left; by eexists|].
    apply (inj nanoid) in Heq. lia.
  - destruct (sessions st !! nanoid i) as [s|] eqn:Hs; [|done].
    destruct (keys_drawn _ _ Hc (nanoid i)) as (j & Hj & Heq); [right; by eexists|].
    apply (inj nanoid) in Heq. lia.
Qed.

Lemma consistent_empty : consistent nanoid empty.
Proof.
  constructor; cbn.
  - by intros ? ? ?%lookup_empty_Some.
  - by intros ? ? ? ?%lookup_empty_Some.
  - by intros ? ? ?%lookup_empty_Some.
  - by intros ? ? ?%lookup_empty_Some.
  - by intros ? ? ?%lookup_empty_Some.
  - by intros ? [[? ?%lookup_empty_Some]|[? ?%lookup_empty_Some]].
Qed.

Lemma consistent_createSession (prompt : string) (now : Z)
    (models : list (ModelProvider * string)) (st : t) :
  consistent nanoid st →
  consistent nanoid (createSession nanoid prompt now models st).2.
Proof.
  intros Hc. rewrite createSession_spec. cbn [snd].
  set (sid := nanoid (drawn st)).
  set (rs := imap (λ i pm, mkRun (nanoid (S (drawn st) + i)) sid pm.2 pm.1 queued
                            None None None None now now None None) models).
  set (session := mkSession sid prompt (map run_id rs) now now).
  assert (Hids : map run_id rs = map nanoid (seq (S (drawn st)) (length models)))
    by apply new_ids.
  assert (Hnd : NoDup (map run_id rs)).
  { rewrite Hids. apply (NoDup_fmap_2 _), NoDup_seq. }
  assert (Hnew : ∀ rid, rid ∈ map run_id rs →
            runs st !! rid = None
            ∧ ∃ i, (i < S (drawn st) + length models)%nat ∧ nanoid i = rid).
  { intros rid Hin. rewrite Hids in Hin.
    apply list_elem_of_fmap in Hin as (j & -> & Hj). apply elem_of_seq in Hj.
    split; [apply fresh_id; [done | lia] | exists j; split; [lia | done]]. }
  assert (Hsid : sessions st !! sid = None) by (by apply fresh_id).
  assert (Hown : ∀ r, r ∈ rs → run_sessionId r = sid).
  { intros r Hin. apply elem_of_lookup_imap in Hin as (i & pm & -> & _). done. }
  constructor; cbn [sessions runs drawn].
  - intros sid' s Hs. destruct (decide (sid' = sid)) as [->|Hne].
    + rewrite lookup_insert_eq in Hs. by injection Hs as <-.
    + rewrite lookup_insert_ne in Hs by done. by eapply listed_once.
  - intros sid' s rid Hs Hrid. destruct (decide (sid' = sid)) as [->|Hne].
    + rewrite lookup_insert_eq in Hs. injection Hs as <-. cbn in Hrid.
      apply list_elem_of_fmap in Hrid as (r & -> & Hr). exists r.
      split; [by apply stored_new | by apply Hown].
    + rewrite lookup_insert_ne in Hs by done.
      destruct (listed_held _ _ Hc _ _ _ Hs Hrid) as (r & Hr & Hsession).
      exists r. split; [|done]. rewrite stored_other; [done|].
      intros Hin. destruct (Hnew _ Hin) as [Hnone _]. congruence.
  - intros rid r Hr. apply stored_Some in Hr as [[Hin Hid] | [Hnot Hold]].
    + exists session. rewrite (Hown _ Hin), lookup_insert_eq. split; [done|].
      cbn. rewrite <- Hid. by apply list_elem_of_fmap_2.
    + destruct (held_listed _ _ Hc _ _ Hold) as (s & Hs & Hin).
      exists s. split; [|done]. rewrite lookup_insert_ne; [done|].
      intros Heq. rewrite <- Heq in Hs. congruence.
  - intros rid r Hr. apply stored_Some in Hr as [[Hin Hid] | [Hnot Hold]]; [done|].
    by eapply run_keyed.
  - intros sid' s Hs. destruct (decide (sid' = sid)) as [->|Hne].
    + rewrite lookup_insert_eq in Hs. by injection Hs as <-.
    + rewrite lookup_insert_ne in Hs by done. by eapply session_keyed.
  - intros k [[r Hr] | [s Hs]].
    + apply stored_Some in Hr as [[Hin Hid] | [Hnot Hold]].
      * apply Hnew. rewrite <- Hid. by apply list_elem_of_fmap_2.
      * destruct (keys_drawn _ _ Hc k) as (i & Hi & Heq); [left; by eexists|].
        exists i. split; [lia | done].
    + destruct (decide (k = sid)) as [->|Hne].
      * exists (drawn st). split; [lia | done].
      * rewrite lookup_insert_ne in Hs by done.
        destruct (keys_drawn _ _ Hc k) as (i & Hi & Heq); [right; by eexists|].
        exists i. split; [lia | done].
Qed.

Lemma consistent_updateRun (runId : string) (u : RunUpdate) (now : Z) (st : t) :
  consistent nanoid st → consistent nanoid (updateRun runId u now st).2.
Proof.
  intros Hc. unfold updateRun. destruct (runs st !! runId) as [run|] eqn:Hrun; [|done].
  cbn [snd].
  assert (Hsess : ∀ sid s, alter (touch now) (run_sessionId run) (sessions st) !! sid = Some s →
            ∃ s0, sessions st !! sid = Some s0 ∧ session_runs s = session_runs s0
                  ∧ session_id s = session_id s0).
  { intros sid s Hs. destruct (decide (sid = run_sessionId run)) as [->|Hne].
    - rewrite lookup_alter_eq in Hs.
      destruct (sessions st !! run_sessionId run) as [s0|]; [|done].
      injection Hs as <-. by exists s0.
    - rewrite lookup_alter_ne in Hs by done. by exists s. }
  assert (Hback : ∀ sid s0, sessions st !! sid = Some s0 →
            ∃ s, alter (touch now) (run_sessionId run) (sessions st) !! sid = Some s
                 ∧ session_runs s = session_runs s0).
  { intros sid s0 Hs0. destruct (decide (sid = run_sessionId run)) as [->|Hne].
    - rewrite lookup_alter_eq, Hs0. by eexists.
    - rewrite lookup_alter_ne by done. by exists s0. }
  constructor; cbn [sessions runs drawn].
  - intros sid s Hs. destruct (Hsess _ _ Hs) as (s0 & Hs0 & -> & _).
    by eapply listed_once.
  - intros sid s rid Hs Hrid. destruct (Hsess _ _ Hs) as (s0 & Hs0 & Heq & _).
    rewrite Heq in Hrid.
    destruct (listed_held _ _ Hc _ _ _ Hs0 Hrid) as (r & Hr & Hsession).
    destruct (decide (rid = runId)) as [->|Hne].
    + rewrite lookup_insert_eq. eexists. split; [done|]. cbn. congruence.
    + rewrite lookup_insert_ne by done. by exists r.
  - intros rid r Hr. destruct (decide (rid = runId)) as [->|Hne].
    + rewrite lookup_insert_eq in Hr. injection Hr as <-. cbn.
      destruct (held_listed _ _ Hc _ _ Hrun) as (s0 & Hs0 & Hin).
      destruct (Hback _ _ Hs0) as (s & Hs & Heq). exists s. by rewrite Heq.
    + rewrite lookup_insert_ne in Hr by done.
      destruct (held_listed _ _ Hc _ _ Hr) as (s0 & Hs0 & Hin).
      destruct (Hback _ _ Hs0) as (s & Hs & Heq). exists s. by rewrite Heq.
  - intros rid r Hr. destruct (decide (rid = runId)) as [->|Hne].
    + rewrite lookup_insert_eq in Hr. injection Hr as <-. cbn.
      by eapply run_keyed.
    + rewrite lookup_insert_ne in Hr by done. by eapply run_keyed.
  - intros sid s Hs. destruct (Hsess _ _ Hs) as (s0 & Hs0 & _ & ->).
    by eapply session_keyed.
  - intros k [[r Hr] | [s Hs]].
    + apply (keys_drawn _ _ Hc). left.
      destruct (decide (k = runId)) as [->|Hne]; [by eexists|].
      rewrite lookup_insert_ne in Hr by done. by eexists.
    + apply (keys_drawn _ _ Hc). right.
      destruct (Hsess _ _ Hs) as (s0 & Hs0 & _). by eexists.
Qed.

Lemma consistent_deleteRun (runId : string) (st : t) :
  consistent nanoid st → consistent nanoid (deleteRun runId st).
Proof.
  intros Hc. unfold deleteRun. destruct (runs st !! runId) as [run|] eqn:Hrun; [|done].
  destruct (held_listed _ _ Hc _ _ Hrun) as (session & Hsession & Hlisted).
  rewrite Hsession.
  set (sid := run_sessionId run) in *.
  set (kept := filter (λ r, r ≠ runId) (session_runs session)).
  (* a run of another session is not the deleted one *)
  assert (Hother : ∀ sid' s rid, sessions st !! sid' = Some s → rid ∈ session_runs s →
            sid' ≠ sid → rid ≠ runId).
  { intros sid' s rid Hs Hrid Hne ->.
    destruct (listed_held _ _ Hc _ _ _ Hs Hrid) as (r & Hr & Hsid).
    rewrite Hrun in Hr. injection Hr as <-. done. }
  assert (Hkept_in : ∀ rid, rid ∈ kept ↔ rid ∈ session_runs session ∧ rid ≠ runId).
  { intros rid. unfold kept. rewrite list_elem_of_filter. tauto. }
  destruct (decide (length kept = 0%nat)) as [Hnone|Hsome].
  - apply nil_length_inv in Hnone.
    constructor; cbn [sessions runs drawn].
    + intros sid' s Hs. apply lookup_delete_Some in Hs as [_ Hs]. by eapply listed_once.
    + intros sid' s rid Hs Hrid. apply lookup_delete_Some in Hs as [Hne Hs].
      destruct (listed_held _ _ Hc _ _ _ Hs Hrid) as (r & Hr & Hsid).
      exists r. split; [|done]. rewrite lookup_delete_ne; [done|].
      intros <-. by eapply (Hother sid' s runId).
    + intros rid r Hr. apply lookup_delete_Some in Hr as [Hne Hr].
      destruct (held_listed _ _ Hc _ _ Hr) as (s & Hs & Hin).
      exists s. split; [|done]. rewrite lookup_delete_ne; [done|].
      intros Heq. rewrite <- Heq, Hsession in Hs. injection Hs as <-.
      assert (rid ∈ kept) as Hk by (by apply Hkept_in).
      rewrite Hnone in Hk. by apply elem_of_nil in Hk.
    + intros rid r Hr. apply lookup_delete_Some in Hr as [_ Hr]. by eapply run_keyed.
    + intros sid' s Hs. apply lookup_delete_Some in Hs as [_ Hs].
      by eapply session_keyed.
    + intros k [[r Hr] | [s Hs]]; apply (keys_drawn _ _ Hc).
      * left. apply lookup_delete_Some in Hr as [_ Hr]. by eexists.
      * right. apply lookup_delete_Some in Hs as [_ Hs]. by eexists.
  - constructor; cbn [sessions runs drawn].
    + intros sid' s Hs. destruct (decide (sid' = sid)) as [->|Hne].
      * rewrite lookup_insert_eq in Hs. injection Hs as <-. cbn.
        apply NoDup_filter. by eapply listed_once.
      * rewrite lookup_insert_ne in Hs by done. by eapply listed_once.
    + intros sid' s rid Hs Hrid. destruct (decide (sid' = sid)) as [->|Hne].
      * rewrite lookup_insert_eq in Hs. injection Hs as <-. cbn in Hrid.
        apply Hkept_in in Hrid as [Hrid Hne].
        destruct (listed_held _ _ Hc _ _ _ Hsession Hrid) as (r & Hr & Hsid).
        exists r. by rewrite lookup_delete_ne.
      * rewrite lookup_insert_ne in Hs by done.
        destruct (listed_held _ _ Hc _ _ _ Hs Hrid) as (r & Hr & Hsid).
        exists r. split; [|done]. rewrite lookup_delete_ne; [done|].
        intros <-. by eapply (Hother sid' s runId).
    + intros rid r Hr. apply lookup_delete_Some in Hr as [Hne Hr].
      destruct (held_listed _ _ Hc _ _ Hr) as (s & Hs & Hin).
      destruct (decide (run_sessionId r = sid)) as [Heq|Hne'].
      * rewrite Heq, lookup_insert_eq. eexists. split; [done|]. cbn.
        rewrite Heq, Hsession in Hs. injection Hs as <-. by apply Hkept_in.
      * rewrite lookup_insert_ne by done. by exists s.
    + intros rid r Hr. apply lookup_delete_Some in Hr as [_ Hr]. by eapply run_keyed.
    + intros sid' s Hs. destruct (decide (sid' = sid)) as [->|Hne].
      * rewrite lookup_insert_eq in Hs. injection Hs as <-. cbn.
        by eapply session_keyed.
      * rewrite lookup_insert_ne in Hs by done. by eapply session_keyed.
    + intros k [[r Hr] | [s Hs]]; apply (keys_drawn _ _ Hc).
      * left. apply lookup_delete_Some in Hr as [_ Hr]. by eexists.
      * right. destruct (decide (k = sid)) as [->|Hne]; [by eexists|].
        rewrite lookup_insert_ne in Hs by done. by eexists.
Qed.

Lemma consistent_deleteSession (sessionId : string) (st : t) :
  consistent nanoid st → consistent nanoid (deleteSession sessionId st).
Proof.
  intros Hc. unfold deleteSession.
  destruct (sessions st !! sessionId) as [session|] eqn:Hsession; [|done].
  assert (Hruns : ∀ rid r,
            foldl (λ rs runId, delete runId rs) (runs st) (session_runs session) !! rid
            = Some r ↔ runs st !! rid = Some r ∧ run_sessionId r ≠ sessionId).
  { intros rid r. rewrite removed_lookup. destruct (decide (rid ∈ session_runs session))
      as [Hin|Hnot].
    - split; [done|]. intros [Hr Hne].
      destruct (listed_held _ _ Hc _ _ _ Hsession Hin) as (r' & Hr' & Hsid). congruence.
    - split; [|by intros [? _]]. intros Hr. split; [done|]. intros Heq.
      destruct (held_listed _ _ Hc _ _ Hr) as (s & Hs & Hin).
      rewrite Heq, Hsession in Hs. by injection Hs as <-. }
  constructor; cbn [sessions runs drawn].
  - intros sid s Hs. apply lookup_delete_Some in Hs as [_ Hs]. by eapply listed_once.
  - intros sid s rid Hs Hrid. apply lookup_delete_Some in Hs as [Hne Hs].
    destruct (listed_held _ _ Hc _ _ _ Hs Hrid) as (r & Hr & Hsid).
    exists r. split; [|done]. apply Hruns. split; [done | congruence].
  - intros rid r Hr. apply Hruns in Hr as [Hr Hne].
    destruct (held_listed _ _ Hc _ _ Hr) as (s & Hs & Hin).
    exists s. by rewrite lookup_delete_ne.
  - intros rid r Hr. apply Hruns in Hr as [Hr _]. by eapply run_keyed.
  - intros sid s Hs. apply lookup_delete_Some in Hs as [_ Hs]. by eapply session_keyed.
  - intros k [[r Hr] | [s Hs]]; apply (keys_drawn _ _ Hc).
    + left. apply Hruns in Hr as [Hr _]. by eexists.
    + right. apply lookup_delete_Some in Hs as [_ Hs]. by eexists.
Qed.

End ConsistencyFacts.

Section StoreReadFacts.
Import Store.

Lemma elem_of_allRuns (st : t) (r : Run) :
  r ∈ allRuns st ↔ ∃ k, runs st !! k = Some r.
Proof.
  unfold allRuns. rewrite list_elem_of_fmap. split.
  - intros ([k r'] & -> & Hin). exists k. by apply elem_of_map_to_list.
  - intros [k Hk]. exists (k, r). split; [done|]. by apply elem_of_map_to_list.
Qed.

Lemma length_allRuns (st : t) : length (allRuns st) = size (runs st).
Proof. unfold allRuns. by rewrite length_fmap, length_map_to_list. Qed.

(** Every run has exactly one status. *)
Lemma status_partition (l : list Run) :
  length l
  = (length (filter (λ r, run_status r = generating) l)
     + sum_list (map (λ s, length (filter (λ r, run_status r = s) l)) reported))%nat.
Proof.
  induction l as [|r l IH]; [done|].
  unfold reported in *. cbn [map sum_list] in *. rewrite !filter_cons.
  unfold id in IH. destruct (run_status r); simpl; lia.
Qed.

(** The runs a consistent store lists for a session. *)
Lemma listed_runs (nanoid : nat → string) (st : t) (sid : string) (s : Session) :
  consistent nanoid st → sessions st !! sid = Some s →
  ∃ rl, map (λ runId, runs st !! runId) (session_runs s) = map Some rl
    ∧ map run_id rl = session_runs s
    ∧ Forall (λ r, run_sessionId r = sid) rl.
Proof.
  intros Hc Hs.
  assert (Hall : ∀ rid, rid ∈ session_runs s →
            ∃ r, runs st !! rid = Some r ∧ run_sessionId r = sid ∧ run_id r = rid).
  { intros rid Hrid. destruct (listed_held _ _ Hc _ _ _ Hs Hrid) as (r & Hr & Hsid).
    exists r. split; [done|]. split; [done|]. by eapply run_keyed. }
  induction (session_runs s) as [|rid l IH].
  - by exists [].
  - destruct (Hall rid) as (r & Hr & Hsid & Hid); [apply list_elem_of_here|].
    destruct IH as (rl & Hmap & Hids & Hown).
    { intros rid' Hin. apply Hall. by apply elem_of_cons; right. }
    exists (r :: rl). cbn. rewrite Hr, Hmap, Hid, Hids.
    split; [done|]. split; [done|]. by constructor.
Qed.

End StoreReadFacts.

Lemma created_read_back (nanoid : nat → string) (prompt : string)
    (now : Z) (models : list (ModelProvider * string)) (st : Store.t) :
  NoDup (map nanoid (seq (S (Store.drawn st)) (length models))) →
  let c := Store.createSession nanoid prompt now models st in
  session_prompt c.1.1 = prompt
  ∧ session_runs c.1.1 = map run_id c.1.2
  ∧ Forall2 (λ r pm, run_provider r = pm.1 ∧ run_model r = pm.2
                     ∧ run_status r = queued
                     ∧ run_sessionId r = session_id c.1.1
                     ∧ run_createdAt r = now ∧ run_error r = None)
      c.1.2 models
  ∧ Store.getSession (session_id c.1.1) c.2 = Some (c.1.1, map Some c.1.2)
  ∧ ∀ r, r ∈ c.1.2 → Store.getRun (run_id r) c.2 = Some r.
Proof.
  intros Hnd c. unfold c. rewrite createSession_spec. cbn [fst snd].
  set (sid := nanoid (Store.drawn st)).
  set (rs := imap (λ i pm, mkRun (nanoid (S (Store.drawn st) + i)%nat) sid pm.2 pm.1 queued
                            None None None None now now None None) models).
  assert (Hids : NoDup (map run_id rs)).
  { unfold rs. by rewrite new_ids. }
  assert (Hfind : ∀ r, r ∈ rs →
    foldl (λ m r, <[run_id r := r]> m) (Store.runs st) rs !! run_id r = Some r).
  { intros r Hr. by apply stored_new. }
  split; [done|]. split; [done|]. split; [|split].
  - apply Forall2_same_length_lookup_2; [unfold rs; by rewrite length_imap|].
    intros i r pm Hr Hpm. unfold rs in Hr. rewrite list_lookup_imap, Hpm in Hr.
    by injection Hr as <-.
  - unfold Store.getSession. cbn [Store.sessions Store.runs session_id session_runs].
    rewrite lookup_insert_eq. f_equal. f_equal. cbn [session_runs].
    generalize dependent (foldl (λ m r, <[run_id r := r]> m) (Store.runs st) rs).
    intros m Hfind. clear Hids. clearbody rs. induction rs as [|r rs' IH]; [done|].
    cbn [map]. rewrite Hfind by apply list_elem_of_here. f_equal.
    apply IH. intros r' Hr'. apply Hfind. by apply elem_of_cons; right.
  - intros r Hr. unfold Store.getRun. cbn [Store.runs]. by apply Hfind.
Qed.

(** X4. A session that was just created is read back as it was returned:
    [createSession] stores one [queued] run for each requested model, in the
    order of the request, and [getSession] and [getRun] find the session and
    each of its runs, provided the identifiers drawn for the runs are
    distinct. *)
Theorem X4_created_session_is_read_back (nanoid : nat → string) (prompt : string)
    (now : Z) (models : list (ModelProvider * string)) (st : Store.t)
    (session : Session) (rs : list Run) (st' : Store.t) :
  NoDup (map nanoid (seq (S (Store.drawn st)) (length models))) →
  Store.createSession nanoid prompt now models st = (session, rs, st') →
  session_prompt session = prompt
  ∧ session_runs session = map run_id rs
  ∧ Forall2 (λ r pm, run_provider r = pm.1 ∧ run_model r = pm.2
                     ∧ run_status r = queued
                     ∧ run_sessionId r = session_id session
                     ∧ run_createdAt r = now ∧ run_error r = None)
      rs models
  ∧ Store.getSession (session_id session) st' = Some (session, map Some rs)
  ∧ ∀ r, r ∈ rs → Store.getRun (run_id r) st' = Some r.
Proof.
  intros Hnd Heq. pose proof (created_read_back nanoid prompt now models st Hnd) as H.
  cbv zeta in H. by rewrite Heq in H.
Qed.

Lemma X4_created_session_is_read_back_witness :
  Store.getSession "id0" Sample.submitted.2
  = Some (Sample.submitted.1.1, map Some Sample.submitted.1.2).
Proof.
  refine (proj1 (proj2 (proj2 (proj2
    (X4_created_session_is_read_back Sample.nanoid Sample.prompt 0
       [(openai, "gpt-4o")] Store.empty
       Sample.submitted.1.1 Sample.submitted.1.2 Sample.submitted.2 _ _))))).
  - apply NoDup_singleton.
  - reflexivity.
Defined.

(** X5. The store's two maps stay consistent. If identifiers are never
    handed out twice, every operation of the store keeps this: each session
    lists each of its runs once, every listed run is held and names the
    session, every held run is listed by the session it names, and every
    record sits under its own identifier. An update is one of the fields
    the run manager sends: status, container, URL, error and times. *)
Theorem X5_store_stays_consistent (nanoid : nat → string) (st : Store.t) :
  Inj (=) (=) nanoid → Store.consistent nanoid st →
  (∀ prompt now models,
     Store.consistent nanoid (Store.createSession nanoid prompt now models st).2)
  ∧ (∀ runId u now, Store.consistent nanoid (Store.updateRun runId u now st).2)
  ∧ (∀ runId, Store.consistent nanoid (Store.deleteRun runId st))
  ∧ (∀ sessionId, Store.consistent nanoid (Store.deleteSession sessionId st))
  ∧ Store.consistent nanoid (Store.clear st)
  ∧ Store.consistent nanoid Store.empty.
Proof.
  intros Hinj Hc. split; [|split; [|split; [|split; [|split]]]].
  - intros. by apply consistent_createSession.
  - intros. by apply consistent_updateRun.
  - intros. by apply consistent_deleteRun.
  - intros. by apply consistent_deleteSession.
  - constructor; cbn.
    + by intros ? ? ?%lookup_empty_Some.
    + by intros ? ? ? ?%lookup_empty_Some.
    + by intros ? ? ?%lookup_empty_Some.
    + by intros ? ? ?%lookup_empty_Some.
    + by intros ? ? ?%lookup_empty_Some.
    + by intros ? [[? ?%lookup_empty_Some]|[? ?%lookup_empty_Some]].
  - apply consistent_empty.
Qed.

Lemma X5_store_stays_consistent_witness :
  Store.consistent Sample.nanoid Sample.submitted.2.
Proof.
  assert (Hinj : Inj (=) (=) Sample.nanoid).
  { intros i j Heq. unfold Sample.nanoid in Heq. cbn in Heq.
    injection Heq as Heq. by apply (inj pretty). }
  apply (X5_store_stays_consistent Sample.nanoid Store.empty Hinj
           (consistent_empty Sample.nanoid)).
Defined.

(** X6. In a consistent store [getSession] hands out no undefined run: the
    runs it lists are records of the store, one for each identifier of the
    session, all naming the session, and they are the runs
    [getRunsBySession] finds; for an unknown session [getRunsBySession]
    finds nothing. *)
Theorem X6_session_lists_its_runs (nanoid : nat → string) (st : Store.t)
    (sessionId : string) :
  Store.consistent nanoid st →
  match Store.getSession sessionId st with
  | Some (session, listed) =>
      ∃ rl, listed = map Some rl
        ∧ map run_id rl = session_runs session
        ∧ rl ≡ₚ Store.getRunsBySession sessionId st
  | None => Store.getRunsBySession sessionId st = []
  end.
Proof.
  intros Hc. unfold Store.getSession, Store.getRunsBySession.
  destruct (Store.sessions st !! sessionId) as [s|] eqn:Hs.
  - destruct (listed_runs nanoid st sessionId s Hc Hs) as (rl & Hmap & Hids & Hown).
    exists rl. split; [done|]. split; [done|].
    assert (Hheld : ∀ r, r ∈ rl → Store.runs st !! run_id r = Some r).
    { intros r Hr.
      assert (Hin : Some r ∈ map (λ runId, Store.runs st !! runId) (session_runs s)).
      { rewrite Hmap. by apply list_elem_of_fmap_2. }
      apply list_elem_of_fmap in Hin as (rid & Heq & Hrid).
      symmetry in Heq. by rewrite (Store.run_keyed _ _ Hc _ _ Heq). }
    apply NoDup_Permutation.
    + apply (NoDup_fmap_1 run_id). change (NoDup (map run_id rl)). rewrite Hids.
      by eapply Store.listed_once.
    + apply NoDup_filter. unfold Store.allRuns.
      apply (NoDup_fmap_1 run_id). rewrite <- list_fmap_compose.
      assert (Heq : (map_to_list (Store.runs st)).*1
                    = (run_id ∘ snd) <$> map_to_list (Store.runs st)).
      { apply list_fmap_ext. intros i [k r] Hkr%list_elem_of_lookup_2.
        apply elem_of_map_to_list in Hkr. cbn.
        by rewrite (Store.run_keyed _ _ Hc _ _ Hkr). }
      rewrite <- Heq. apply NoDup_fst_map_to_list.
    + intros r. rewrite list_elem_of_filter, elem_of_allRuns. split.
      * intros Hr. split; [by eapply (proj1 (Forall_forall _ _) Hown)|].
        exists (run_id r). by apply Hheld.
      * intros [Hsid [k Hk]].
        destruct (Store.held_listed _ _ Hc _ _ Hk) as (s' & Hs' & Hin).
        rewrite Hsid, Hs in Hs'. injection Hs' as <-.
        assert (Hsome : Some r ∈ map Some rl).
        { rewrite <- Hmap. apply list_elem_of_fmap. by exists k. }
        apply list_elem_of_fmap in Hsome as (r' & [= <-] & Hr'). done.
  - destruct (filter _ _) as [|r l] eqn:Hf; [done|].
    assert (Hin : r ∈ filter (λ run, run_sessionId run = sessionId) (Store.allRuns st)).
    { rewrite Hf. apply list_elem_of_here. }
    apply list_elem_of_filter in Hin as [Hsid Hr].
    apply elem_of_allRuns in Hr as [k Hk].
    destruct (Store.held_listed _ _ Hc _ _ Hk) as (s' & Hs' & _). congruence.
Qed.

Lemma X6_session_lists_its_runs_witness :
  ∃ rl, map Some Sample.submitted.1.2 = map Some rl
    ∧ map run_id rl = ["id1"]
    ∧ rl ≡ₚ Store.getRunsBySession "id0" Sample.submitted.2.
Proof.
  assert (Hinj : Inj (=) (=) Sample.nanoid).
  { intros i j Heq. unfold Sample.nanoid in Heq. cbn in Heq.
    injection Heq as Heq. by apply (inj pretty). }
  assert (Hc : Store.consistent Sample.nanoid Sample.submitted.2).
  { apply (consistent_createSession Sample.nanoid), consistent_empty. }
  exact (X6_session_lists_its_runs Sample.nanoid Sample.submitted.2 "id0" Hc).
Defined.

Section StoreDeleteFacts.
Import Store.

Lemma map_agree {A B} (f g : A → B) (l : list A) :
  (∀ x, x ∈ l → f x = g x) → map f l = map g l.
Proof.
  intros H. induction l as [|x l IH]; [done|]. cbn.
  rewrite H by apply list_elem_of_here. f_equal. apply IH.
  intros y Hy. apply H. by apply elem_of_cons; right.
Qed.

Lemma filter_nil_iff {A} (P : A → Prop) `{!∀ x, Decision (P x)} (l : list A) :
  filter P l = [] ↔ ∀ x, x ∈ l → ¬ P x.
Proof.
  split.
  - intros Hnil x Hx HP.
    assert (Hin : x ∈ filter P l) by (by apply list_elem_of_filter).
    rewrite Hnil in Hin. by apply elem_of_nil in Hin.
  - intros Hall. destruct (filter P l) as [|x l'] eqn:Hf; [done|].
    assert (Hin : x ∈ filter P l) by (rewrite Hf; apply list_elem_of_here).
    apply list_elem_of_filter in Hin as [HP Hx]. by destruct (Hall x Hx).
Qed.

(** A list without repetition that holds [x] and nothing else is [[x]]. *)
Lemma only_element {A} `{!EqDecision A} (x : A) (l : list A) :
  NoDup l → x ∈ l → filter (λ y, y ≠ x) l = [] → l = [x].
Proof.
  intros Hnd Hin Hnil. rewrite filter_nil_iff in Hnil.
  destruct l as [|a l]; [by apply elem_of_nil in Hin|].
  assert (a = x) as ->.
  { destruct (decide (a = x)) as [|Hne]; [done|].
    destruct (Hnil a); [apply list_elem_of_here | done]. }
  destruct l as [|b l]; [done|].
  apply NoDup_cons in Hnd as [Hfresh _].
  assert (b = x) as ->.
  { destruct (decide (b = x)) as [|Hne]; [done|].
    destruct (Hnil b); [apply elem_of_cons; right; apply list_elem_of_here | done]. }
  destruct Hfresh. apply list_elem_of_here.
Qed.

End StoreDeleteFacts.

(** X7. Deleting a run. In a consistent store, [deleteRun] of an unknown
    run changes nothing; of a known run it removes the record and nothing
    else of the runs, leaves every other session as it reads, and deletes
    the run's session exactly when the run was its only one; otherwise the
    session goes on with its other runs, in their order. *)
Theorem X7_delete_run (nanoid : nat → string) (st : Store.t) (runId : string) :
  Store.consistent nanoid st →
  match Store.getRun runId st with
  | None => Store.deleteRun runId st = st
  | Some run =>
      let st' := Store.deleteRun runId st in
      Store.getRun runId st' = None
      ∧ (∀ other, other ≠ runId → Store.getRun other st' = Store.getRun other st)
      ∧ (∀ sid, sid ≠ run_sessionId run →
           Store.getSession sid st' = Store.getSession sid st)
      ∧ ∃ session, Store.sessions st !! run_sessionId run = Some session
          ∧ if decide (session_runs session = [runId])
            then Store.sessions st' !! run_sessionId run = None
            else ∃ s', Store.sessions st' !! run_sessionId run = Some s'
                   ∧ session_runs s' = filter (λ r, r ≠ runId) (session_runs session)
                   ∧ session_runs s' ≠ []
                   ∧ session_prompt s' = session_prompt session
  end.
Proof.
  intros Hc. unfold Store.getRun, Store.deleteRun.
  destruct (Store.runs st !! runId) as [run|] eqn:Hrun; [|done].
  destruct (Store.held_listed _ _ Hc _ _ Hrun) as (session & Hsession & Hlisted).
  rewrite Hsession. cbv zeta.
  set (kept := filter (λ r, r ≠ runId) (session_runs session)).
  assert (Hruns : ∀ sid s, sid ≠ run_sessionId run → Store.sessions st !! sid = Some s →
            map (λ rid, delete runId (Store.runs st) !! rid) (session_runs s)
            = map (λ rid, Store.runs st !! rid) (session_runs s)).
  { intros sid s Hne Hs. apply map_agree. intros rid Hrid.
    apply lookup_delete_ne. intros <-.
    destruct (Store.listed_held _ _ Hc _ _ _ Hs Hrid) as (r & Hr & Hsid).
    rewrite Hrun in Hr. injection Hr as <-. done. }
  destruct (decide (length kept = 0%nat)) as [Hnone|Hsome].
  - apply nil_length_inv in Hnone. cbn [Store.runs Store.sessions].
    split; [apply lookup_delete_eq|].
    split; [intros other Hne; by apply lookup_delete_ne|]. split.
    + intros sid Hne. unfold Store.getSession. cbn [Store.runs Store.sessions].
      rewrite lookup_delete_ne by done.
      destruct (Store.sessions st !! sid) as [s|] eqn:Hs; [|done].
      by rewrite (Hruns sid s).
    + exists session. split; [done|].
      rewrite decide_True; [apply lookup_delete_eq|].
      apply only_element; [by eapply Store.listed_once | done | done].
  - cbn [Store.runs Store.sessions].
    split; [apply lookup_delete_eq|].
    split; [intros other Hne; by apply lookup_delete_ne|]. split.
    + intros sid Hne. unfold Store.getSession. cbn [Store.runs Store.sessions].
      rewrite lookup_insert_ne by done.
      destruct (Store.sessions st !! sid) as [s|] eqn:Hs; [|done].
      by rewrite (Hruns sid s).
    + exists session. split; [done|].
      rewrite decide_False.
      * rewrite lookup_insert_eq. eexists. split; [done|].
        split; [done|]. split; [|done]. cbn. fold kept. by destruct kept.
      * intros Heq. apply Hsome. unfold kept. rewrite Heq. cbn.
        by rewrite decide_False by (by intros ?).
Qed.

Lemma X7_delete_run_witness :
  Store.sessions (Store.deleteRun "id1" Sample.submitted.2) !! "id0" = None.
Proof.
  assert (Hinj : Inj (=) (=) Sample.nanoid).
  { intros i j Heq. unfold Sample.nanoid in Heq. cbn in Heq.
    injection Heq as Heq. by apply (inj pretty). }
  assert (Hc : Store.consistent Sample.nanoid Sample.submitted.2).
  { apply (consistent_createSession Sample.nanoid), consistent_empty. }
  pose proof (X7_delete_run Sample.nanoid Sample.submitted.2 "id1" Hc) as H.
  assert (Hrun : Store.getRun "id1" Sample.submitted.2 = Some Sample.run)
    by (vm_compute; reflexivity).
  rewrite Hrun in H. destruct H as (_ & _ & _ & session & Hs & Hlast).
  assert (Hsession : Store.sessions Sample.submitted.2 !! "id0"
                     = Some Sample.submitted.1.1) by (vm_compute; reflexivity).
  change (run_sessionId Sample.run) with "id0" in Hs, Hlast.
  rewrite Hsession in Hs. injection Hs as <-.
  rewrite decide_True in Hlast by reflexivity. exact Hlast.
Defined.

(** X8. Deleting a session. In a consistent store, [deleteSession] of an
    unknown session changes nothing; of a known session it removes the
    session and every run that names it, and leaves every other session and
    every other run as they were. *)
Theorem X8_delete_session (nanoid : nat → string) (st : Store.t) (sessionId : string) :
  Store.consistent nanoid st →
  match Store.sessions st !! sessionId with
  | None => Store.deleteSession sessionId st = st
  | Some session =>
      let st' := Store.deleteSession sessionId st in
      Store.getSession sessionId st' = None
      ∧ Store.getRunsBySession sessionId st' = []
      ∧ (∀ rid, rid ∈ session_runs session → Store.getRun rid st' = None)
      ∧ (∀ rid r, Store.getRun rid st = Some r → run_sessionId r ≠ sessionId →
           Store.getRun rid st' = Some r)
      ∧ (∀ sid, sid ≠ sessionId → Store.getSession sid st' = Store.getSession sid st)
  end.
Proof.
  intros Hc. unfold Store.deleteSession.
  destruct (Store.sessions st !! sessionId) as [session|] eqn:Hsession; [|done].
  cbv zeta. unfold Store.getSession, Store.getRun, Store.getRunsBySession.
  cbn [Store.runs Store.sessions].
  assert (Hruns : ∀ rid r,
            foldl (λ rs runId, delete runId rs) (Store.runs st) (session_runs session) !! rid
            = Some r ↔ Store.runs st !! rid = Some r ∧ run_sessionId r ≠ sessionId).
  { intros rid r. rewrite removed_lookup.
    destruct (decide (rid ∈ session_runs session)) as [Hin|Hnot].
    - split; [done|]. intros [Hr Hne].
      destruct (Store.listed_held _ _ Hc _ _ _ Hsession Hin) as (r' & Hr' & Hsid).
      congruence.
    - split; [|by intros [? _]]. intros Hr. split; [done|]. intros Heq.
      destruct (Store.held_listed _ _ Hc _ _ Hr) as (s & Hs & Hin).
      rewrite Heq, Hsession in Hs. by injection Hs as <-. }
  split; [by rewrite lookup_delete_eq|]. split; [|split; [|split]].
  - apply filter_nil_iff. intros r Hr Hsid.
    apply elem_of_allRuns in Hr as [k Hk]. cbn [Store.runs] in Hk.
    apply Hruns in Hk as [_ Hne]. done.
  - intros rid Hrid. rewrite removed_lookup. by rewrite decide_True.
  - intros rid r Hr Hne. by apply Hruns.
  - intros sid Hne. rewrite lookup_delete_ne by done.
    destruct (Store.sessions st !! sid) as [s|] eqn:Hs; [|done].
    f_equal. f_equal. apply map_agree. intros rid Hrid.
    destruct (Store.listed_held _ _ Hc _ _ _ Hs Hrid) as (r & Hr & Hsid).
    rewrite Hr. apply Hruns. split; [done | congruence].
Qed.

Lemma X8_delete_session_witness :
  Store.getRunsBySession "id0" (Store.deleteSession "id0" Sample.submitted.2) = [].
Proof.
  assert (Hinj : Inj (=) (=) Sample.nanoid).
  { intros i j Heq. unfold Sample.nanoid in Heq. cbn in Heq.
    injection Heq as Heq. by apply (inj pretty). }
  assert (Hc : Store.consistent Sample.nanoid Sample.submitted.2).
  { apply (consistent_createSession Sample.nanoid), consistent_empty. }
  pose proof (X8_delete_session Sample.nanoid Sample.submitted.2 "id0" Hc) as H.
  assert (Hsession : Store.sessions Sample.submitted.2 !! "id0"
                     = Some Sample.submitted.1.1) by (vm_compute; reflexivity).
  rewrite Hsession in H. by destruct H as (_ & H & _).
Defined.

(** X9. The statistics leave out the runs that are being generated:
    [getStats] counts every run in [totalRuns], its breakdown by status has
    an entry for each of nine statuses and none for [generating], and the
    entries add up to [totalRuns] less the number of runs in that status. *)
Theorem X9_stats_leave_out_generating (st : Store.t) :
  let stats := Store.getStats st in
  map fst (Store.runsByStatus stats) = Store.reported
  ∧ (generating ∉ Store.reported)
  ∧ (∀ status n, (status, n) ∈ Store.runsByStatus stats →
       n = length (Store.getRunsByStatus status st))
  ∧ Store.totalRuns stats
    = (length (Store.getRunsByStatus generating st)
       + sum_list (map snd (Store.runsByStatus stats)))%nat
  ∧ Store.totalSessions stats = size (Store.sessions st).
Proof.
  cbv zeta. unfold Store.getStats. cbn [Store.runsByStatus Store.totalRuns
    Store.totalSessions].
  split; [done|]. split.
  { unfold Store.reported. rewrite !elem_of_cons, elem_of_nil. naive_solver. }
  split.
  { intros status n Hin. apply list_elem_of_fmap in Hin as (s & [= -> ->] & _). done. }
  split; [|done].
  rewrite <- length_allRuns. unfold Store.getRunsByStatus.
  rewrite (status_partition (Store.allRuns st)). f_equal.
Qed.

(** X10. Updating a run over HTTP. A PATCH for an unknown run is answered
    404 and leaves the store as it was; a body that cannot be read is
    answered 500. A PATCH for a known run is answered with the merged
    record, which a GET then returns; the merge keeps the run's identity and
    every field the update leaves out, and no other run changes. The update
    is one of the fields the run manager sends: status, container, URL,
    error and times. *)
Theorem X10_run_patch (runId : string) (u : RunUpdate) (now : Z) (st : Store.t) :
  Runs.PATCH runId None now st = (Runs.ServerError "Failed to update run", st)
  ∧ match Store.getRun runId st with
    | None => Runs.PATCH runId (Some u) now st = (Runs.NotFound "Run not found", st)
              ∧ Runs.GET runId st = Runs.NotFound "Run not found"
    | Some run =>
        let updated := Store.merge run u now in
        let st' := (Runs.PATCH runId (Some u) now st).2 in
        (Runs.PATCH runId (Some u) now st).1 = Runs.Found updated
        ∧ Runs.GET runId st' = Runs.Found updated
        ∧ (∀ other, other ≠ runId → Runs.GET other st' = Runs.GET other st)
        ∧ run_id updated = run_id run
        ∧ run_sessionId updated = run_sessionId run
        ∧ run_model updated = run_model run
        ∧ run_provider updated = run_provider run
        ∧ run_createdAt updated = run_createdAt run
        ∧ run_updatedAt updated = now
        ∧ (upd_status u = None → run_status updated = run_status run)
        ∧ (upd_internalUrl u = None → run_internalUrl updated = run_internalUrl run)
        ∧ (upd_error u = None → run_error updated = run_error run)
    end.
Proof.
  split; [done|]. unfold Runs.PATCH, Runs.GET, Store.getRun, Store.updateRun.
  destruct (Store.runs st !! runId) as [run|] eqn:Hrun.
  - cbn [fst snd Store.runs]. rewrite lookup_insert_eq.
    split; [done|]. split; [done|]. split.
    { intros other Hne. by rewrite lookup_insert_ne. }
    repeat split; try done; cbn; by intros ->.
  - done.
Qed.

(** ** More on session creation *)

Section RequestFacts.
Import Sessions.

(** What an accepted request was read from. *)
Lemma safeParse_request (body : json) (req : request) :
  safeParse body = inr req →
  ∃ members items, body = JObj members
    ∧ obj_get "prompt" members = Some (JStr (req_prompt req))
    ∧ (10 ≤ String.length (req_prompt req))%nat
    ∧ obj_get "models" members = Some (JArr items)
    ∧ length (req_models req) = length items
    ∧ (1 ≤ length items ≤ 6)%nat.
Proof.
  unfold safeParse. destruct body; try done.
  pose proof (parse_prompt_spec (obj_get "prompt" members)) as Hp.
  pose proof (parse_models_spec (obj_get "models" members)) as Hm.
  destruct (parse_prompt _) as [i1 p]. destruct (parse_models _) as [i2 ms].
  destruct i1 as [|e1 i1]; [|by destruct p, ms].
  destruct Hp as (s & Hs & Hlen & ->).
  destruct i2 as [|e2 i2]; [|by destruct ms].
  destruct Hm as (items & es & Hitems & Hn & _ & -> & Hes).
  cbn. intros [= <-]. exists members, items. cbn. by rewrite Hs, Hitems.
Qed.

Lemma populated_createSession (nanoid : nat → string) (prompt : string) (now : Z)
    (models : list (ModelProvider * string)) (st : Store.t) :
  models ≠ [] → Store.populated st →
  Store.populated (Store.createSession nanoid prompt now models st).2.
Proof.
  intros Hne Hp. rewrite createSession_spec. cbn [snd].
  intros sid s Hs. cbn [Store.sessions] in Hs.
  destruct (decide (sid = nanoid (Store.drawn st))) as [->|Hother].
  - rewrite lookup_insert_eq in Hs. injection Hs as <-. cbn.
    destruct models; [done|]. done.
  - rewrite lookup_insert_ne in Hs by done. by eapply Hp.
Qed.

End RequestFacts.





(** ** Where the overlay lands *)

Section PathFacts.
Import Path.

Lemma append_assoc (a b c : string) : (a +:+ b) +:+ c = a +:+ (b +:+ c).
Proof.
  induction a as [|x a IH]; [done|].
  change (String x ((a +:+ b) +:+ c) = String x (a +:+ (b +:+ c))). by rewrite IH.
Qed.

Lemma append_empty (a : string) : a +:+ EmptyString = a.
Proof.
  induction a as [|x a IH]; [done|].
  change (String x (a +:+ EmptyString) = String x a). by rewrite IH.
Qed.

Lemma prefix_append (a b : string) : String.prefix a (a +:+ b) = true.
Proof.
  induction a as [|x a IH]; [by destruct b|].
  change (String x a +:+ b) with (String x (a +:+ b)). cbn [String.prefix].
  by destruct (Ascii.ascii_dec x x).
Qed.

Lemma split_nonempty (s : string) : split s ≠ [].
Proof.
  destruct s as [|c s]; [done|]. cbn.
  destruct (decide (c = slash)); [done|]. by destruct (split s).
Qed.

(** Splitting a string glued with a slash gives the segments of the parts. *)
Lemma split_glued (a b : string) :
  split (a +:+ "/" +:+ b) = split a ++ split b.
Proof.
  induction a as [|c a IH]; [done|].
  change (String c a +:+ "/" +:+ b) with (String c (a +:+ "/" +:+ b)).
  cbn [split]. rewrite IH. destruct (decide (c = slash)); [done|].
  pose proof (split_nonempty a). by destruct (split a).
Qed.

Lemma unsplit_split (s : string) : unsplit (split s) = s.
Proof.
  induction s as [|c s IH]; [done|]. cbn [split].
  destruct (decide (c = slash)) as [->|Hne].
  - pose proof (split_nonempty s). destruct (split s) as [|seg segs]; [done|].
    change (unsplit (EmptyString :: seg :: segs))
      with (EmptyString +:+ "/" +:+ unsplit (seg :: segs)).
    by rewrite IH.
  - pose proof (split_nonempty s). destruct (split s) as [|seg segs]; [done|].
    destruct segs as [|seg' segs].
    + cbn in *. by rewrite IH.
    + change (unsplit (String c seg :: seg' :: segs))
        with (String c (seg +:+ "/" +:+ unsplit (seg' :: segs))).
      by rewrite <- IH.
Qed.

Lemma unsplit_app (l1 l2 : list string) :
  l1 ≠ [] → l2 ≠ [] → unsplit (l1 ++ l2) = unsplit l1 +:+ "/" +:+ unsplit l2.
Proof.
  intros H1 H2. induction l1 as [|a l1 IH]; [done|].
  destruct l1 as [|b l1].
  - cbn. by destruct l2.
  - change (unsplit ((a :: b :: l1) ++ l2))
      with (a +:+ "/" +:+ unsplit ((b :: l1) ++ l2)).
    rewrite IH by done.
    change (unsplit (a :: b :: l1)) with (a +:+ "/" +:+ unsplit (b :: l1)).
    by rewrite !append_assoc.
Qed.

(** Without [..] the normalisation only drops the empty segments and the
    dots. *)
Lemma normalizeSegments_plain (allowAboveRoot : bool) (segs : list string) :
  ∀ stack, ".." ∉ segs →
    normalizeSegments allowAboveRoot stack segs
    = reverse stack ++ filter (λ s, ¬ (s = EmptyString ∨ s = ".")) segs.
Proof.
  induction segs as [|seg segs IH]; intros stack Hup.
  - cbn. by rewrite app_nil_r.
  - cbn [normalizeSegments]. rewrite filter_cons.
    destruct (decide (seg = EmptyString ∨ seg = ".")) as [Hdrop|Hkeep].
    + rewrite (decide_False (P := ¬ _)) by tauto. apply IH. set_solver.
    + rewrite (decide_True (P := ¬ _)) by done.
      rewrite (decide_False (P := seg = "..")) by set_solver.
      rewrite IH by set_solver. rewrite reverse_cons, <- app_assoc. done.
Qed.

(** A directory given by its clean absolute path: it starts at the root and
    names at least one segment, none of them empty, [.] or [..]. *)
Lemma join_within (dir p : string) (base : list string) :
  split dir = EmptyString :: base → base ≠ [] →
  Forall (λ s, s ≠ EmptyString ∧ s ≠ "." ∧ s ≠ "..") base →
  ".." ∉ split p →
  FS.within dir (join dir p) = true.
Proof.
  intros Hdir Hbase Hclean Hup.
  assert (Hd : dir = "/" +:+ unsplit base).
  { rewrite <- (unsplit_split dir), Hdir. by destruct base. }
  assert (Hne : dir ≠ EmptyString) by (by rewrite Hd).
  assert (Habs : ∀ s, isAbsolute (dir +:+ s) = true) by (by rewrite Hd).
  unfold join. rewrite (decide_False (P := dir = EmptyString)) by done.
  set (rest := if decide (p = EmptyString) then [] else split p).
  set (joined := if decide (p = EmptyString) then dir else dir +:+ "/" +:+ p).
  assert (Hsegs : split joined = EmptyString :: base ++ rest).
  { unfold joined, rest. destruct (decide (p = EmptyString)).
    - by rewrite Hdir, app_nil_r.
    - by rewrite split_glued, Hdir. }
  assert (Hrest : ".." ∉ rest).
  { unfold rest. destruct (decide (p = EmptyString)); [apply not_elem_of_nil | done]. }
  assert (Hjne : joined ≠ EmptyString).
  { unfold joined. destruct (decide (p = EmptyString)); [done|]. by rewrite Hd. }
  assert (Hjabs : isAbsolute joined = true).
  { unfold joined. destruct (decide (p = EmptyString)); [|apply Habs].
    by rewrite <- (Habs EmptyString), append_empty. }
  rewrite (decide_False (P := joined = EmptyString)) by done.
  unfold normalize. rewrite (decide_False (P := joined = EmptyString)) by done.
  rewrite Hjabs. cbn [negb]. rewrite Hsegs.
  rewrite normalizeSegments_plain.
  2:{ rewrite elem_of_cons, elem_of_app. intros [|[Hin|]]; [done| |done].
      by destruct (proj1 (Forall_forall _ _) Hclean _ Hin) as (_ & _ & ?). }
  rewrite reverse_nil, app_nil_l, filter_cons.
  rewrite (decide_False (P := ¬ _)) by (intros H; apply H; by left).
  rewrite filter_app.
  assert (Hkeep : filter (λ s, ¬ (s = EmptyString ∨ s = ".")) base = base).
  { clear -Hclean. induction Hclean as [|s base [? [? ?]] _ IH]; [done|].
    rewrite filter_cons, decide_True by tauto. by rewrite IH. }
  rewrite Hkeep.
  set (kept := filter (λ s, ¬ (s = EmptyString ∨ s = ".")) rest).
  assert (Hbody : unsplit (base ++ kept) ≠ EmptyString).
  { destruct base as [|b base]; [done|].
    apply Forall_cons in Hclean as [[Hb _] _].
    cbn [app]. destruct (base ++ kept); cbn; [done|]. by destruct b. }
  rewrite (decide_False (P := unsplit (base ++ kept) = EmptyString)) by done.
  unfold FS.within, FS.below. apply orb_true_iff.
  clearbody kept. destruct kept as [|k kept'].
  - rewrite app_nil_r. destruct (endsWithSlash joined).
    + right. rewrite <- append_assoc, <- Hd.
      pose proof (prefix_append (dir +:+ "/") EmptyString) as Hp.
      by rewrite append_empty in Hp.
    + left. apply bool_decide_eq_true. by rewrite <- Hd.
  - right. rewrite unsplit_app by done.
    destruct (endsWithSlash joined).
    + rewrite <- !append_assoc, <- Hd, !append_assoc, <- (append_assoc dir "/").
      apply prefix_append.
    + rewrite <- !append_assoc, <- Hd, !append_assoc, <- (append_assoc dir "/").
      apply prefix_append.
Qed.

End PathFacts.

Section OverlayFacts.
Import DockerRuntime.

Lemma copyTree_other (template : list (string * string)) (dir path : string) :
  ∀ fs0, path ∉ map (λ kv, dir +:+ "/" +:+ kv.1) template →
    FS.files (FS.copyTree template dir fs0) !! path = FS.files fs0 !! path.
Proof.
  unfold FS.copyTree.
  induction template as [|kv template IH]; intros fs0 Hnot; [done|].
  cbn [foldl]. rewrite IH by set_solver. cbn.
  apply lookup_insert_ne. set_solver.
Qed.

Lemma copied_inside (dir rel : string) : FS.within dir (dir +:+ "/" +:+ rel) = true.
Proof.
  unfold FS.within, FS.below. apply orb_true_iff. right.
  rewrite <- append_assoc. apply prefix_append.
Qed.

(** With a clean workspace path and no [..] in the overlay's paths, what
    [prepareWorkspace] writes stays inside the workspace. *)
Lemma materialize_outside (template : list (string * string)) (dir : string)
    (base : list string) (code : LLMClient.GeneratedCode) (fs0 : FS.t) (path : string) :
  Path.split dir = EmptyString :: base → base ≠ [] →
  Forall (λ s, s ≠ EmptyString ∧ s ≠ "." ∧ s ≠ "..") base →
  (∀ p c, (p, c) ∈ code → ".." ∉ Path.split p) →
  FS.within dir path = false →
  FS.files (materialize template dir code fs0) !! path = FS.files fs0 !! path.
Proof.
  intros Hdir Hbase Hclean Hcode Hout. unfold materialize.
  rewrite overlay_other.
  - rewrite copyTree_other; [done|].
    intros Hin. apply list_elem_of_fmap in Hin as ([rel c] & -> & _).
    cbn [fst] in Hout. by rewrite copied_inside in Hout.
  - intros Hin. apply list_elem_of_fmap in Hin as ([p c] & -> & Hin).
    cbn [fst] in Hout.
    rewrite (join_within dir p base) in Hout; [done..|]. by eapply Hcode.
Qed.

End OverlayFacts.



(** ** The runtime's containers, exactly *)

Section ContainerFacts.
Import DockerRuntime.

(** The three ways [createContainer] can go. *)
Lemma createContainer_cases (h : Host) (cfg : Docker.ContainerConfig) (w : World) :
  (∃ e, refuse h (Docker.name cfg) = Some e
        ∧ createContainer h cfg w = mkResult (inl e) w [])
  ∨ (refuse h (Docker.name cfg) = None ∧ is_Some (engine w !! Docker.name cfg)
     ∧ createContainer h cfg w
       = mkResult (inl ("Conflict. The container name " +:+ Docker.name cfg
                        +:+ " is already in use")) w [])
  ∨ (refuse h (Docker.name cfg) = None ∧ engine w !! Docker.name cfg = None
     ∧ createContainer h cfg w
       = mkResult (inr (Docker.name cfg))
           (with_created (λ l, l ++ [cfg])
              (with_engine <[Docker.name cfg := Docker.mkContainer cfg false]> w)) []).
Proof.
  unfold createContainer. munfold. wsimpl.
  destruct (refuse h (Docker.name cfg)) as [e|]; wsimpl; [left; by exists e|].
  destruct (engine w !! Docker.name cfg) as [c|]; wsimpl.
  - right; left. split; [done|]. split; [by eexists | done].
  - right; right. done.
Qed.

(** A container that is created, started, stopped and removed leaves the
    engine as it was. *)
Lemma engine_restored (e : gmap string Docker.Container) (n : string)
    (c : Docker.Container) (f g : Docker.Container → Docker.Container) :
  e !! n = None → delete n (alter f n (alter g n (<[n := c]> e))) = e.
Proof.
  intros Hfree. apply map_eq. intros k. destruct (decide (k = n)) as [->|Hne].
  - by rewrite lookup_delete_eq.
  - by rewrite lookup_delete_ne, !lookup_alter_ne, lookup_insert_ne.
Qed.

(** [buildPhase], exactly: the engine ends as it started. *)
Lemma buildPhase_exact (h : Host) (runId dir : string) (w : World) :
  ∃ o w', buildPhase h runId dir w = mkResult o w' []
    ∧ engine w' = engine w ∧ engine_step w w'
    ∧ ((∃ e, refuse h ("build-" +:+ runId) = Some e ∧ o = inl e ∧ w' = w)
       ∨ (refuse h ("build-" +:+ runId) = None
          ∧ is_Some (engine w !! ("build-" +:+ runId))
          ∧ o = inl ("Conflict. The container name " +:+ ("build-" +:+ runId)
                     +:+ " is already in use") ∧ w' = w)
       ∨ (refuse h ("build-" +:+ runId) = None
          ∧ engine w !! ("build-" +:+ runId) = None
          ∧ created w' = created w ++ [buildConfig runId dir]
          ∧ o = if decide (buildStatus h ≠ 0)
                then inl ("Build failed with exit code " +:+ pretty (buildStatus h)
                          +:+ ":" +:+ newline +:+ buildLogs h)
                else inr tt)).
Proof.
  unfold buildPhase.
  destruct (createContainer_cases h (buildConfig runId dir) w)
    as [(e & Href & Hc) | [(Href & Htaken & Hc) | (Href & Hfree & Hc)]].
  - exists (inl e), w. split; [by eapply bind_err|].
    split; [done|]. split; [apply engine_step_refl|]. left. by exists e.
  - eexists _, w. split; [by eapply bind_err|].
    split; [done|]. split; [apply engine_step_refl|]. right; left. done.
  - cbn [Docker.name buildConfig] in Hfree.
    destruct (decide (buildStatus h ≠ 0)) as [Hbad|Hgood].
    + eexists _, _. split.
      * eapply (bind_ok _ _ _ _ _ _ _ [] []); [exact Hc|].
        unfold start, halt, remove. munfold. wsimpl. reflexivity.
      * wsimpl. split; [by apply engine_restored|].
        split; [by repeat split|]. right; right. done.
    + eexists _, _. split.
      * eapply (bind_ok _ _ _ _ _ _ _ [] []); [exact Hc|].
        unfold start, halt, remove. munfold. wsimpl. reflexivity.
      * wsimpl. split; [by apply engine_restored|].
        split; [by repeat split|]. right; right. done.
Qed.

(** [runPhase], exactly. *)
Lemma runPhase_exact (h : Host) (runId dir : string) (w : World) :
  (∃ e, runPhase h runId dir w = mkResult (inl e) w []
        ∧ (refuse h ("run-" +:+ runId) = Some e
           ∨ (is_Some (engine w !! ("run-" +:+ runId))
              ∧ e = "Conflict. The container name " +:+ ("run-" +:+ runId)
                    +:+ " is already in use")))
  ∨ (refuse h ("run-" +:+ runId) = None ∧ engine w !! ("run-" +:+ runId) = None
     ∧ runPhase h runId dir w
       = mkResult
           (if Docker.falsy (default (Docker.Num 0) (boundPort h))
            then inl ("Failed to get host port for container " +:+ runId)
            else inr (mkEntry ("run-" +:+ runId) (default EmptyString (ipAddress h))
                        (default (Docker.Num 0) (boundPort h))))
           (with_engine (alter (λ c, Docker.mkContainer (Docker.config c) true)
                           ("run-" +:+ runId))
              (with_created (λ l, l ++ [runConfig runId dir])
                 (with_engine <["run-" +:+ runId
                                := Docker.mkContainer (runConfig runId dir) false]> w)))
           []).
Proof.
  unfold runPhase.
  destruct (createContainer_cases h (runConfig runId dir) w)
    as [(e & Href & Hc) | [(Href & Htaken & Hc) | (Href & Hfree & Hc)]].
  - left. exists e. split; [by eapply bind_err | by left].
  - left. eexists. split; [by eapply bind_err | by right].
  - right. split; [done|]. split; [done|].
    destruct (Docker.falsy (default (Docker.Num 0) (boundPort h))) eqn:Hport.
    + eapply (bind_ok _ _ _ _ _ _ _ [] []); [exact Hc|].
      unfold start. munfold. wsimpl. reflexivity.
    + eapply (bind_ok _ _ _ _ _ _ _ [] []); [exact Hc|].
      unfold start. munfold. wsimpl. reflexivity.
Qed.

Lemma started_lookup (e : gmap string Docker.Container) (n : string)
    (cfg : Docker.ContainerConfig) :
  alter (λ c, Docker.mkContainer (Docker.config c) true) n
    (<[n := Docker.mkContainer cfg false]> e)
  = <[n := Docker.mkContainer cfg true]> e.
Proof.
  apply map_eq. intros k. destruct (decide (k = n)) as [->|Hne].
  - by rewrite lookup_alter_eq, !lookup_insert_eq.
  - by rewrite lookup_alter_ne, !lookup_insert_ne.
Qed.

(** The host on which nothing goes wrong for the run: the shell obeys, the
    engine accepts both containers, the build exits with 0 and a host port
    is bound. *)
Lemma createRun_exact (h : Host) (runId : string) (code : LLMClient.GeneratedCode)
    (w : World) :
  shell h = None →
  refuse h ("build-" +:+ runId) = None → engine w !! ("build-" +:+ runId) = None →
  refuse h ("run-" +:+ runId) = None → engine w !! ("run-" +:+ runId) = None →
  buildStatus h = 0 →
  let dir := workspaceDir h runId in
  let port := default (Docker.Num 0) (boundPort h) in
  let entry := mkEntry ("run-" +:+ runId) (default EmptyString (ipAddress h)) port in
  ∃ w', runtime_step w w'
    ∧ created w' = created w ++ [buildConfig runId dir; runConfig runId dir]
    ∧ engine w' = <["run-" +:+ runId := Docker.mkContainer (runConfig runId dir) true]>
                    (engine w)
    ∧ if Docker.falsy port then
        createRun h runId code w
        = mkResult (inl ("Failed to get host port for container " +:+ runId)) w' []
        ∧ containers w' = containers w
        ∧ fs w' = FS.rm_rf dir (materialize (template h) dir code (fs w))
      else
        createRun h runId code w
        = mkResult (inr (mkDockerContainer (containerId h) runId port
                           ("http://localhost:" +:+ Docker.show port))) w' []
        ∧ containers w' = <[runId := entry]> (containers w)
        ∧ fs w' = materialize (template h) dir code (fs w).
Proof.
  intros Hshell Hrb Hfb Hrr Hfr Hbuild dir port entry.
  unfold createRun, prepareWorkspace. rewrite Hshell. fold dir.
  set (w1 := with_fs (materialize (template h) dir code) w).
  destruct (buildPhase_exact h runId dir w1)
    as (o2 & w2 & Hb & He2 & (Hs2 & Hfs2 & Hc2)
        & [(e & Href & _) | [(_ & [c Htaken] & _) | (_ & _ & Hcr2 & Ho2)]]).
  { congruence. }
  { unfold w1 in Htaken. cbn in Htaken. congruence. }
  rewrite decide_False in Ho2 by (intros H; by apply H). subst o2.
  destruct (runPhase_exact h runId dir w2)
    as [(e & _ & [Href | [[c Htaken] _]]) | (_ & _ & Hr)].
  { congruence. }
  { rewrite He2 in Htaken. unfold w1 in Htaken. cbn in Htaken. congruence. }
  fold port in Hr. fold entry in Hr.
  set (w3 := with_engine (alter (λ c, Docker.mkContainer (Docker.config c) true)
                            ("run-" +:+ runId))
               (with_created (λ l, l ++ [runConfig runId dir])
                  (with_engine <["run-" +:+ runId
                                 := Docker.mkContainer (runConfig runId dir) false]> w2)))
    in *.
  assert (Hs3 : runtime_step w w3).
  { destruct Hs2 as (? & ? & ? & ?). by repeat split. }
  assert (Hcr3 : created w3 = created w ++ [buildConfig runId dir; runConfig runId dir]).
  { unfold w3. wsimpl. rewrite Hcr2. unfold w1. wsimpl.
    by rewrite <- app_assoc. }
  assert (He3 : engine w3 = <["run-" +:+ runId
                              := Docker.mkContainer (runConfig runId dir) true]> (engine w)).
  { unfold w3. wsimpl. rewrite He2. unfold w1. wsimpl. apply started_lookup. }
  destruct (Docker.falsy port) eqn:Hport.
  - eexists. split; [|split; [|split; [|split; [|split]]]].
    4:{ eapply (catch_err _ _ _ _ _ _ _ [] []).
        - eapply (bind_ok _ _ _ _ _ _ _ [] []); [reflexivity|].
          eapply (bind_ok _ _ _ _ _ _ _ [] []); [exact Hb|].
          eapply bind_err. exact Hr.
        - unfold cleanupWorkspace. munfold. wsimpl. reflexivity. }
    + destruct Hs3 as (? & ? & ? & ?). by repeat split.
    + by wsimpl.
    + by wsimpl.
    + wsimpl. unfold w3. wsimpl. rewrite Hc2. done.
    + wsimpl. unfold w3. wsimpl. rewrite Hfs2. done.
  - eexists. split; [|split; [|split; [|split; [|split]]]].
    4:{ eapply catch_ok.
        eapply (bind_ok _ _ _ _ _ _ _ [] []); [reflexivity|].
        eapply (bind_ok _ _ _ _ _ _ _ [] []); [exact Hb|].
        eapply (bind_ok _ _ _ _ _ _ _ [] []); [exact Hr|].
        munfold. wsimpl. reflexivity. }
    + destruct Hs3 as (? & ? & ? & ?). by repeat split.
    + by wsimpl.
    + by wsimpl.
    + wsimpl. unfold w3. wsimpl. rewrite Hc2. done.
    + wsimpl. unfold w3. wsimpl. rewrite Hfs2. done.
Qed.

End ContainerFacts.


Section LeakFacts.
Import DockerRuntime.

Lemma names_differ (runId : string) : "build-" +:+ runId ≠ "run-" +:+ runId.
Proof. done. Qed.

(** [createRun] for a run whose runtime container's name is taken. *)
Lemma createRun_conflict (h : Host) (runId : string) (code : LLMClient.GeneratedCode)
    (w : World) :
  shell h = None →
  refuse h ("build-" +:+ runId) = None → engine w !! ("build-" +:+ runId) = None →
  buildStatus h = 0 →
  refuse h ("run-" +:+ runId) = None → is_Some (engine w !! ("run-" +:+ runId)) →
  outcome (createRun h runId code w)
  = inl ("Conflict. The container name " +:+ ("run-" +:+ runId)
         +:+ " is already in use").
Proof.
  intros Hshell Hrb Hfb Hbuild Hrr Htaken.
  unfold createRun, prepareWorkspace. rewrite Hshell.
  set (dir := workspaceDir h runId).
  set (w1 := with_fs (materialize (template h) dir code) w).
  destruct (buildPhase_exact h runId dir w1)
    as (o2 & w2 & Hb & He2 & _
        & [(e & Href & _) | [(_ & [c Hc] & _) | (_ & _ & _ & Ho2)]]).
  { congruence. }
  { unfold w1 in Hc. cbn in Hc. congruence. }
  rewrite decide_False in Ho2 by (intros H; by apply H). subst o2.
  destruct (runPhase_exact h runId dir w2)
    as [(e & Hr & [Href | [_ ->]]) | (_ & Hfree & _)].
  - congruence.
  - erewrite (catch_err _ _ _ _ _ _ _ [] []).
    + reflexivity.
    + eapply (bind_ok _ _ _ _ _ _ _ [] []); [reflexivity|].
      eapply (bind_ok _ _ _ _ _ _ _ [] []); [exact Hb|].
      eapply bind_err. exact Hr.
    + unfold cleanupWorkspace. munfold. wsimpl. reflexivity.
  - rewrite He2 in Hfree. unfold w1 in Hfree. cbn in Hfree.
    destruct Htaken. congruence.
Qed.

End LeakFacts.



Section TraceFacts.
Import DockerRuntime.

Lemma outside_kept (dir : string) (m m' : gmap string string) :
  (∀ path, FS.within dir path = false → m' !! path = m !! path) →
  filter (λ kv, FS.within dir kv.1 = false) m'
  = filter (λ kv, FS.within dir kv.1 = false) m.
Proof.
  intros Hsame. apply map_eq. intros k. apply option_eq. intros x.
  rewrite !map_lookup_filter_Some. cbn. split; intros [Hk Hout].
  - by rewrite <- Hsame.
  - by rewrite Hsame.
Qed.

End TraceFacts.



(** ** Invariants of processing a run *)

Section Processing.
Context (I : World → Prop) (h : Host) (run : Run) (prompt : string).

Hypothesis patch_stable : ∀ u w,
  upd_status u ∈ [Some generating; Some installing; Some starting; Some healthy;
                  Some ready; Some failed] →
  I w → I (patched h (run_id run) u w).
Hypothesis create_stable : ∀ code w,
  generate h prompt (run_provider run) (run_model run) = inr code →
  I w → I (final (DockerRuntime.createRun h (run_id run) code w)).
Hypothesis kill_stable : ∀ w,
  I w → I (final (DockerRuntime.killRun h (run_id run) w)).
Hypothesis clock_stable : ∀ w a, I w → I (with_clock (λ t, t + a) w).
Hypothesis register_stable : ∀ url w,
  I w → I (with_registry (GatewayRegistry.registerUrl (run_id run) url) w).

Lemma upholds_published (u : RunUpdate) :
  upd_status u ∈ [Some generating; Some installing; Some starting; Some healthy;
                  Some ready; Some failed] →
  upholds I (RunManager.updateRun h (run_id run) u) (λ _, True).
Proof. intros Hu. apply upholds_updateRun. intros w. by apply patch_stable. Qed.

Lemma upholds_processRun :
  upholds I (RunManager.processRun h run prompt) (λ _, True).
Proof.
  unfold RunManager.processRun. apply upholds_catch.
  - unfold RunManager.attempt, RunManager.updateRunStatus, RunManager.statusUpdate.
    eapply upholds_bind; [by apply upholds_still|]. intros startedAt _.
    eapply upholds_bind; [apply upholds_published; set_solver|]. intros _ _.
    eapply (upholds_bind _ _ _
      (λ code, generate h prompt (run_provider run) (run_model run) = inr code)).
    { intros w Hw. rewrite generateCode_run. wsimpl.
      split; [done|]. split; [by repeat constructor | done]. }
    intros code Hcode.
    eapply (upholds_bind _ _ _ (λ _, True)).
    { unfold RunManager.validateCode. destruct (LLMClient.validateCode code).
      - apply upholds_throw.
      - by apply upholds_ret. }
    intros _ _.
    eapply upholds_bind; [apply upholds_published; set_solver|]. intros _ _.
    eapply (upholds_bind _ _ _ (λ _, True)).
    { apply upholds_await. intros w Hw.
      pose proof (create_stable code w Hcode Hw) as Hfinal.
      destruct (createRun_run h (run_id run) code w) as (o & w' & Hrun & _).
      rewrite Hrun in *. wsimpl. wsimpl_all. by repeat split. }
    intros c _.
    eapply upholds_bind; [apply upholds_published; set_solver|]. intros _ _.
    eapply (upholds_bind _ _ _ (λ _, True)).
    { intros w Hw. unfold RunManager.waitForHealthyUrl.
      destruct (waitLoop_run h (dc_internalUrl c) 30 0 w) as (tr & -> & Htr). wsimpl.
      split; [by apply clock_stable|]. split; [|done].
      eapply Forall_impl; [exact Htr|]. cbv beta. intros w' [a ->].
      by apply clock_stable. }
    intros isHealthy _.
    eapply (upholds_bind _ _ _ (λ _, True)).
    { destruct isHealthy; [by apply upholds_ret | apply upholds_throw]. }
    intros _ _.
    eapply upholds_bind; [apply upholds_published; set_solver|]. intros _ _.
    eapply upholds_bind; [apply upholds_modify; intros w; apply register_stable|].
    intros _ _.
    eapply upholds_bind; [by apply upholds_still|]. intros completedAt _.
    apply upholds_published. set_solver.
  - intros e. unfold RunManager.recover.
    eapply upholds_bind; [by apply upholds_still|]. intros completedAt _.
    eapply upholds_bind; [apply upholds_published; set_solver|]. intros _ _.
    apply upholds_catch; [|intros ?; by apply upholds_ret].
    apply upholds_await. intros w Hw.
    pose proof (kill_stable w Hw) as Hfinal.
    destruct (killRun_run h (run_id run) w) as (o & w' & Hrun & _).
    rewrite Hrun in *. wsimpl. wsimpl_all. by repeat split.
Qed.

End Processing.

Section IsolationFacts.

Lemma sameFor_refl (other : string) (w : World) : sameFor other w w.
Proof. by repeat split. Qed.

Lemma record_patched_other (h : Host) (runId other : string) (u : RunUpdate) (w : World) :
  other ≠ runId → record other (patched h runId u w) = record other w.
Proof.
  intros Hne. unfold record. rewrite patched_eq. wsimpl.
  destruct (delivered h (sent w)); [|done]. unfold Store.updateRun.
  destruct (Store.runs (store w) !! runId); [|done]. cbn [snd Store.runs].
  by apply lookup_insert_ne.
Qed.

End IsolationFacts.



(** X18. What [processRun] publishes. A run the store knows stays known, at
    every observable point and at the end, and its status is the one it had
    or one of [generating], [installing], [starting], [healthy], [ready] and
    [failed]: the engine never publishes [queued], [building], [capturing]
    or [terminated] while it processes a run. The run's identifier, session,
    model and provider are never changed. *)
Theorem X18_published_statuses (h : Host) (run : Run) (prompt : string)
    (w : World) (r : Run) :
  record (run_id run) w = Some r →
  let known := λ w', ∃ r', record (run_id run) w' = Some r'
      ∧ run_status r' ∈ [run_status r; generating; installing; starting; healthy;
                         ready; failed]
      ∧ run_id r' = run_id r ∧ run_sessionId r' = run_sessionId r
      ∧ run_model r' = run_model r ∧ run_provider r' = run_provider r in
  Forall known (seen (RunManager.processRun h run prompt w))
  ∧ known (final (RunManager.processRun h run prompt w)).
Proof.
  intros Hr known.
  assert (Hsame : ∀ w1 w2, store w2 = store w1 → known w1 → known w2).
  { intros w1 w2 Hstore (r' & Hr' & H). exists r'. unfold record in *.
    by rewrite Hstore. }
  assert (Hall : upholds known (RunManager.processRun h run prompt) (λ _, True)).
  { apply upholds_processRun.
    - intros u w1 Hu (r' & Hr' & Hst & Hid & Hsid & Hmodel & Hprov).
      destruct (patched_record h (run_id run) u w1 r' Hr') as [_ Hmerged].
      destruct (delivered h (sent w1)) eqn:Hdel.
      + exists (Store.merge r' u (clock w1)). split; [by apply Hmerged|].
        cbn. split; [|done].
        destruct (upd_status u) as [s|]; [|set_solver]. cbn. set_solver.
      + exists r'. split; [|done]. unfold record in *. rewrite patched_eq. wsimpl.
        by rewrite Hdel.
    - intros code w1 _.
      destruct (createRun_run h (run_id run) code w1)
        as (o & w' & -> & (Hstore & _) & _). by apply Hsame.
    - intros w1.
      destruct (killRun_run h (run_id run) w1)
        as (o & w' & -> & (Hstore & _) & _). by apply Hsame.
    - intros w1 a. by apply Hsame.
    - intros url w1. by apply Hsame. }
  destruct (Hall w) as (Hfin & Hseen & _); [|done].
  exists r. split; [done|]. split; [set_solver | done].
Qed.

Lemma X18_published_statuses_witness :
  ∃ r', record "id1" Sample.served = Some r'
    ∧ run_status r' ∈ [queued; generating; installing; starting; healthy; ready; failed]
    ∧ run_id r' = "id1" ∧ run_sessionId r' = "id0"
    ∧ run_model r' = "gpt-4o" ∧ run_provider r' = openai.
Proof.
  assert (Hr : record (run_id Sample.run) Sample.world = Some Sample.run)
    by (vm_compute; reflexivity).
  exact (proj2 (X18_published_statuses Sample.host Sample.run Sample.prompt
                  Sample.world Sample.run Hr)).
Defined.

(** X19. [processRun] never throws: whatever the code generator, the
    engine, the probed server and the link to the main application do, and
    even when the cleanup after a failure fails, the promise it returns is
    fulfilled. *)
Theorem X19_processRun_never_throws (h : Host) (run : Run) (prompt : string)
    (w : World) :
  outcome (RunManager.processRun h run prompt w) = inr tt.
Proof.
  destruct (outcome (RunManager.attempt h run prompt w)) as [e|[]] eqn:Hattempt.
  - by destruct (processRun_failed h run prompt w e Hattempt) as [Hout _].
  - unfold RunManager.processRun, try_catch. cbv zeta. by rewrite Hattempt.
Qed.

(** ** The order of the published statuses *)

Section Climbing.
Context (runId : string).

Lemma climbing_app (x y z : nat) (l1 l2 : list nat) :
  climbing x l1 y → climbing y l2 z → climbing x (l1 ++ l2) z.
Proof.
  revert x. induction l1 as [|a l1 IH]; intros x H1 H2; cbn in *.
  - destruct l2 as [|b l2]; cbn in *; [lia|]. destruct H2. split; [lia | done].
  - destruct H1. split; [done|]. by apply IH.
Qed.

Lemma climbing_flat (x : nat) (l : list nat) :
  Forall (λ a, a = x) l → climbing x l x.
Proof.
  induction 1 as [|a l -> _ IH]; cbn; [lia|]. split; [lia | done].
Qed.

Lemma climbing_sorted (x y : nat) (l : list nat) :
  climbing x l y → StronglySorted le (x :: l ++ [y]).
Proof.
  revert x. induction l as [|a l IH]; intros x H; cbn in *.
  - repeat constructor. done.
  - destruct H as [Hxa H]. specialize (IH a H).
    constructor; [done|]. constructor; [done|].
    apply StronglySorted_inv in IH as [_ Hall].
    eapply Forall_impl; [exact Hall|]. cbv beta. intros. lia.
Qed.

Lemma climbs_weaken {A} (lo lo' hi hi' : nat) (m : M A) :
  (lo' ≤ lo)%nat → (hi ≤ hi')%nat → climbs runId lo hi m → climbs runId lo' hi' m.
Proof.
  intros Hlo Hhi Hm w Hw. destruct (Hm w) as [Hc Hf]; [lia|]. split; [done | lia].
Qed.

(** Code that leaves the store alone, in all it shows and where it ends. *)
Lemma climbs_quiet {A} (lo : nat) (m : M A) :
  (∀ w, store (final (m w)) = store w
        ∧ Forall (λ w', store w' = store w) (seen (m w))) →
  climbs runId lo lo m.
Proof.
  intros Hm w Hw. destruct (Hm w) as [Hfinal Hseen].
  assert (Hsame : ∀ w', store w' = store w → phaseAt runId w' = phaseAt runId w).
  { intros w' Hs. unfold phaseAt, record. by rewrite Hs. }
  rewrite (Hsame _ Hfinal). split; [|done].
  apply climbing_flat. apply Forall_fmap.
  eapply Forall_impl; [exact Hseen|]. cbv beta. intros w' Hw'. by apply Hsame.
Qed.

Lemma climbs_bind {A B} (lo mid hi : nat) (m : M A) (f : A → M B) :
  (mid ≤ hi)%nat →
  climbs runId lo mid m → (∀ a, climbs runId mid hi (f a)) →
  climbs runId lo hi (m ≫= f).
Proof.
  intros Hle Hm Hf w Hw. destruct (Hm w Hw) as [Hc1 Hf1].
  munfold. destruct (m w) as [[e|a] w1 tr1]; wsimpl_all.
  - split; [done | lia].
  - destruct (Hf a w1 Hf1) as [Hc2 Hf2]. split; [|done].
    rewrite map_app. by eapply climbing_app.
Qed.

Lemma climbs_catch {A} (lo mid hi : nat) (m : M A) (k : string → M A) :
  (mid ≤ hi)%nat →
  climbs runId lo mid m → (∀ e, climbs runId mid hi (k e)) →
  climbs runId lo hi (try_catch m k).
Proof.
  intros Hle Hm Hk w Hw. destruct (Hm w Hw) as [Hc1 Hf1].
  munfold. destruct (m w) as [[e|a] w1 tr1]; wsimpl_all.
  - destruct (Hk e w1 Hf1) as [Hc2 Hf2]. split; [|done].
    rewrite map_app. by eapply climbing_app.
  - split; [done | lia].
Qed.

Lemma climbs_await {A} (lo hi : nat) (m : M A) :
  climbs runId lo hi m → climbs runId lo hi (await m).
Proof.
  intros Hm w Hw. destruct (Hm w Hw) as [Hc Hf]. munfold. wsimpl.
  split; [|done]. cbn [map climbing]. split; [lia|].
  rewrite map_app. eapply climbing_app; [exact Hc|]. cbn. lia.
Qed.

Lemma phaseAt_patched (h : Host) (u : RunUpdate) (s : RunStatus) (w : World) :
  upd_status u = Some s →
  phaseAt runId (patched h runId u w) = phaseAt runId w
  ∨ phaseAt runId (patched h runId u w) = phase s.
Proof.
  intros Hs. unfold phaseAt.
  destruct (record runId w) as [r|] eqn:Hr.
  - destruct (patched_record h runId u w r Hr) as [_ Hmerged].
    destruct (delivered h (sent w)) eqn:Hdel.
    + right. rewrite Hmerged by done. cbn. by rewrite Hs.
    + left. unfold record in *. rewrite patched_eq. wsimpl. by rewrite Hdel, Hr.
  - left. unfold record in *. rewrite patched_eq. wsimpl.
    destruct (delivered h (sent w)); [|by rewrite Hr].
    unfold Store.updateRun. rewrite Hr. cbn [snd]. by rewrite Hr.
Qed.

Lemma climbs_updateRun (h : Host) (u : RunUpdate) (s : RunStatus) (lo : nat) :
  upd_status u = Some s → (lo ≤ phase s)%nat →
  climbs runId lo (phase s) (RunManager.updateRun h runId u).
Proof.
  intros Hs Hlo w Hw. rewrite updateRun_run. wsimpl. cbn [map climbing].
  destruct (phaseAt_patched h u s w Hs) as [-> | ->]; lia.
Qed.

End Climbing.

Section ClimbingRuns.
Context (h : Host) (run : Run) (prompt : string).

Lemma climbs_attempt : climbs (run_id run) 1 7 (RunManager.attempt h run prompt).
Proof.
  unfold RunManager.attempt, RunManager.updateRunStatus, RunManager.statusUpdate.
  eapply (climbs_bind _ 1 1 7); [lia | by apply climbs_quiet |]. intros startedAt.
  eapply (climbs_bind _ 1 1 7);
    [lia | by apply (climbs_updateRun _ _ _ generating) |]. intros _.
  eapply (climbs_bind _ 1 1 7); [lia | |].
  { apply climbs_quiet. intros w. rewrite generateCode_run. wsimpl.
    split; [done | by repeat constructor]. }
  intros code.
  eapply (climbs_bind _ 1 1 7); [lia | |].
  { apply climbs_quiet. intros w. rewrite validateCode_run. by wsimpl. }
  intros _.
  eapply (climbs_bind _ 1 2 7);
    [lia | by apply (climbs_updateRun _ _ _ installing); [|cbn; lia] |]. intros _.
  eapply (climbs_bind _ 2 2 7); [lia | |].
  { apply climbs_await, climbs_quiet. intros w.
    destruct (createRun_run h (run_id run) code w) as (o & w' & -> & (Hstore & _) & _).
    by wsimpl. }
  intros c.
  eapply (climbs_bind _ 2 4 7);
    [lia | by apply (climbs_updateRun _ _ _ starting); [|cbn; lia] |]. intros _.
  eapply (climbs_bind _ 4 4 7); [lia | |].
  { apply climbs_quiet. intros w. unfold RunManager.waitForHealthyUrl.
    destruct (waitLoop_run h (dc_internalUrl c) 30 0 w) as (tr & -> & Htr). wsimpl.
    split; [done|]. eapply Forall_impl; [exact Htr|]. cbv beta. by intros w' [a ->]. }
  intros isHealthy.
  eapply (climbs_bind _ 4 4 7); [lia | |].
  { apply climbs_quiet. intros w. by destruct isHealthy. }
  intros _.
  eapply (climbs_bind _ 4 5 7);
    [lia | by apply (climbs_updateRun _ _ _ healthy); [|cbn; lia] |]. intros _.
  eapply (climbs_bind _ 5 5 7); [lia | by apply climbs_quiet |]. intros _.
  eapply (climbs_bind _ 5 5 7); [lia | by apply climbs_quiet |]. intros completedAt.
  by apply (climbs_updateRun _ _ _ ready); [|cbn; lia].
Qed.

Lemma climbs_recover (e : string) :
  climbs (run_id run) 7 8 (RunManager.recover h run e).
Proof.
  unfold RunManager.recover.
  eapply (climbs_bind _ 7 7 8); [lia | by apply climbs_quiet |]. intros completedAt.
  eapply (climbs_bind _ 7 8 8);
    [lia | by apply (climbs_updateRun _ _ _ failed); [|cbn; lia] |]. intros _.
  eapply (climbs_catch _ 8 8 8); [lia | | intros ?; by apply climbs_quiet].
  apply climbs_await, climbs_quiet. intros w.
  destruct (killRun_run h (run_id run) w) as (o & w' & -> & (Hstore & _) & _).
  by wsimpl.
Qed.

Lemma climbs_processRun :
  climbs (run_id run) 1 8 (RunManager.processRun h run prompt).
Proof.
  unfold RunManager.processRun.
  eapply (climbs_catch _ 1 7 8); [lia | apply climbs_attempt | apply climbs_recover].
Qed.

End ClimbingRuns.

(** X20. The status of a run never moves backwards while it is processed.
    For a run that is [queued] or [generating] when [processRun] starts (or
    unknown to the store), the statuses the store shows at the observable
    points of the processing, from its start to its end, never decrease in
    the order queued, generating, installing, building, starting, healthy,
    capturing, ready, failed, terminated; whichever updates get lost on the
    way. In particular nothing follows [failed]. *)
Theorem X20_status_never_moves_back (h : Host) (run : Run) (prompt : string)
    (w : World) :
  (phaseAt (run_id run) w ≤ 1)%nat →
  let r := RunManager.processRun h run prompt w in
  StronglySorted le (map (phaseAt (run_id run)) (w :: seen r ++ [final r]))
  ∧ (phaseAt (run_id run) (final r) ≤ 8)%nat.
Proof.
  intros Hw r. destruct (climbs_processRun h run prompt w Hw) as [Hc Hf].
  split; [|done]. cbn [map]. rewrite map_app. cbn [map].
  by apply climbing_sorted.
Qed.

Lemma X20_status_never_moves_back_witness :
  StronglySorted le
    (map (phaseAt "id1")
       (Sample.world
        :: seen (RunManager.processRun Sample.host Sample.run Sample.prompt Sample.world)
        ++ [Sample.served])).
Proof.
  refine (proj1 (X20_status_never_moves_back Sample.host Sample.run Sample.prompt
                   Sample.world _)).
  vm_compute. lia.
Defined.

(** ** A run that becomes ready *)

Section ServedFacts.
Context (h : Host) (run : Run) (prompt : string) (w : World).

(** What an update leaves alone, delivered or not. *)
Lemma patched_rest (u : RunUpdate) (w0 : World) :
  sent (patched h (run_id run) u w0) = S (sent w0)
  ∧ clock (patched h (run_id run) u w0) = clock w0
  ∧ fs (patched h (run_id run) u w0) = fs w0
  ∧ engine (patched h (run_id run) u w0) = engine w0
  ∧ containers (patched h (run_id run) u w0) = containers w0
  ∧ registry (patched h (run_id run) u w0) = registry w0.
Proof. by rewrite patched_eq. Qed.

(** A delivered update of a known run. *)
Lemma patched_known (u : RunUpdate) (w0 : World) (r : Run) :
  delivered h (sent w0) = true → record (run_id run) w0 = Some r →
  record (run_id run) (patched h (run_id run) u w0)
  = Some (Store.merge r u (clock w0)).
Proof.
  intros Hdel Hr. destruct (patched_record h (run_id run) u w0 r Hr) as [_ Hmerged].
  by apply Hmerged.
Qed.

(** The path of [attempt] on a host where the run can be created and the
    server answers in time. *)
Lemma attempt_ready (code : LLMClient.GeneratedCode) (c : DockerContainer) :
  generate h prompt (run_provider run) (run_model run) = inr code →
  LLMClient.validateCode code = inr tt →
  outcome (built h run w code) = inr c →
  is_Some (firstHit h (dc_internalUrl c) 0 30) →
  RunManager.processRun h run prompt w = RunManager.attempt h run prompt w
  ∧ outcome (RunManager.attempt h run prompt w) = inr tt
  ∧ final (RunManager.attempt h run prompt w) = readyAt h run w code c.
Proof.
  intros Hgen Hval Hbuilt Hhit.
  pose proof (attempt_course h run prompt w) as Hcourse.
  assert (Hpath : outcome (RunManager.attempt h run prompt w) = inr tt
                  ∧ final (RunManager.attempt h run prompt w) = readyAt h run w code c).
  { inversion Hcourse as
      [e' Hgen' Ho Hf | code' e' Hgen' Hval' Ho Hf | code' e' Hgen' Hval' Hb Ho Hf
      | code' c' Hgen' Hval' Hb Hhit' Ho Hf | code' c' Hgen' Hval' Hb Hhit' Ho Hf];
      rewrite Hgen in Hgen'; try discriminate;
      injection Hgen' as <-; rewrite Hval in Hval'; try discriminate;
      rewrite Hbuilt in Hb; try discriminate; injection Hb as <-.
    - rewrite Hhit' in Hhit. by destruct Hhit.
    - done. }
  destruct Hpath as [Hok Hfinal]. split; [|done].
  unfold RunManager.processRun, try_catch. cbv zeta. by rewrite Hok.
Qed.

End ServedFacts.



(** X22. The main application's store changes through delivered updates
    only: when no update of the run manager gets through, the store is, at
    every observable point of [processRun] and at its end, the store the
    processing began with. *)
Theorem X22_store_changes_by_updates_only (h : Host) (run : Run) (prompt : string)
    (w : World) :
  (∀ n, delivered h n = false) →
  Forall (λ w', store w' = store w) (seen (RunManager.processRun h run prompt w))
  ∧ store (final (RunManager.processRun h run prompt w)) = store w.
Proof.
  intros Hlost.
  assert (Hall : upholds (λ w', store w' = store w)
                   (RunManager.processRun h run prompt) (λ _, True)).
  { apply upholds_processRun.
    - intros u w1 _ Hs. rewrite patched_eq. wsimpl. by rewrite Hlost.
    - intros code w1 _ Hs.
      destruct (createRun_run h (run_id run) code w1)
        as (o & w2 & -> & (Hstore & _) & _). wsimpl. congruence.
    - intros w1 Hs.
      destruct (killRun_run h (run_id run) w1)
        as (o & w2 & -> & (Hstore & _) & _). wsimpl. congruence.
    - by intros w1 a Hs.
    - by intros url w1 Hs. }
  by destruct (Hall w eq_refl) as (Hfin & Hseen & _).
Qed.

Lemma X22_store_changes_by_updates_only_witness :
  let h := mkHost (workspaceBase Sample.host) (template Sample.host)
             (generate Sample.host) None (refuse Sample.host) 0 EmptyString "4f2a"
             (ipAddress Sample.host) (boundPort Sample.host) (probe Sample.host)
             (λ _, false) None in
  store (final (RunManager.processRun h Sample.run Sample.prompt Sample.world))
  = store Sample.world.
Proof.
  intros h.
  refine (proj2 (X22_store_changes_by_updates_only h Sample.run Sample.prompt
                   Sample.world _)).
  reflexivity.
Defined.

(** ** Shutting down and looking at logs *)

Section ShutdownFacts.
Import DockerRuntime.

Lemma cleared_refl (w : World) : cleared w w.
Proof. split; [done|]. split; by intros. Qed.

Lemma cleared_trans (w1 w2 w3 : World) :
  cleared w1 w2 → cleared w2 w3 → cleared w1 w3.
Proof.
  intros (Hr1 & He1 & Hf1) (Hr2 & He2 & Hf2). split; [congruence|].
  split; [intros n Hn; by apply He2, He1 | intros d Hd; by apply Hf2, Hf1].
Qed.

Lemma cleared_patched (h : Host) (runId : string) (u : RunUpdate) (w : World) :
  cleared w (patched h runId u w).
Proof. rewrite patched_eq. split; [done|]. split; by intros. Qed.

Lemma gone_rm_rf (dir dir' : string) (fs0 : FS.t) :
  FS.gone dir fs0 → FS.gone dir (FS.rm_rf dir' fs0).
Proof.
  intros [Hd Hf]. split; cbn.
  - rewrite elem_of_filter. by intros [_ ?].
  - intros p Hp. apply map_lookup_filter_None. left. by apply Hf.
Qed.

(** The runtime's [killRun], exactly. *)
Lemma killRun_exact (h : Host) (runId : string) (w : World) :
  ∃ o w', killRun h runId w = mkResult o w' []
    ∧ cleared w w' ∧ store w' = store w ∧ sent w' = sent w
    ∧ match containers w !! runId with
      | None => o = inr tt ∧ w' = w
      | Some entry =>
          match removeFails h with
          | Some e => o = inl e ∧ containers w' = containers w
          | None =>
              o = inr tt
              ∧ containers w' = delete runId (containers w)
              ∧ engine w' !! container entry = None
              ∧ FS.gone (workspaceDir h runId) (fs w')
          end
      end.
Proof.
  unfold killRun, halt, remove, cleanupWorkspace. munfold. wsimpl.
  destruct (containers w !! runId) as [entry|]; wsimpl.
  - destruct (removeFails h); wsimpl.
    + eexists _, _. split; [reflexivity|]. unfold cleared. wsimpl.
      split; [|done]. split; [done|]. split; [|done].
      intros n Hn. destruct (decide (n = container entry)) as [->|Hne].
      * by rewrite lookup_alter_eq, Hn.
      * by rewrite lookup_alter_ne.
    + eexists _, _. split; [reflexivity|]. unfold cleared. wsimpl.
      split; [|repeat split; [apply lookup_delete_eq | apply rm_rf_gone ..]].
      split; [done|]. split.
      * intros n Hn. destruct (decide (n = container entry)) as [->|Hne].
        -- apply lookup_delete_eq.
        -- by rewrite lookup_delete_ne, lookup_alter_ne.
      * intros d Hd. by apply gone_rm_rf.
  - eexists _, _. split; [reflexivity|]. split; [apply cleared_refl | done].
Qed.

(** One round of the shutdown loop. *)
Lemma shutdown_round (h : Host) (runId : string) (w : World) :
  ∃ w' tr, try_catch (await (RunManager.killRun h runId)) (λ _, mret tt) w
           = mkResult (inr tt) w' tr
    ∧ cleared w w'
    ∧ match containers w !! runId with
      | None => containers w' = containers w
      | Some entry =>
          match removeFails h with
          | Some e => containers w' = containers w
          | None =>
              containers w' = delete runId (containers w)
              ∧ engine w' !! container entry = None
              ∧ FS.gone (workspaceDir h runId) (fs w')
          end
      end.
Proof.
  destruct (killRun_exact h runId w) as (o & w1 & Hk & Hcl & _ & _ & Hcases).
  unfold RunManager.killRun, RunManager.updateRunStatus.
  destruct o as [e|[]].
  - exists w1. eexists. split.
    + eapply catch_err; [|reflexivity]. apply await_run.
      eapply catch_err; [|reflexivity]. eapply bind_err. apply await_run. exact Hk.
    + split; [done|]. destruct (containers w !! runId) as [entry|].
      * destruct (removeFails h); [by destruct Hcases | by destruct Hcases].
      * by destruct Hcases.
  - exists (patched h runId (RunManager.statusUpdate terminated) w1). eexists. split.
    + eapply catch_ok. apply await_run. eapply catch_ok.
      eapply bind_ok; [apply await_run; exact Hk | apply updateRun_run].
    + split; [by eapply cleared_trans; [|apply cleared_patched]|].
      pose proof (patched_frame h runId (RunManager.statusUpdate terminated) w1)
        as (_ & Hfs & Heng & _ & Hcont & _).
      rewrite Hcont, Hfs, Heng.
      destruct (containers w !! runId) as [entry|].
      * destruct (removeFails h); [by destruct Hcases|].
        by destruct Hcases as (_ & ? & ? & ?).
      * by destruct Hcases as [_ ->].
Qed.

(** The shutdown loop over any list of identifiers. *)
Lemma killAll_run (h : Host) (l : list string) :
  ∀ w, ∃ w' tr, Server.killAll h l w = mkResult (inr tt) w' tr
    ∧ cleared w w'
    ∧ match removeFails h with
      | Some e => containers w' = containers w
      | None =>
          (∀ k, containers w' !! k
                = if decide (k ∈ l) then None else containers w !! k)
          ∧ ∀ runId entry, runId ∈ l → containers w !! runId = Some entry →
              engine w' !! container entry = None
              ∧ FS.gone (workspaceDir h runId) (fs w')
      end.
Proof.
  induction l as [|runId l IH]; intros w.
  - exists w, []. split; [done|]. split; [apply cleared_refl|].
    destruct (removeFails h); [done|]. split.
    + intros k. by rewrite decide_False by apply not_elem_of_nil.
    + intros ? ? Hin. by apply elem_of_nil in Hin.
  - destruct (shutdown_round h runId w) as (w1 & tr1 & Hround & Hcl1 & Hcases).
    destruct (IH w1) as (w2 & tr2 & Hrest & Hcl2 & Hall).
    exists w2, (tr1 ++ tr2). split.
    { change (Server.killAll h (runId :: l))
        with (try_catch (await (RunManager.killRun h runId)) (λ _, mret tt);;
              Server.killAll h l).
      eapply bind_ok; [exact Hround | exact Hrest]. }
    split; [by eapply cleared_trans|].
    destruct (removeFails h) as [e|].
    { rewrite Hall. by destruct (containers w !! runId). }
    destruct Hall as [Hlookup Hgone].
    assert (Hc1 : ∀ k, containers w1 !! k
                       = if decide (k = runId) then None else containers w !! k).
    { intros k. destruct (containers w !! runId) as [entry|] eqn:Hentry.
      - destruct Hcases as (-> & _). destruct (decide (k = runId)) as [->|Hne].
        + apply lookup_delete_eq.
        + by apply lookup_delete_ne.
      - rewrite Hcases. destruct (decide (k = runId)) as [->|Hne]; done. }
    split.
    + intros k. rewrite Hlookup, Hc1.
      destruct (decide (k = runId)) as [->|Hne].
      * rewrite (decide_True (P := runId ∈ runId :: l)) by apply list_elem_of_here.
        by destruct (decide (runId ∈ l)).
      * destruct (decide (k ∈ l)) as [Hin|Hnot].
        -- by rewrite (decide_True (P := k ∈ runId :: l))
             by (by apply elem_of_cons; right).
        -- by rewrite (decide_False (P := k ∈ runId :: l))
             by (rewrite elem_of_cons; tauto).
    + intros k entry Hin Hentry.
      destruct (decide (k = runId)) as [->|Hne].
      * rewrite Hentry in Hcases. destruct Hcases as (_ & Heng & Hws).
        destruct Hcl2 as (_ & He2 & Hf2). split; [by apply He2 | by apply Hf2].
      * apply elem_of_cons in Hin as [->|Hin]; [done|].
        apply (Hgone k entry Hin). by rewrite Hc1, decide_False.
Qed.

End ShutdownFacts.



Section LogsFacts.

(** The logs endpoint, read off the runtime's map. *)
Lemma getLogs_run (logs : string → string + string) (runId : string) (w : World) :
  ∃ tr, Server.getLogs logs runId w
    = mkResult
        (inr match containers w !! runId with
             | None => Server.LogsNotFound ("Container not found for run " +:+ runId)
             | Some entry =>
                 match logs (container entry) with
                 | inl e => Server.LogsNotFound e
                 | inr output => Server.Logs output
                 end
             end) w tr.
Proof.
  unfold Server.getLogs, RunManager.getLogs, DockerRuntime.getLogs.
  destruct (containers w !! runId) as [entry|] eqn:Hentry.
  - destruct (logs (container entry)) as [e|output] eqn:Hlogs.
    + eexists. eapply catch_err; [|reflexivity].
      eapply bind_err. apply await_run. apply await_run.
      eapply (bind_ok _ _ _ _ _ _ _ []); [reflexivity|].
      rewrite Hentry. apply await_run. rewrite Hlogs. reflexivity.
    + eexists. eapply catch_ok.
      eapply bind_ok; [|reflexivity]. apply await_run. apply await_run.
      eapply (bind_ok _ _ _ _ _ _ _ []); [reflexivity|].
      rewrite Hentry. apply await_run. rewrite Hlogs. reflexivity.
  - eexists. eapply catch_err; [|reflexivity].
    eapply bind_err. apply await_run. apply await_run.
    eapply (bind_ok _ _ _ _ _ _ _ []); [reflexivity|].
    rewrite Hentry. reflexivity.
Qed.

End LogsFacts.

(** X24. After a kill that succeeded the run is out of reach. The logs
    endpoint never throws and changes nothing; it answers 404 exactly for a
    run the runtime does not track or whose output the engine does not
    hand over. Once the kill endpoint has answered with success, the
    runtime no longer tracks the run, its internal URL is unknown, the
    gateway answers 404 for it, and so does the logs endpoint. *)
Theorem X24_killed_run_is_out_of_reach (h : Host) (runId : string) (w : World)
    (logs : string → string + string) :
  (outcome (Server.getLogs logs runId w)
   = inr match containers w !! runId with
         | None => Server.LogsNotFound ("Container not found for run " +:+ runId)
         | Some entry =>
             match logs (container entry) with
             | inl e => Server.LogsNotFound e
             | inr output => Server.Logs output
             end
         end
   ∧ final (Server.getLogs logs runId w) = w)
  ∧ (outcome (Server.deleteRun h runId w) = inr Server.Success →
     let w1 := final (Server.deleteRun h runId w) in
     containers w1 !! runId = None
     ∧ (runId ∉ DockerRuntime.getActiveContainers w1)
     ∧ DockerRuntime.getInternalUrl runId w1 = None
     ∧ Server.resolveRun runId w1 = Server.NotFound "Run not found"
     ∧ outcome (Server.getLogs logs runId w1)
       = inr (Server.LogsNotFound ("Container not found for run " +:+ runId))).
Proof.
  split.
  { destruct (getLogs_run logs runId w) as [tr ->]. by wsimpl. }
  intros Hok w1.
  assert (Hgone : containers w1 !! runId = None ∧ registry w1 !! runId = None).
  { unfold w1. destruct (deleteRun_run h runId w) as (o & w' & Hk & Hd).
    destruct (killRun_run h runId w) as (o' & w'' & Hk' & _ & _ & Hkill).
    rewrite Hk in Hk'. injection Hk' as <- <-.
    destruct o as [e|[]].
    { destruct Hd as [tr Hd]. rewrite Hd in Hok. discriminate. }
    destruct Hd as [tr ->]. wsimpl. rewrite patched_eq. wsimpl.
    split; [|apply lookup_delete_eq].
    destruct (containers w !! runId) as [entry|] eqn:Htracked.
    - destruct (removeFails h); [by destruct Hkill|].
      destruct Hkill as (_ & -> & _). apply lookup_delete_eq.
    - destruct Hkill as [_ ->]. done. }
  destruct Hgone as [Hc Hr]. split; [done|]. split.
  { unfold DockerRuntime.getActiveContainers.
    rewrite elem_of_elements, elem_of_dom, Hc. by intros [? ?]. }
  split; [unfold DockerRuntime.getInternalUrl; by rewrite Hc|]. split.
  { apply resolveRun_NotFound. intros (url & Hurl & _). congruence. }
  destruct (getLogs_run logs runId w1) as [tr ->]. wsimpl. by rewrite Hc.
Qed.

Lemma X24_killed_run_is_out_of_reach_witness :
  Server.resolveRun "id1" (final (Server.deleteRun Sample.host "id1" Sample.served))
  = Server.NotFound "Run not found".
Proof.
  assert (Hok : outcome (Server.deleteRun Sample.host "id1" Sample.served)
                = inr Server.Success) by (vm_compute; reflexivity).
  exact (proj1 (proj2 (proj2 (proj2
    (proj2 (X24_killed_run_is_out_of_reach Sample.host "id1" Sample.served
              (λ _, inr EmptyString)) Hok))))).
Defined.

(** ** The registry's entries and the time of the probing *)

(** X25. The registry's entries. Unregistering undoes a registration, and
    brings back the registry as it was when the run had no entry; a second
    registration replaces the first; no other run's answer changes;
    registering adds one entry unless the run had one. [size] counts every
    entry, so it is at least the number of runs that resolve. *)
Theorem X25_registry_entries (runId other url url' : string)
    (reg : gmap string string) :
  GatewayRegistry.unregister runId (GatewayRegistry.registerUrl runId url reg)
    = GatewayRegistry.unregister runId reg
  ∧ (reg !! runId = None →
     GatewayRegistry.unregister runId (GatewayRegistry.registerUrl runId url reg) = reg)
  ∧ GatewayRegistry.registerUrl runId url' (GatewayRegistry.registerUrl runId url reg)
    = GatewayRegistry.registerUrl runId url' reg
  ∧ (other ≠ runId →
     GatewayRegistry.resolve other (GatewayRegistry.registerUrl runId url reg)
       = GatewayRegistry.resolve other reg
     ∧ GatewayRegistry.resolve other (GatewayRegistry.unregister runId reg)
       = GatewayRegistry.resolve other reg)
  ∧ GatewayRegistry.size (GatewayRegistry.registerUrl runId url reg)
    = (if reg !! runId is Some _ then GatewayRegistry.size reg
       else S (GatewayRegistry.size reg))
  ∧ (∀ ids, NoDup ids →
       (∀ id, id ∈ ids → is_Some (GatewayRegistry.resolve id reg)) →
       (length ids ≤ GatewayRegistry.size reg)%nat).
Proof.
  unfold GatewayRegistry.unregister, GatewayRegistry.registerUrl,
    GatewayRegistry.resolve, GatewayRegistry.size.
  split; [apply delete_insert_eq|].
  split; [intros Hnone; rewrite delete_insert_eq; by apply delete_id|].
  split; [apply insert_insert_eq|]. split.
  { intros Hne. by rewrite lookup_insert_ne, lookup_delete_ne. }
  split.
  { destruct (reg !! runId) as [u|] eqn:Hu.
    - rewrite <- (insert_delete_id reg runId u Hu) at 2.
      rewrite <- insert_delete_eq.
      by rewrite !map_size_insert_None by apply lookup_delete_eq.
    - by rewrite map_size_insert_None. }
  intros ids Hnd Hall.
  rewrite <- length_map_to_list, <- (length_fmap fst).
  apply submseteq_length, NoDup_submseteq; [done|].
  intros id Hid. destruct (Hall id Hid) as [u Hu].
  destruct (reg !! id) as [u'|] eqn:Hreg; [|done].
  apply list_elem_of_fmap. exists (id, u'). split; [done|].
  by apply elem_of_map_to_list.
Qed.

Section ProbingTime.
Context (h : Host) (url : string).
Hypothesis latency_nonneg : ∀ j, 0 ≤ latency (probe h url j).

Lemma attemptTime_range (i : nat) :
  0 ≤ attemptTime h url i ≤ 5000
  ∧ (satisfied h url i = true → attemptTime h url i < 5000).
Proof.
  unfold attemptTime, satisfied. specialize (latency_nonneg i). split; [lia|].
  intros [Hfast _]%andb_true_iff. apply bool_decide_eq_true in Hfast. lia.
Qed.

Lemma waited_hit (left : nat) :
  ∀ i k, firstHit h url i left = Some k →
    2000 * (Z.of_nat k - Z.of_nat i) ≤ waited h url i left
    ∧ waited h url i left < 7000 * (Z.of_nat k - Z.of_nat i) + 5000.
Proof.
  induction left as [|left IH]; intros i k; [done|]. cbn [firstHit waited].
  destruct (attemptTime_range i) as [Hrange Hsat].
  destruct (satisfied h url i) eqn:Hi.
  - intros [= <-]. specialize (Hsat eq_refl). lia.
  - intros Hk. destruct (firstHit_Some h url left (S i) k Hk) as (Hle & _).
    specialize (IH (S i) k Hk). lia.
Qed.

Lemma waited_miss (left : nat) :
  ∀ i, firstHit h url i left = None →
    2000 * Z.of_nat left ≤ waited h url i left ≤ 7000 * Z.of_nat left.
Proof.
  induction left as [|left IH]; intros i; cbn [firstHit waited]; [lia|].
  destruct (attemptTime_range i) as [Hrange _].
  destruct (satisfied h url i) eqn:Hi; [done|].
  intros Hnone. specialize (IH (S i) Hnone). lia.
Qed.

End ProbingTime.

(** X26. How long the health probing takes. [waitForHealthyUrl] never
    throws and changes nothing but the clock. With latencies that are not
    negative, a probing that gives up after its thirty attempts has taken
    between 60 and 210 seconds; one that succeeds at the attempt of index
    [k] has taken at least [2 k] seconds and less than [7 k + 5]
    seconds. *)
Theorem X26_probing_time (h : Host) (url : string) (w : World) :
  (∀ j, 0 ≤ latency (probe h url j)) →
  let r := RunManager.waitForHealthyUrl h url 30 w in
  let elapsed := clock (final r) - clock w in
  final r = with_clock (λ t, t + elapsed) w
  ∧ (firstHit h url 0 30 = None →
       outcome r = inr false ∧ 60000 ≤ elapsed ≤ 210000)
  ∧ (∀ k, firstHit h url 0 30 = Some k →
       outcome r = inr true
       ∧ 2000 * Z.of_nat k ≤ elapsed < 7000 * Z.of_nat k + 5000).
Proof.
  intros Hpos r elapsed. unfold elapsed, r, RunManager.waitForHealthyUrl.
  destruct (waitLoop_run h url 30 0 w) as (tr & -> & _). wsimpl.
  replace (clock w + waited h url 0 30 - clock w) with (waited h url 0 30) by lia.
  split; [done|]. split.
  - intros Hnone. rewrite Hnone.
    rewrite bool_decide_eq_false_2 by (by intros [? ?]).
    split; [done|]. pose proof (waited_miss h url Hpos 30 0 Hnone). lia.
  - intros k Hk. rewrite Hk. rewrite bool_decide_eq_true_2 by (by eexists).
    split; [done|]. pose proof (waited_hit h url Hpos 30 0 k Hk). lia.
Qed.

Lemma X26_probing_time_witness :
  outcome (RunManager.waitForHealthyUrl Sample.host "http://localhost:32768" 30
             Sample.world) = inr true.
Proof.
  assert (Hpos : ∀ j, 0 ≤ latency (probe Sample.host "http://localhost:32768" j)).
  { intros j. cbn. destruct (decide (j < 2)%nat); cbn; lia. }
  refine (proj1 (proj2 (proj2
    (X26_probing_time Sample.host "http://localhost:32768" Sample.world Hpos)) 2%nat _)).
  reflexivity.
Defined.

(** ** A kill that fails *)

(** X27. When a kill fails. The kill endpoint answers 500 exactly when the
    runtime tracks a container for the run and the engine fails to remove
    it; the answer carries the engine's message. Nothing is published then
    and nothing is unregistered: the store, the number of updates sent, the
    registry, the tracked containers and the files are as before, and the
    container is still in the engine, stopped. In every other case the
    answer is success. *)
Theorem X27_failed_kill_changes_nothing (h : Host) (runId : string) (w : World) :
  let r := Server.deleteRun h runId w in
  (∀ e, outcome r = inr (Server.Failure e)
        ↔ is_Some (containers w !! runId) ∧ removeFails h = Some e)
  ∧ (¬ (is_Some (containers w !! runId) ∧ is_Some (removeFails h)) →
     outcome r = inr Server.Success)
  ∧ (∀ e entry, containers w !! runId = Some entry → removeFails h = Some e →
     store (final r) = store w ∧ sent (final r) = sent w
     ∧ registry (final r) = registry w
     ∧ containers (final r) = containers w
     ∧ fs (final r) = fs w
     ∧ engine (final r)
       = alter (λ c, Docker.mkContainer (Docker.config c) false) (container entry)
           (engine w)).
Proof.
  cbv zeta.
  assert (Hkill : ∃ tr,
    match containers w !! runId, removeFails h with
    | Some entry, Some e =>
        Server.deleteRun h runId w
        = mkResult (inr (Server.Failure e))
            (with_engine (alter (λ c, Docker.mkContainer (Docker.config c) false)
                            (container entry)) w) tr
    | _, _ => outcome (Server.deleteRun h runId w) = inr Server.Success
    end).
  { destruct (deleteRun_run h runId w) as (o & w' & Hk & Hd).
    unfold DockerRuntime.killRun, DockerRuntime.halt, DockerRuntime.remove,
      DockerRuntime.cleanupWorkspace in Hk. munfold. wsimpl_all.
    destruct (containers w !! runId) as [entry|].
    - destruct (removeFails h) as [e|]; wsimpl_all.
      + injection Hk as <- <-. destruct Hd as [tr Hd]. by exists tr.
      + injection Hk as <- <-. destruct Hd as [tr ->]. by exists tr.
    - injection Hk as <- <-. destruct Hd as [tr ->]. exists tr.
      by destruct (removeFails h). }
  destruct Hkill as [tr Hkill]. split; [|split].
  - intros e. destruct (containers w !! runId) as [entry|].
    + destruct (removeFails h) as [e'|].
      * rewrite Hkill. wsimpl. split.
        -- intros [= ->]. split; [by eexists | done].
        -- by intros [_ [= ->]].
      * rewrite Hkill. split; [done | by intros [_ ?]].
    + assert (Hok : outcome (Server.deleteRun h runId w) = inr Server.Success)
        by (by destruct (removeFails h)).
      rewrite Hok. split; [done | by intros [[? ?] _]].
  - intros Hnot. destruct (containers w !! runId) as [entry|].
    + destruct (removeFails h) as [e'|]; [|done].
      destruct Hnot. split; by eexists.
    + by destruct (removeFails h).
  - intros e entry Hentry Hremove. rewrite Hentry, Hremove in Hkill.
    rewrite Hkill. by wsimpl.
Qed.

Lemma X27_failed_kill_changes_nothing_witness :
  registry (final (Server.deleteRun Sample.hostStuck "id1" Sample.stuck))
  = registry Sample.stuck.
Proof.
  assert (Hentry : containers Sample.stuck !! "id1"
                   = Some (mkEntry "run-id1" "172.18.0.2" (Docker.Num 32768)))
    by (vm_compute; reflexivity).
  exact (proj1 (proj2 (proj2
    (proj2 (proj2 (X27_failed_kill_changes_nothing Sample.hostStuck "id1" Sample.stuck))
       "engine error" _ Hentry eq_refl)))).
Defined.

(** ** Durations on display *)

(** X28. What [formatDuration] shows. A duration below a minute is shown
    in whole seconds; from a minute on, below an hour, in minutes and
    seconds; from an hour on in hours and minutes, the seconds being
    dropped. The parts shown are the duration rounded down, minutes and
    seconds below 60. A negative duration is shown in (negative) seconds
    whatever its size. *)
Theorem X28_duration_on_display (ms : Z) :
  (ms < 60000 →
     Utils.formatDuration ms = pretty (ms `div` 1000) +:+ "s"
     ∧ (0 ≤ ms → 0 ≤ ms `div` 1000 < 60))
  ∧ (60000 ≤ ms < 3600000 →
     ∃ m s, Utils.formatDuration ms = pretty m +:+ "m " +:+ pretty s +:+ "s"
       ∧ 1 ≤ m < 60 ∧ 0 ≤ s < 60
       ∧ 60000 * m + 1000 * s ≤ ms < 60000 * m + 1000 * (s + 1))
  ∧ (3600000 ≤ ms →
     ∃ hours m, Utils.formatDuration ms = pretty hours +:+ "h " +:+ pretty m +:+ "m"
       ∧ 1 ≤ hours ∧ 0 ≤ m < 60
       ∧ 3600000 * hours + 60000 * m ≤ ms < 3600000 * hours + 60000 * (m + 1)).
Proof.
  unfold Utils.formatDuration. cbv zeta.
  pose proof (Z.div_mod ms 1000 ltac:(lia)) as Hs.
  pose proof (Z.mod_pos_bound ms 1000 ltac:(lia)) as Hsr.
  pose proof (Z.div_mod (ms `div` 1000) 60 ltac:(lia)) as Hm.
  pose proof (Z.mod_pos_bound (ms `div` 1000) 60 ltac:(lia)) as Hmr.
  pose proof (Z.div_mod ((ms `div` 1000) `div` 60) 60 ltac:(lia)) as Hh.
  pose proof (Z.mod_pos_bound ((ms `div` 1000) `div` 60) 60 ltac:(lia)) as Hhr.
  split; [|split].
  - intros Hlt.
    rewrite (decide_False (P := 0 < ((ms `div` 1000) `div` 60) `div` 60)) by lia.
    rewrite (decide_False (P := 0 < (ms `div` 1000) `div` 60)) by lia.
    split; [done | lia].
  - intros Hrange.
    rewrite (decide_False (P := 0 < ((ms `div` 1000) `div` 60) `div` 60)) by lia.
    rewrite (decide_True (P := 0 < (ms `div` 1000) `div` 60)) by lia.
    eexists _, _. split; [reflexivity|].
    rewrite Z.rem_mod_nonneg by lia. lia.
  - intros Hge.
    rewrite (decide_True (P := 0 < ((ms `div` 1000) `div` 60) `div` 60)) by lia.
    eexists _, _. split; [reflexivity|].
    rewrite Z.rem_mod_nonneg by lia. lia.
Qed.

Lemma X28_duration_on_display_witness :
  ∃ hours m, Utils.formatDuration 3725000
             = pretty hours +:+ "h " +:+ pretty m +:+ "m"
    ∧ 1 ≤ hours ∧ 0 ≤ m < 60
    ∧ 3600000 * hours + 60000 * m ≤ 3725000 < 3600000 * hours + 60000 * (m + 1).
Proof.
  apply (X28_duration_on_display 3725000). lia.
Defined.

(** ** The model's reply, cleaned *)

Section CleanFacts.

Import LLMClient.

Lemma plain_cons (c : ascii) (s : string) :
  plain (String c s) → c ≠ backtick ∧ plain s.
Proof.
  unfold plain. cbn [includes String.prefix].
  destruct (ascii_dec backtick c) as [<-|Hne]; [by destruct s|].
  cbn [orb]. intros H. split; [congruence | done].
Qed.

Lemma plain_app (a b : string) : plain a → plain b → plain (a +:+ b).
Proof.
  induction a as [|c a IH]; [done|].
  intros [Hc Ha]%plain_cons Hb.
  change (String c a +:+ b) with (String c (a +:+ b)).
  unfold plain. cbn [includes String.prefix].
  destruct (ascii_dec backtick c) as [<-|_]; [done|].
  cbn [orb]. by apply IH.
Qed.

Lemma no_fence (c : ascii) (s : string) :
  c ≠ backtick → String.prefix fence (String c s) = false.
Proof.
  intros Hc. unfold fence. cbn [String.prefix].
  by destruct (ascii_dec backtick c) as [<-|_].
Qed.

Lemma openingFence_none (prev : option ascii) (c : ascii) (s : string) :
  c ≠ backtick → openingFence prev (String c s) = None.
Proof.
  intros Hc. unfold openingFence.
  by rewrite (no_fence c s Hc), andb_false_r.
Qed.

Lemma closingFence_none (prev : option ascii) (c : ascii) (s : string) :
  c ≠ backtick → closingFence prev (String c s) = None.
Proof.
  intros Hc. unfold closingFence. by rewrite (no_fence c s Hc).
Qed.

(** Over a text without backticks the search for fences passes on. *)
Lemma removeAll_plain (re : option ascii → string → option nat) (text : string) :
  (∀ prev c s, c ≠ backtick → re prev (String c s) = None) →
  plain text →
  ∀ prev rest, ∃ prev',
    removeAll re prev 0 (text +:+ rest) = text +:+ removeAll re prev' 0 rest.
Proof.
  intros Hre. induction text as [|c text IH]; intros Hplain prev rest.
  - by exists prev.
  - apply plain_cons in Hplain as [Hc Hplain].
    destruct (IH Hplain (Some c) rest) as [prev' Heq].
    exists prev'.
    change (String c text +:+ rest) with (String c (text +:+ rest)).
    cbn [removeAll]. by rewrite (Hre prev c _ Hc), Heq.
Qed.

Lemma removeAll_plain_all (re : option ascii → string → option nat) (text : string) :
  (∀ prev c s, c ≠ backtick → re prev (String c s) = None) →
  plain text →
  ∀ prev, removeAll re prev 0 text = text.
Proof.
  intros Hre Hplain prev.
  destruct (removeAll_plain re text Hre Hplain prev "") as [prev' Heq].
  by rewrite !append_empty in Heq.
Qed.

(** The closing fence on a line of its own goes with the opening ones. *)
Lemma closing_line (prev : option ascii) :
  removeAll openingFence prev 0 (lineFeed +:+ fence) = lineFeed.
Proof.
  change (lineFeed +:+ fence) with (String (ascii_of_nat 10) fence).
  cbn [removeAll].
  rewrite openingFence_none by done.
  reflexivity.
Qed.

Lemma trimStart_length (s : string) :
  (String.length (trimStart s) ≤ String.length s)%nat.
Proof.
  induction s as [|c s IH]; [done|].
  cbn [trimStart]. destruct (whiteSpace c); cbn [String.length]; lia.
Qed.

Lemma trimEnd_length (s : string) :
  (String.length (trimEnd s) ≤ String.length s)%nat.
Proof.
  induction s as [|c s IH]; [done|].
  cbn [trimEnd]. destruct (trimEnd s), (whiteSpace c); cbn [String.length] in *; lia.
Qed.

Lemma trimmed_ends (s : string) :
  trim s = s → trimStart s = s ∧ trimEnd s = s.
Proof.
  unfold trim. intros Htrim.
  assert (trimStart s = s) as Hstart.
  { pose proof (trimEnd_length (trimStart s)) as H1.
    rewrite Htrim in H1.
    destruct s as [|c s]; [done|].
    cbn [trimStart] in *. destruct (whiteSpace c); [|done].
    pose proof (trimStart_length s). cbn [String.length] in H1. lia. }
  split; [done|]. by rewrite Hstart in Htrim.
Qed.

Lemma trimEnd_line (s : string) : trimEnd (s +:+ lineFeed) = trimEnd s.
Proof.
  induction s as [|c s IH]; [done|].
  change (String c s +:+ lineFeed) with (String c (s +:+ lineFeed)).
  cbn [trimEnd]. by rewrite IH.
Qed.

Lemma trim_line (s : string) : trim s = s → trim (s +:+ lineFeed) = s.
Proof.
  intros [Hstart Hend]%trimmed_ends. unfold trim.
  destruct s as [|c s]; [done|].
  change (String c s +:+ lineFeed) with (String c (s +:+ lineFeed)).
  cbn [trimStart] in *.
  destruct (whiteSpace c).
  - pose proof (trimStart_length s) as Hlen. rewrite Hstart in Hlen.
    cbn [String.length] in Hlen. lia.
  - change (String c (s +:+ lineFeed)) with (String c s +:+ lineFeed).
    by rewrite trimEnd_line.
Qed.

(** A text without fences, with nothing to trim, is only looked through
    for the directive; a closing fence on a last line of its own is
    dropped. *)
Lemma cleanCode_plain (text : string) :
  plain text → trim text = text → cleanCode text = directive text.
Proof.
  intros Hplain Htrim. unfold cleanCode, directive. cbv zeta.
  rewrite (removeAll_plain_all openingFence text openingFence_none Hplain).
  rewrite (removeAll_plain_all closingFence text closingFence_none Hplain).
  by rewrite Htrim.
Qed.

Lemma plain_line : plain lineFeed.
Proof. reflexivity. Qed.

Lemma cleanCode_closed (prev : option ascii) (text : string) :
  plain text → trim text = text →
  replaceLine ("'" +:+ useClient +:+ "'") (doubleQuote +:+ useClient +:+ doubleQuote) None
    (replaceLine useClient (doubleQuote +:+ useClient +:+ doubleQuote) None
       (trim (removeAll closingFence None 0
          (removeAll openingFence prev 0 (text +:+ lineFeed +:+ fence)))))
  = directive text.
Proof.
  intros Hplain Htrim. unfold directive.
  destruct (removeAll_plain openingFence text openingFence_none Hplain prev
              (lineFeed +:+ fence)) as [prev' ->].
  rewrite closing_line.
  rewrite (removeAll_plain_all closingFence (text +:+ lineFeed) closingFence_none
             (plain_app _ _ Hplain plain_line)).
  by rewrite (trim_line text Htrim).
Qed.

(** *** Lines *)

Lemma lines_nonempty (s : string) : lines s ≠ [].
Proof.
  induction s as [|c s IH]; [done|].
  cbn [lines]. destruct (lineTerminator c); [done|]. by destruct (lines s).
Qed.

Lemma first_line (line s : string) :
  oneLine line →
  String.prefix line s = true →
  lineEnd (slice (String.length line) s) = true →
  ∃ ls, lines s = line :: ls.
Proof.
  revert s. induction line as [|a line IH]; intros s Hone Hpre Hend.
  - cbn [String.length slice] in Hend.
    destruct s as [|c s]; [by exists []|].
    cbn [lineEnd] in Hend. cbn [lines]. rewrite Hend.
    replace (slice 0 (String c s)) with (String c s) in Hend by done.
    by eexists.
  - destruct s as [|c s]; [done|].
    cbn [String.prefix] in Hpre.
    destruct (ascii_dec a c) as [<-|]; [|done].
    cbn [String.list_ascii_of_string] in Hone.
    apply Forall_cons in Hone as [Ha Hone].
    cbn [String.length slice] in Hend.
    destruct (IH s Hone Hpre Hend) as [ls Hls].
    exists ls. cbn [lines]. by rewrite Ha, Hls.
Qed.

(** Where no line is the one looked for, nothing is replaced. *)
Lemma replaceLine_absent (line by_ : string) (s : string) :
  oneLine line →
  ∀ prev,
    (if lineStart prev then line ∉ lines s else line ∉ tail (lines s)) →
    replaceLine line by_ prev s = s.
Proof.
  intros Hone. induction s as [|c s IH]; intros prev Hno.
  - cbn [replaceLine].
    destruct (lineStart prev && String.prefix line ""
              && lineEnd (slice (String.length line) "")) eqn:Hmatch; [|done].
    apply andb_true_iff in Hmatch as [[Hstart Hpre]%andb_true_iff Hend].
    rewrite Hstart in Hno.
    destruct (first_line line _ Hone Hpre Hend) as [ls Hls].
    rewrite Hls in Hno. exfalso. apply Hno. left.
  - cbn [replaceLine].
    destruct (lineStart prev && String.prefix line (String c s)
              && lineEnd (slice (String.length line) (String c s))) eqn:Hmatch.
    + apply andb_true_iff in Hmatch as [[Hstart Hpre]%andb_true_iff Hend].
      rewrite Hstart in Hno.
      destruct (first_line line _ Hone Hpre Hend) as [ls Hls].
      rewrite Hls in Hno. exfalso. apply Hno. left.
    + f_equal. apply IH.
      cbn [lines] in Hno. cbn [lineStart].
      destruct (lineTerminator c).
      * destruct (lineStart prev); [|done].
        intros Hin. apply Hno. by right.
      * pose proof (lines_nonempty s) as Hne.
        destruct (lines s) as [|l ls]; [done|].
        cbn [tail] in *.
        destruct (lineStart prev); [|done].
        intros Hin. apply Hno. by right.
Qed.

Lemma oneLine_useClient : oneLine useClient.
Proof. unfold oneLine. cbn. repeat constructor. Qed.

Lemma oneLine_quoted : oneLine ("'" +:+ useClient +:+ "'").
Proof. unfold oneLine. cbn. repeat constructor. Qed.

Lemma directive_absent (text : string) :
  useClient ∉ lines text →
  "'" +:+ useClient +:+ "'" ∉ lines text →
  directive text = text.
Proof.
  intros H1 H2. unfold directive.
  rewrite (replaceLine_absent useClient _ text oneLine_useClient None) by done.
  by rewrite (replaceLine_absent _ _ text oneLine_quoted None).
Qed.

Lemma directive_first (rest : string) :
  "'" +:+ useClient +:+ "'" ∉ lines rest →
  directive (useClient +:+ lineFeed +:+ rest)
  = doubleQuote +:+ useClient +:+ doubleQuote +:+ lineFeed +:+ rest.
Proof.
  intros Hno. unfold directive.
  replace (replaceLine useClient (doubleQuote +:+ useClient +:+ doubleQuote) None
             (useClient +:+ lineFeed +:+ rest))
    with (doubleQuote +:+ useClient +:+ doubleQuote +:+ lineFeed +:+ rest)
    by reflexivity.
  transitivity (doubleQuote +:+ useClient +:+ doubleQuote +:+ lineFeed
                +:+ replaceLine ("'" +:+ useClient +:+ "'")
                      (doubleQuote +:+ useClient +:+ doubleQuote)
                      (Some (ascii_of_nat 10)) rest);
    [reflexivity|].
  by rewrite (replaceLine_absent _ _ rest oneLine_quoted (Some (ascii_of_nat 10))).
Qed.

Lemma directive_single (rest : string) :
  useClient ∉ lines rest →
  "'" +:+ useClient +:+ "'" ∉ lines rest →
  directive (("'" +:+ useClient +:+ "'") +:+ lineFeed +:+ rest)
  = doubleQuote +:+ useClient +:+ doubleQuote +:+ lineFeed +:+ rest.
Proof.
  intros Hbare Hsingle. unfold directive.
  transitivity (replaceLine ("'" +:+ useClient +:+ "'")
                  (doubleQuote +:+ useClient +:+ doubleQuote) None
                  (("'" +:+ useClient +:+ "'") +:+ lineFeed
                   +:+ replaceLine useClient
                         (doubleQuote +:+ useClient +:+ doubleQuote)
                         (Some (ascii_of_nat 10)) rest));
    [reflexivity|].
  rewrite (replaceLine_absent useClient _ rest oneLine_useClient
             (Some (ascii_of_nat 10))) by done.
  reflexivity.
Qed.

End CleanFacts.

Section FenceFacts.

Import LLMClient.

(** The opening fence with one of the language names, or with none, goes
    with its line feed. *)
Lemma opening_line (tag x : string) :
  tag ∈ "" :: languages →
  removeAll openingFence None 0 (fence +:+ tag +:+ lineFeed +:+ x)
  = removeAll openingFence (Some (ascii_of_nat 10)) 0 x.
Proof.
  unfold languages. intros Htag.
  repeat (apply elem_of_cons in Htag as [->|Htag]);
    [by destruct x .. | by apply elem_of_nil in Htag].
Qed.

Lemma prefix_stop (l tag : string) (c : ascii) (y : string) :
  c ∉ String.list_ascii_of_string l →
  String.prefix l tag = false →
  String.prefix l (tag +:+ String c y) = false.
Proof.
  revert l. induction tag as [|b tag IH]; intros [|a l] Hc Hpre; try done.
  - change ("" +:+ String c y) with (String c y).
    cbn [String.prefix].
    destruct (ascii_dec a c) as [<-|]; [|done].
    exfalso. apply Hc. left.
  - change (String b tag +:+ String c y) with (String b (tag +:+ String c y)).
    cbn [String.prefix] in *.
    destruct (ascii_dec a b); [|done].
    apply IH; [|done].
    intros Hin. apply Hc. by right.
Qed.

(** With another tag only the three backticks go. *)
Lemma opening_other (tag x : string) :
  (∀ l, l ∈ languages → String.prefix l tag = false) →
  String.prefix lineFeed tag = false →
  tag ≠ "" →
  removeAll openingFence None 0 (fence +:+ tag +:+ lineFeed +:+ x)
  = removeAll openingFence (Some backtick) 0 (tag +:+ lineFeed +:+ x).
Proof.
  intros Hlang Hfeed Hne.
  assert (∀ l, l ∈ languages →
            String.prefix l (tag +:+ lineFeed +:+ x) = false) as Hnone.
  { intros l Hl. apply prefix_stop; [|by apply Hlang].
    unfold languages in Hl.
    repeat (apply elem_of_cons in Hl as [->|Hl]);
      [| | | |by apply elem_of_nil in Hl];
      (intros Hin; cbn in Hin;
       repeat (apply elem_of_cons in Hin as [Hin|Hin]; [discriminate Hin|]);
       by apply elem_of_nil in Hin). }
  destruct tag as [|c tag]; [done|].
  change (fence +:+ String c tag +:+ lineFeed +:+ x)
    with (String backtick (String backtick (String backtick
            (String c tag +:+ lineFeed +:+ x)))).
  cbn [removeAll].
  assert (openingFence None
            (String backtick (String backtick (String backtick
               (String c tag +:+ lineFeed +:+ x)))) = Some 3%nat) as ->.
  { unfold openingFence.
    replace (slice 3 (String backtick (String backtick (String backtick
               (String c tag +:+ lineFeed +:+ x)))))
      with (String c tag +:+ lineFeed +:+ x) by done.
    unfold languages in *. cbn [List.find].
    rewrite !Hnone by (repeat first [left | right]).
    cbn [default String.length Nat.add slice].
    change (String c tag +:+ lineFeed +:+ x)
      with (String c (tag +:+ lineFeed +:+ x)).
    cbn [lineStart andb String.prefix fence].
    destruct (ascii_dec backtick backtick); [|done].
    unfold lineFeed in Hfeed |- * at 1.
    cbn [String.prefix] in Hfeed |- *.
    destruct (ascii_dec (ascii_of_nat 10) c); [by destruct tag|].
    done. }
  done.
Qed.

End FenceFacts.

(** X29. A reply wrapped in a code fence is unwrapped. The reply is a
    fence with one of the language names [typescript], [tsx], [jsx],
    [javascript] or with none, a line feed, a body, a line feed and the
    closing fence; the body has no backtick and nothing to trim at either
    end. The reply is cleaned to what the body alone is cleaned to. That is
    the body itself where none of its lines is the directive [use client]
    without double quotes; and where its first line is that directive, bare
    or in single quotes, and no later line is, the first line becomes the
    directive in double quotes and the rest stays. *)
Theorem X29_fenced_reply_is_unwrapped (tag body : string) :
  tag ∈ "" :: LLMClient.languages →
  LLMClient.plain body →
  LLMClient.trim body = body →
  let reply := LLMClient.fence +:+ tag +:+ LLMClient.lineFeed +:+ body
               +:+ LLMClient.lineFeed +:+ LLMClient.fence in
  let bare := LLMClient.useClient in
  let single := "'" +:+ LLMClient.useClient +:+ "'" in
  let double := LLMClient.doubleQuote +:+ LLMClient.useClient +:+ LLMClient.doubleQuote in
  LLMClient.cleanCode reply = LLMClient.cleanCode body
  ∧ (bare ∉ LLMClient.lines body → single ∉ LLMClient.lines body →
     LLMClient.cleanCode reply = body)
  ∧ (∀ first rest,
       first = bare ∨ first = single →
       body = first +:+ LLMClient.lineFeed +:+ rest →
       bare ∉ LLMClient.lines rest → single ∉ LLMClient.lines rest →
       LLMClient.cleanCode reply = double +:+ LLMClient.lineFeed +:+ rest).
Proof.
  intros Htag Hplain Htrim reply bare single double.
  assert (LLMClient.cleanCode reply = LLMClient.directive body) as Hreply.
  { unfold LLMClient.cleanCode, reply. cbv zeta.
    rewrite (opening_line tag _ Htag).
    by apply cleanCode_closed. }
  split; [|split].
  - by rewrite Hreply, cleanCode_plain.
  - intros Hbare Hsingle. rewrite Hreply. by apply directive_absent.
  - intros first rest Hfirst -> Hbare Hsingle. rewrite Hreply.
    destruct Hfirst as [-> | ->].
    + by apply directive_first.
    + by apply directive_single.
Qed.

Lemma X29_fenced_reply_is_unwrapped_witness :
  LLMClient.cleanCode
    (LLMClient.fence +:+ "tsx" +:+ LLMClient.lineFeed
     +:+ "export default function Page() { return null }"
     +:+ LLMClient.lineFeed +:+ LLMClient.fence)
  = "export default function Page() { return null }".
Proof.
  destruct (X29_fenced_reply_is_unwrapped "tsx"
              "export default function Page() { return null }")
    as (_ & Hsame & _).
  - unfold LLMClient.languages. set_solver.
  - reflexivity.
  - reflexivity.
  - apply Hsame.
    + vm_compute. intros Hin.
      repeat (apply elem_of_cons in Hin as [Hin|Hin]; [discriminate Hin|]).
      by apply elem_of_nil in Hin.
    + vm_compute. intros Hin.
      repeat (apply elem_of_cons in Hin as [Hin|Hin]; [discriminate Hin|]).
      by apply elem_of_nil in Hin.
Defined.

(** X30. Another language tag stays in the code. When the opening fence
    carries a tag that does not begin with [typescript], [tsx], [jsx] or
    [javascript] (such as [ts] or [js]), only the backticks are removed:
    the reply is cleaned to what the tag line followed by the body is
    cleaned to, so the tag becomes the first line of the page. The tag and
    the body have no backtick, and the tag line followed by the body has
    nothing to trim at either end. *)
Theorem X30_other_language_tag_stays (tag body : string) :
  tag ≠ "" →
  (∀ l, l ∈ LLMClient.languages → String.prefix l tag = false) →
  LLMClient.plain (tag +:+ LLMClient.lineFeed +:+ body) →
  LLMClient.trim (tag +:+ LLMClient.lineFeed +:+ body)
  = tag +:+ LLMClient.lineFeed +:+ body →
  let reply := LLMClient.fence +:+ tag +:+ LLMClient.lineFeed +:+ body
               +:+ LLMClient.lineFeed +:+ LLMClient.fence in
  let page := tag +:+ LLMClient.lineFeed +:+ body in
  LLMClient.cleanCode reply = LLMClient.cleanCode page
  ∧ (LLMClient.useClient ∉ LLMClient.lines page →
     "'" +:+ LLMClient.useClient +:+ "'" ∉ LLMClient.lines page →
     LLMClient.cleanCode reply = page).
Proof.
  intros Hne Hlang Hplain Htrim reply page.
  assert (String.prefix LLMClient.lineFeed tag = false) as Hfeed.
  { apply trimmed_ends in Htrim as [Hstart _].
    destruct tag as [|c tag]; [done|].
    change (String c tag +:+ LLMClient.lineFeed +:+ body)
      with (String c (tag +:+ LLMClient.lineFeed +:+ body)) in Hstart.
    cbn [LLMClient.trimStart] in Hstart.
    destruct (LLMClient.whiteSpace c) eqn:Hws.
    - pose proof (trimStart_length (tag +:+ LLMClient.lineFeed +:+ body)) as Hlen.
      rewrite Hstart in Hlen. cbn [String.length] in Hlen. lia.
    - cbn [String.prefix LLMClient.lineFeed].
      destruct (ascii_dec (ascii_of_nat 10) c) as [<-|]; [|done].
      by vm_compute in Hws. }
  assert (LLMClient.cleanCode reply = LLMClient.directive page) as Hreply.
  { unfold LLMClient.cleanCode, reply. cbv zeta.
    rewrite (opening_other tag _ Hlang Hfeed Hne).
    replace (tag +:+ LLMClient.lineFeed +:+ body +:+ LLMClient.lineFeed +:+ LLMClient.fence)
      with (page +:+ LLMClient.lineFeed +:+ LLMClient.fence)
      by (unfold page; by rewrite <- !append_assoc).
    by apply cleanCode_closed. }
  split.
  - by rewrite Hreply, cleanCode_plain.
  - intros Hbare Hsingle. rewrite Hreply. by apply directive_absent.
Qed.

Lemma X30_other_language_tag_stays_witness :
  LLMClient.cleanCode
    (LLMClient.fence +:+ "ts" +:+ LLMClient.lineFeed
     +:+ "export default function Page() { return null }"
     +:+ LLMClient.lineFeed +:+ LLMClient.fence)
  = "ts" +:+ LLMClient.lineFeed +:+ "export default function Page() { return null }".
Proof.
  destruct (X30_other_language_tag_stays "ts"
              "export default function Page() { return null }")
    as (_ & Hsame).
  - discriminate.
  - unfold LLMClient.languages. intros l Hl.
    repeat (apply elem_of_cons in Hl as [->|Hl]); try reflexivity.
    by apply elem_of_nil in Hl.
  - reflexivity.
  - reflexivity.
  - apply Hsame.
    + vm_compute. intros Hin.
      repeat (apply elem_of_cons in Hin as [Hin|Hin]; [discriminate Hin|]).
      by apply elem_of_nil in Hin.
    + vm_compute. intros Hin.
      repeat (apply elem_of_cons in Hin as [Hin|Hin]; [discriminate Hin|]).
      by apply elem_of_nil in Hin.
Defined.
